(** * Checkpoint loading of curated-transformers: [util/serde.py]

    A shallow embedding of [curated_transformers/util/serde.py]: the
    deserialization buckets, the shard loop of
    [load_model_from_checkpoints], the walk over the module tree of
    [_emplace_module_state_dict] and the shape and dtype validation,
    followed by the properties of the loader.

    Python objects are embedded as follows.
    - A [dict] with string keys is an association list in insertion order
      (Python dictionaries iterate in insertion order, and the order decides
      which exception is raised first).  [dict_set] is item assignment.
    - A [set] of strings is a [gset string].
    - An exception is the [Err] branch of [result]; statements after a
      [raise] are not run, which is the bind of the monad.
    - A tensor is its shape, dtype, device and an identifier of its storage.
    - A call into torch whose outcome the loader does not decide
      ([torch.load], [Parameter.to] with a device) and a callback of the
      caller (the two converters) is a function that returns a [result]:
      the value of the call, or the exception that it raises.
    - An object that the loader mutates (the model, the buckets, the set of
      seen keys) is threaded through the functions as a value. *)

From stdpp Require Import base tactics option list strings gmap.

(** ** Exceptions *)

(** [torch.dtype]: some of its values. *)
Inductive dtype := float32 | float16 | bfloat16 | int8 | int64 | bool_.

Global Instance dtype_eq_dec : EqDecision dtype.
Proof. solve_decision. Defined.

Inductive Error :=
  (** [KeyError], line 239. *)
  | KeyError_parameter_and_buffer (name prefix : string)
  (** [KeyError] of a failed dictionary lookup [d[name]]. *)
  | KeyError_lookup (name : string)
  (** [ValueError], line 250. *)
  | ValueError_no_data (name prefix : string)
  (** [ValueError], line 304. *)
  | ValueError_size (name : string) (expected got : list nat)
  (** [ValueError], line 308. *)
  | ValueError_dtype (name : string) (expected got : dtype)
  (** [ValueError], line 154. *)
  | ValueError_multiple_buckets (name : string) (num_matching_buckets : nat)
  (** [ValueError], line 171. *)
  | ValueError_not_updated (missing_keys : gset string)
  (** [ValueError], line 174. *)
  | ValueError_buckets_not_empty
  (** A failed [assert]. *)
  | AssertionError
  (** An exception of a callback or of [torch.load]. *)
  | ExternalError (message : string).

Inductive result (A : Type) :=
  | Ok (a : A)
  | Err (e : Error).
Arguments Ok {A} a.
Arguments Err {A} e.

Global Instance result_ret : MRet result := fun A a => Ok a.

(** Sequencing: what follows a raised exception is not run. *)
Global Instance result_bind : MBind result := fun A B f r =>
  match r with
  | Ok a => f a
  | Err e => Err e
  end.

Definition is_ok {A} (r : result A) : bool :=
  match r with Ok _ => true | Err _ => false end.

(** The value of a run that raised nothing. *)
Definition returned {A} (r : result A) : option A :=
  match r with Ok a => Some a | Err _ => None end.

(** ** Strings *)

(** [key.startswith(p)]. *)
Fixpoint startswith (key p : string) {struct p} : bool :=
  match p, key with
  | EmptyString, _ => true
  | String c p', String d key' => if decide (c = d) then startswith key' p' else false
  | String _ _, EmptyString => false
  end.

(** [fragment in key] on strings: [fragment] occurs in [key]. *)
Fixpoint contains (key fragment : string) : bool :=
  startswith key fragment ||
  match key with
  | EmptyString => false
  | String _ key' => contains key' fragment
  end.

(** ** Dictionaries *)

Abbreviation dict V := (list (string * V)).

Definition dict_keys {V} (d : dict V) : list string := d.*1.

(** [d.get(k)]: [None] where [d[k]] raises. *)
Fixpoint dict_get {V} (k : string) (d : dict V) : option V :=
  match d with
  | [] => None
  | (k', v) :: d' => if decide (k' = k) then Some v else dict_get k d'
  end.

(** [k in d]. *)
Definition dict_mem {V} (k : string) (d : dict V) : bool :=
  match dict_get k d with Some _ => true | None => false end.

(** [d[k] = v]: an existing key keeps its place, a new key goes last. *)
Fixpoint dict_set {V} (k : string) (v : V) (d : dict V) : dict V :=
  match d with
  | [] => [(k, v)]
  | (k', v') :: d' =>
      if decide (k' = k) then (k, v) :: d' else (k', v') :: dict_set k v d'
  end.

(** The dictionary without the key [k]. *)
Definition dict_remove {V} (k : string) (d : dict V) : dict V :=
  filter (fun kv => kv.1 <> k) d.

(** ** Tensors, parameters, modules *)

Inductive Device := cpu | cuda (index : nat).

Global Instance Device_eq_dec : EqDecision Device.
Proof. solve_decision. Defined.

Record Tensor := mkTensor {
  shape : list nat;
  tensor_dtype : dtype;
  device : Device;
  storage : nat
}.

(** A value of [_parameters]: a [torch.nn.Parameter], or the tensor that
    [Parameter.to] returned for one; its data and [requires_grad]. *)
Record Param := mkParam {
  data : Tensor;
  requires_grad : bool
}.

(** [Parameter.to(device)] of torch for a device: what it returns (the
    parameter itself, or a tensor on other storage of that device), or the
    exception that it raises. *)
Definition TorchToT : Type := Param -> Device -> result Param.

(** [p.to(device=device)], line 202: without a device torch returns [p]
    itself. *)
Definition parameter_to (torch_to : TorchToT) (p : Param) (dev : option Device)
  : result Param :=
  match dev with
  | None => Ok p
  | Some d => torch_to p d
  end.

(** The fields of [torch.nn.Module] that the loader reads and writes. *)
#[warnings="-register-all"]
Inductive Module := mkModule {
  _parameters : dict (option Param);
  _buffers : dict (option Tensor);
  _non_persistent_buffers_set : gset string;
  _modules : list (string * Module)
}.

Definition set_parameters (m : Module) (ps : dict (option Param)) : Module :=
  mkModule ps (_buffers m) (_non_persistent_buffers_set m) (_modules m).

Definition set_buffers (m : Module) (bs : dict (option Tensor)) : Module :=
  mkModule (_parameters m) bs (_non_persistent_buffers_set m) (_modules m).

Definition set_modules (m : Module) (ch : list (string * Module)) : Module :=
  mkModule (_parameters m) (_buffers m) (_non_persistent_buffers_set m) ch.

(** ** Buckets, lines 23-78 *)

(** [DeserializationParamBucket] is a dictionary with a [match] and a
    [ready] method.  [key_matcher.search] of the compiled pattern is the
    predicate [key_matcher]. *)
Inductive DeserializationParamBucket :=
  | DefaultParamBucket (items : dict Tensor)
  | RegExParameterBucket (key_matcher : string -> bool)
      (expected_keys : gset string) (items : dict Tensor).

Definition bucket_items (b : DeserializationParamBucket) : dict Tensor :=
  match b with
  | DefaultParamBucket items => items
  | RegExParameterBucket _ _ items => items
  end.

Definition with_items (b : DeserializationParamBucket) (items : dict Tensor)
  : DeserializationParamBucket :=
  match b with
  | DefaultParamBucket _ => DefaultParamBucket items
  | RegExParameterBucket km ex _ => RegExParameterBucket km ex items
  end.

(** [bucket[name] = param]. *)
Definition bucket_set (name : string) (param : Tensor) (b : DeserializationParamBucket) :=
  with_items b (dict_set name param (bucket_items b)).

(** [bucket.clear()]. *)
Definition bucket_clear (b : DeserializationParamBucket) := with_items b [].

(** [bucket.match(param_key)]. *)
Definition bucket_match (b : DeserializationParamBucket) (param_key : string) : bool :=
  match b with
  | DefaultParamBucket _ => true
  | RegExParameterBucket key_matcher _ _ => key_matcher param_key
  end.

(** The inner loop of [ready], lines 74-77: is there a key with
    [expected in key]. *)
Fixpoint some_key_contains (expected : string) (keys : list string) : bool :=
  match keys with
  | [] => false
  | key :: keys' => if contains key expected then true else some_key_contains expected
      keys'
  end.

(** The outer loop of [ready], lines 72-77, from the counter [seen]. *)
Fixpoint count_seen (expected_keys keys : list string) (seen : nat) : nat :=
  match expected_keys with
  | [] => seen
  | expected :: rest =>
      count_seen rest keys (if some_key_contains expected keys then S seen else seen)
  end.

(** [bucket.ready()]. *)
Definition ready (b : DeserializationParamBucket) : bool :=
  match b with
  | DefaultParamBucket _ => true
  | RegExParameterBucket _ expected_keys items =>
      if negb (size expected_keys =? length items) then false
      else count_seen (elements expected_keys) (dict_keys items) 0 =? size expected_keys
  end.

(** ** Validation and installation of one tensor, lines 177-310 *)

(** [TensorToParameterConverterT]: parent module, module prefix, parameter
    name, tensor, device; returns the new parameter or raises. *)
Definition TensorToParameterConverterT : Type :=
  Module -> string -> string -> Tensor -> option Device -> result Param.

(** [HFStateDictConverterT]: state dict; returns the converted state dict
    or raises. *)
Definition HFStateDictConverterT : Type := dict Tensor -> result (dict Tensor).

Definition _validate_replacement (replaced replacement : Tensor) (name : string)
  : result unit :=
  if decide (shape replaced <> shape replacement) then
    Err (ValueError_size name (shape replaced) (shape replacement))
  else if decide (tensor_dtype replaced <> tensor_dtype replacement) then
    Err (ValueError_dtype name (tensor_dtype replaced) (tensor_dtype replacement))
  else Ok ().

Definition default_tensor_to_parameter_converter (torch_to : TorchToT)
  : TensorToParameterConverterT :=
  fun module module_prefix parameter_name tensor dev =>
    match dict_get parameter_name (_parameters module) with
    | None => Err (KeyError_lookup parameter_name)
    | Some None => Err AssertionError
    | Some (Some old_param) =>
        _ ← _validate_replacement (data old_param) tensor module_prefix;
        parameter_to torch_to (mkParam tensor (requires_grad old_param)) dev
    end.

Definition _emplace_module_tensor (module : Module) (module_prefix tensor_name : string)
    (replacement_tensor : Tensor)
    (tensor_to_param_converter : TensorToParameterConverterT)
    (dev : option Device) : result Module :=
  let is_parameter := dict_mem tensor_name (_parameters module) in
  let is_buffer := dict_mem tensor_name (_buffers module) in
  if negb (xorb is_parameter is_buffer) then Err AssertionError
  else if is_parameter then
    new_param ← tensor_to_param_converter module module_prefix tensor_name
                  replacement_tensor dev;
    Ok (set_parameters module
          (dict_set tensor_name (Some new_param) (_parameters module)))
  else
    match dict_get tensor_name (_buffers module) with
    | Some (Some old_buffer) =>
        _ ← _validate_replacement old_buffer replacement_tensor
              (module_prefix +:+ "." +:+ tensor_name);
        Ok (set_buffers module
              (dict_set tensor_name (Some replacement_tensor) (_buffers module)))
    | _ => Err AssertionError
    end.

(** ** The walk over the module tree, lines 216-264 *)

(** The fields of [ModuleIterator] that [apply] reads. *)
Record ModuleIterator := mkModuleIterator {
  module : Module;
  prefix : string
}.

(** A value of [local_params_and_buffers]. *)
Inductive ParamOrTensor :=
  | a_parameter (p : Param)
  | a_tensor (t : Tensor).

(** The loop over [_buffers], lines 237-243. *)
Fixpoint add_buffers (non_persistent : gset string) (module_prefix : string)
    (buffers : dict (option Tensor)) (local : dict (option ParamOrTensor))
  : result (dict (option ParamOrTensor)) :=
  match buffers with
  | [] => Ok local
  | (name, buf) :: rest =>
      if dict_mem name local then
        Err (KeyError_parameter_and_buffer name module_prefix)
      else if decide (name ∉ non_persistent) then
        add_buffers non_persistent module_prefix rest
          (dict_set name (a_tensor <$> buf) local)
      else add_buffers non_persistent module_prefix rest local
  end.

(** Lines 234-243. *)
Definition local_params_and_buffers (itr : ModuleIterator)
  : result (dict (option ParamOrTensor)) :=
  add_buffers (_non_persistent_buffers_set (module itr)) (prefix itr)
    (_buffers (module itr))
    ((fun kv : string * option Param => (kv.1, a_parameter <$> kv.2)) <$>
       _parameters (module itr)).

(** The loop over [local_params_and_buffers], lines 245-262; [m] is the
    module as the earlier iterations left it. *)
Fixpoint emplace_local (module_prefix : string) (candidate_tensors : dict Tensor)
    (tensor_to_param_converter : TensorToParameterConverterT) (dev : option Device)
    (local : dict (option ParamOrTensor)) (m : Module) : result Module :=
  match local with
  | [] => Ok m
  | (name, param) :: rest =>
      let key := (module_prefix +:+ ".") +:+ name in
      match dict_get key candidate_tensors with
      | None => emplace_local module_prefix candidate_tensors
                  tensor_to_param_converter dev rest m
      | Some replacement =>
          match param with
          | None => Err (ValueError_no_data name module_prefix)
          | Some _ =>
              m' ← _emplace_module_tensor m module_prefix name replacement
                     tensor_to_param_converter dev;
              emplace_local module_prefix candidate_tensors
                tensor_to_param_converter dev rest m'
          end
      end
  end.

(** The closure [apply] of [_emplace_module_state_dict]; it returns the
    module of the iterator as it leaves it. *)
Definition apply (state_dict : dict Tensor)
    (tensor_to_param_converter : TensorToParameterConverterT) (dev : option Device)
    (itr : ModuleIterator) : result Module :=
  let prefix_with_dot := prefix itr +:+ "." in
  let candidate_tensors :=
    filter (fun kv => startswith kv.1 prefix_with_dot) state_dict in
  if length candidate_tensors =? 0 then Ok (module itr)
  else
    local ← local_params_and_buffers itr;
    emplace_local (prefix itr) candidate_tensors tensor_to_param_converter dev
      local (module itr).

(** Modelled from the spec: [apply_to_module] of [util/pytorch.py], which is
    not among the sources.  The spec (4.4) has the walker recurse depth-first
    over the submodules, each addressed by its dotted path; the root has the
    empty path.  [func] works on the parameters and buffers of the module it
    is given and leaves the submodules to the walk. *)
Definition child_prefix (parent_prefix name : string) : string :=
  if decide (parent_prefix = "") then name else parent_prefix +:+ "." +:+ name.

Fixpoint apply_to_module_at (func : ModuleIterator -> result Module)
    (module_prefix : string) (m : Module) : result Module :=
  match m with
  | mkModule _ _ _ children =>
      m' ← func (mkModuleIterator m module_prefix);
      children' ← (fix walk (cs : list (string * Module)) :=
                     match cs with
                     | [] => Ok []
                     | (name, child) :: cs' =>
                         child' ← apply_to_module_at func
                                    (child_prefix module_prefix name) child;
                         cs'' ← walk cs';
                         Ok ((name, child') :: cs'')
                     end) children;
      Ok (set_modules m' children')
  end.

Definition apply_to_module (m : Module) (func : ModuleIterator -> result Module)
  : result Module :=
  apply_to_module_at func "" m.

Definition resolve_converter (torch_to : TorchToT)
    (tensor_to_param_converter : option TensorToParameterConverterT)
  : TensorToParameterConverterT :=
  match tensor_to_param_converter with
  | None => default_tensor_to_parameter_converter torch_to
  | Some c => c
  end.

Definition _emplace_module_state_dict (torch_to : TorchToT) (m : Module)
    (state_dict : dict Tensor)
    (tensor_to_param_converter : option TensorToParameterConverterT)
    (dev : option Device) : result Module :=
  apply_to_module m
    (apply state_dict (resolve_converter torch_to tensor_to_param_converter) dev).

(** The keys of [model.state_dict()] of [torch.nn.Module]: the parameters
    and the persistent buffers that hold data, under their dotted paths. *)
Fixpoint state_dict_keys_at (key_prefix : string) (m : Module) : list string :=
  match m with
  | mkModule parameters buffers non_persistent children =>
      ((fun kv => key_prefix +:+ kv.1) <$>
         filter (fun kv => is_Some kv.2) parameters) ++
      ((fun kv => key_prefix +:+ kv.1) <$>
         filter (fun kv => is_Some kv.2 /\ kv.1 ∉ non_persistent) buffers) ++
      (fix walk (cs : list (string * Module)) :=
         match cs with
         | [] => []
         | (name, child) :: cs' =>
             state_dict_keys_at (key_prefix +:+ name +:+ ".") child ++ walk cs'
         end) children
  end.

Definition state_dict_keys (m : Module) : list string := state_dict_keys_at "" m.

(** ** [load_model_from_checkpoints], lines 81-174 *)

(** What the shard loop mutates: the model, the set [seen_keys], the local
    [default_bucket] and the buckets of the caller. *)
Record LoadState := mkLoadState {
  model : Module;
  seen_keys : gset string;
  default_bucket : DeserializationParamBucket;
  deserialization_buckets : list DeserializationParamBucket
}.

(** [matching_buckets[0][name] = param]: the first bucket that matches
    [name] takes the tensor. *)
Fixpoint set_in_first_match (name : string) (param : Tensor)
    (buckets : list DeserializationParamBucket) : list DeserializationParamBucket :=
  match buckets with
  | [] => []
  | bucket :: rest =>
      if bucket_match bucket name then bucket_set name param bucket :: rest
      else bucket :: set_in_first_match name param rest
  end.

(** Sorting the items of one state dict into the buckets, lines 144-156. *)
Fixpoint sort_into_buckets (items : dict Tensor)
    (default : DeserializationParamBucket)
    (buckets : list DeserializationParamBucket)
  : result (DeserializationParamBucket * list DeserializationParamBucket) :=
  match items with
  | [] => Ok (default, buckets)
  | (name, param) :: rest =>
      let matching_buckets := filter (fun bucket => bucket_match bucket name) buckets in
      let num_matching_buckets := length matching_buckets in
      if num_matching_buckets =? 0 then
        sort_into_buckets rest (bucket_set name param default) buckets
      else if num_matching_buckets =? 1 then
        sort_into_buckets rest default (set_in_first_match name param buckets)
      else Err (ValueError_multiple_buckets name num_matching_buckets)
  end.

Section Loader.

(** [Parameter.to] of torch, which the default tensor-to-parameter
    converter calls. *)
Variable torch_to : TorchToT.
Variable state_dict_converter : HFStateDictConverterT.
Variable tensor_to_param_converter : option TensorToParameterConverterT.
Variable dev : option Device.
(** [torch.load] of a checkpoint path, mapped to the CPU. *)
Variable torch_load : string -> result (dict Tensor).

(** The closure [convert_and_load_state_dict], lines 109-125, on the model
    and the set of seen keys. *)
Definition convert_and_load_state_dict (m : Module) (state_dict : dict Tensor)
    (seen : gset string) : result (Module * gset string) :=
  converted ← state_dict_converter state_dict;
  if length converted =? 0 then Ok (m, seen)
  else
    let seen := seen ∪ list_to_set (dict_keys converted) in
    m' ← _emplace_module_state_dict torch_to m converted tensor_to_param_converter dev;
    Ok (m', seen).

(** The loop over the buckets that are full, lines 163-166. *)
Fixpoint load_ready_buckets (buckets : list DeserializationParamBucket)
    (m : Module) (seen : gset string)
  : result (list DeserializationParamBucket * Module * gset string) :=
  match buckets with
  | [] => Ok ([], m, seen)
  | bucket :: rest =>
      if ready bucket then
        '(m', seen') ← convert_and_load_state_dict m (bucket_items bucket) seen;
        '(rest', m'', seen'') ← load_ready_buckets rest m' seen';
        Ok (bucket_clear bucket :: rest', m'', seen'')
      else
        '(rest', m'', seen'') ← load_ready_buckets rest m seen;
        Ok (bucket :: rest', m'', seen'')
  end.

(** One iteration of the loop over the state dicts, lines 143-166. *)
Definition load_state_dict (st : LoadState) (state_dict : dict Tensor)
  : result LoadState :=
  '(default, buckets) ← sort_into_buckets state_dict (default_bucket st)
                          (deserialization_buckets st);
  '(m, seen) ← convert_and_load_state_dict (model st) (bucket_items default)
                 (seen_keys st);
  let default := bucket_clear default in
  '(buckets', m', seen') ← load_ready_buckets buckets m seen;
  Ok (mkLoadState m' seen' default buckets').

(** The loop over the checkpoints, lines 142-166, each read when the loop
    reaches it (lines 205-213). *)
Fixpoint load_state_dicts (filepaths : list string) (st : LoadState)
  : result LoadState :=
  match filepaths with
  | [] => Ok st
  | path :: rest =>
      state_dict ← torch_load path;
      st' ← load_state_dict st state_dict;
      load_state_dicts rest st'
  end.

(** The checks after the loop, lines 168-174. *)
Definition check_loaded (module_keys : gset string) (st : LoadState)
  : result LoadState :=
  let missing_keys := module_keys ∖ seen_keys st in
  if negb (size missing_keys =? 0) then Err (ValueError_not_updated missing_keys)
  else if existsb (fun bucket => negb (length (bucket_items bucket) =? 0))
            (deserialization_buckets st)
  then Err ValueError_buckets_not_empty
  else Ok st.

(** [load_model_from_checkpoints]; the result is the state in which the
    call leaves the model and the buckets. *)
Definition load_model_from_checkpoints (m : Module) (filepaths : list string)
    (buckets : list DeserializationParamBucket) : result LoadState :=
  let module_keys : gset string := list_to_set (state_dict_keys m) in
  let seen : gset string := ∅ in
  let default := DefaultParamBucket [] in
  st ← load_state_dicts filepaths (mkLoadState m seen default buckets);
  check_loaded module_keys st.

End Loader.

(** ** Vocabulary of the properties *)

(** Converting and loading a sequence of state dicts, one after the other. *)
Fixpoint convert_and_load_in_order (torch_to : TorchToT)
    (state_dict_converter : HFStateDictConverterT)
    (tensor_to_param_converter : option TensorToParameterConverterT)
    (dev : option Device) (state_dicts : list (dict Tensor))
    (m : Module) (seen : gset string) : result (Module * gset string) :=
  match state_dicts with
  | [] => Ok (m, seen)
  | state_dict :: rest =>
      '(m', seen') ← convert_and_load_state_dict torch_to state_dict_converter
                       tensor_to_param_converter dev m state_dict seen;
      convert_and_load_in_order torch_to state_dict_converter
        tensor_to_param_converter dev rest m' seen'
  end.

(** The conversions of an iteration as the specification has them, on the
    state dict converter and the installation themselves: each state dict of the
    sequence is converted; a converted state dict that is not empty has its
    keys recorded in the set of seen keys and is installed in the model as
    the state dicts before it left it. *)
Fixpoint convert_then_install (torch_to : TorchToT)
    (state_dict_converter : HFStateDictConverterT)
    (tensor_to_param_converter : option TensorToParameterConverterT)
    (dev : option Device) (state_dicts : list (dict Tensor))
    (m : Module) (seen : gset string) : result (Module * gset string) :=
  match state_dicts with
  | [] => Ok (m, seen)
  | state_dict :: rest =>
      converted ← state_dict_converter state_dict;
      match converted with
      | [] =>
          convert_then_install torch_to state_dict_converter
            tensor_to_param_converter dev rest m seen
      | _ :: _ =>
          m' ← _emplace_module_state_dict torch_to m converted
                 tensor_to_param_converter dev;
          convert_then_install torch_to state_dict_converter
            tensor_to_param_converter dev rest m'
            (seen ∪ list_to_set (dict_keys converted))
      end
  end.

(** What the loop over the full buckets leaves of a bucket. *)
Definition cleared_if_ready (b : DeserializationParamBucket) :
    DeserializationParamBucket :=
  if ready b then bucket_clear b else b.

(** The number of buckets whose [match] accepts [name]. *)
Definition num_matching (buckets : list DeserializationParamBucket) (name : string) :
    nat :=
  length (filter (fun bucket => bucket_match bucket name) buckets).

(** Two buckets with the same [match]. *)
Definition same_match (b b' : DeserializationParamBucket) : Prop :=
  forall key, bucket_match b key = bucket_match b' key.

(** The state in which [load_model_from_checkpoints] enters its loop. *)
Definition initial_state (m : Module) (buckets : list DeserializationParamBucket)
  : LoadState :=
  mkLoadState m ∅ (DefaultParamBucket []) buckets.

(** The invariants of the dictionaries of a module: the keys of a
    dictionary are distinct, and [torch.nn.Module] registers no name both
    as a parameter and as a buffer. *)
Definition wf_module (m : Module) : bool :=
  bool_decide (NoDup (dict_keys (_parameters m))) &&
  bool_decide (NoDup (dict_keys (_buffers m))) &&
  forallb (fun name => negb (dict_mem name (_buffers m))) (dict_keys (_parameters m)).

Fixpoint wf_tree (m : Module) : bool :=
  match m with
  | mkModule _ _ _ children =>
      wf_module m &&
      (fix walk (cs : list (string * Module)) :=
         match cs with
         | [] => true
         | (_, child) :: cs' => wf_tree child && walk cs'
         end) children
  end.

(** The names that [local_params_and_buffers] holds: the parameters and
    the persistent buffers. *)
Definition considered_names (m : Module) : list string :=
  dict_keys (_parameters m) ++
  filter (fun name => name ∉ _non_persistent_buffers_set m) (dict_keys (_buffers m)).

(** The keys that the walk looks up in a state dict: for every module of
    the tree, its prefix, a dot and a considered name. *)
Fixpoint slot_keys_at (module_prefix : string) (m : Module) : list string :=
  match m with
  | mkModule _ _ _ children =>
      ((fun name => (module_prefix +:+ ".") +:+ name) <$> considered_names m) ++
      (fix walk (cs : list (string * Module)) :=
         match cs with
         | [] => []
         | (name, child) :: cs' =>
             slot_keys_at (child_prefix module_prefix name) child ++ walk cs'
         end) children
  end.

Definition slot_keys (m : Module) : list string := slot_keys_at "" m.

(** A tensor-to-parameter converter that reads, of the module it is given,
    only the parameter it replaces. *)
Definition slot_local (converter : TensorToParameterConverterT) : Prop :=
  forall m m' module_prefix name tensor dev,
    dict_get name (_parameters m) = dict_get name (_parameters m') ->
    converter m module_prefix name tensor dev
    = converter m' module_prefix name tensor dev.

(** What a walk that raises nothing leaves of one parameter, of one buffer
    and of a module tree. *)
Definition install_parameter (state_dict : dict Tensor)
    (converter : TensorToParameterConverterT) (dev : option Device)
    (module_prefix : string) (kv : string * option Param)
  : option (string * option Param) :=
  match dict_get ((module_prefix +:+ ".") +:+ kv.1) state_dict with
  | None => Some kv
  | Some replacement =>
      match kv.2 with
      | None => None
      | Some _ =>
          new_param ← returned (converter (mkModule [kv] [] ∅ []) module_prefix kv.1
                                  replacement dev);
          Some (kv.1, Some new_param)
      end
  end.

Definition install_buffer (state_dict : dict Tensor) (module_prefix : string)
    (non_persistent : gset string) (kv : string * option Tensor)
  : option (string * option Tensor) :=
  if decide (kv.1 ∈ non_persistent) then Some kv
  else
    match dict_get ((module_prefix +:+ ".") +:+ kv.1) state_dict with
    | None => Some kv
    | Some replacement =>
        match kv.2 with
        | None => None
        | Some old_buffer =>
            _ ← returned (_validate_replacement old_buffer replacement
                            (module_prefix +:+ "." +:+ kv.1));
            Some (kv.1, Some replacement)
        end
    end.

Definition install_module (state_dict : dict Tensor)
    (converter : TensorToParameterConverterT) (dev : option Device)
    (module_prefix : string) (m : Module) : option Module :=
  parameters ← mapM (install_parameter state_dict converter dev module_prefix)
                 (_parameters m);
  buffers ← mapM (install_buffer state_dict module_prefix
                    (_non_persistent_buffers_set m)) (_buffers m);
  Some (mkModule parameters buffers (_non_persistent_buffers_set m) (_modules m)).

Fixpoint install_tree (state_dict : dict Tensor)
    (converter : TensorToParameterConverterT) (dev : option Device)
    (module_prefix : string) (m : Module) : option Module :=
  match m with
  | mkModule _ _ _ children =>
      m' ← install_module state_dict converter dev module_prefix m;
      children' ← mapM (fun nc : string * Module =>
                          child' ← install_tree state_dict converter dev
                                     (child_prefix module_prefix nc.1) nc.2;
                          Some (nc.1, child')) children;
      Some (set_modules m' children')
  end.



(** [module_at root root_prefix m module_prefix]: the walk from [root]
    under [root_prefix] comes to the module [m] under [module_prefix]. *)
Inductive module_at : Module -> string -> Module -> string -> Prop :=
  | module_at_here m module_prefix : module_at m module_prefix m module_prefix
  | module_at_child root root_prefix name child m module_prefix :
      (name, child) ∈ _modules root ->
      module_at child (child_prefix root_prefix name) m module_prefix ->
      module_at root root_prefix m module_prefix.

(** [apply] rejects the tensor that the state dict holds for a slot of the
    module, with the exception [e]: the slot is registered without data
    (line 250), the tensor-to-parameter converter raises for the parameter
    (line 285), or the validation of the persistent buffer raises
    (line 292). *)
Definition slot_failure (converter : TensorToParameterConverterT) (dev : option Device)
    (m : Module) (module_prefix : string) (state_dict : dict Tensor) (e : Error)
  : Prop :=
  exists name replacement,
    dict_get ((module_prefix +:+ ".") +:+ name) state_dict = Some replacement /\
    (((name, None) ∈ _parameters m /\ e = ValueError_no_data name module_prefix) \/
     ((name, None) ∈ _buffers m /\ (name ∉ _non_persistent_buffers_set m) /\
      e = ValueError_no_data name module_prefix) \/
     (exists old_param,
        (name, Some old_param) ∈ _parameters m /\
        converter m module_prefix name replacement dev = Err e) \/
     (exists old_buffer,
        (name, Some old_buffer) ∈ _buffers m /\
        (name ∉ _non_persistent_buffers_set m) /\
        _validate_replacement old_buffer replacement (module_prefix +:+ "." +:+ name)
        = Err e)).

(** [{rename(k): reshape(k, v) for k, v in state_dict.items()}]: a state
    dict converter that works key by key. *)
Definition dict_from_items {V} (items : list (string * V)) : dict V :=
  fold_left (fun d kv => dict_set kv.1 kv.2 d) items [].

Definition key_wise (state_dict_converter : HFStateDictConverterT)
    (rename : string -> string) (reshape : string -> Tensor -> Tensor) : Prop :=
  forall state_dict,
    state_dict_converter state_dict
    = Ok (dict_from_items ((fun kv => (rename kv.1, reshape kv.1 kv.2)) <$> state_dict)).

(** ** Example values *)

Definition example_tensor : Tensor := mkTensor [4; 4] float32 cpu 1.

Definition linear : Module :=
  mkModule [("weight", Some (mkParam example_tensor true)); ("bias", None)] [] ∅ [].

Definition batch_norm : Module :=
  mkModule []
    [("running_mean", Some example_tensor); ("running_count", Some example_tensor)]
    {["running_count"]} [].

Definition example_model : Module :=
  mkModule [] [] ∅ [("linear", linear); ("norm", batch_norm)].

Definition wide_tensor : Tensor := mkTensor [4; 5] float32 cpu 2.
Definition new_weight : Tensor := mkTensor [4; 4] float32 cpu 3.
Definition new_mean : Tensor := mkTensor [4; 4] float32 cpu 4.

(** A model whose only tensor is the weight of one linear layer. *)
Definition small_model : Module :=
  mkModule [] [] ∅
    [("linear", mkModule [("weight", Some (mkParam example_tensor true))] [] ∅ [])].

(** The checkpoints of the examples, by path. *)
Definition example_torch_load (path : string) : result (dict Tensor) :=
  if decide (path = "model-00001.bin") then Ok [("linear.weight", new_weight)]
  else if decide (path = "model-00002.bin") then Ok [("norm.running_mean", new_mean)]
  else if decide (path = "model.bin") then
    Ok [("linear.weight", new_weight); ("norm.running_mean", new_mean)]
  else if decide (path = "attention.bin") then
    Ok [("embeddings.weight", example_tensor);
        ("attention.query.weight", example_tensor);
        ("attention.key.weight", example_tensor);
        ("mlp.up.weight", example_tensor)]
  else if decide (path = "a.bin") then Ok [("a.weight", wide_tensor)]
  else if decide (path = "b.bin") then Ok [("b.weight", new_weight)]
  else if decide (path = "ab.bin") then
    Ok [("a.weight", wide_tensor); ("b.weight", new_weight)]
  else if decide (path = "wide.bin") then Ok [("norm.running_mean", wide_tensor)]
  else Err (ExternalError "No such file").

(** A converter for checkpoints that already use the names of the model. *)
Definition same_names : HFStateDictConverterT :=
  fun state_dict =>
    Ok (dict_from_items ((fun kv => (kv.1, kv.2)) <$> state_dict)).

(** A converter that names every tensor [linear.weight]. *)
Definition all_to_linear_weight : HFStateDictConverterT :=
  fun state_dict =>
    Ok (dict_from_items ((fun kv => ("linear.weight", kv.2)) <$> state_dict)).

(** A converter that defers all its output. *)
Definition nothing_yet : HFStateDictConverterT := fun _ => Ok [].

(** A torch with the CPU and one GPU: a parameter on the device is
    returned itself, another is copied to new storage of the device, and a
    GPU that is not there raises. *)
Definition example_torch_to : TorchToT :=
  fun p d =>
    if decide (device (data p) = d) then Ok p
    else
      match d with
      | cuda (S _) => Err (ExternalError "CUDA error: invalid device ordinal")
      | _ =>
          Ok (mkParam (mkTensor (shape (data p)) (tensor_dtype (data p)) d
                         (100 + storage (data p)))
                (requires_grad p))
      end.


Definition attention_bucket (items : dict Tensor) : DeserializationParamBucket :=
  RegExParameterBucket (fun key => contains key "attention") {["query"; "key"]} items.

Definition query_bucket (items : dict Tensor) : DeserializationParamBucket :=
  RegExParameterBucket (fun key => contains key "query") {["query"]} items.

Definition mlp_bucket (items : dict Tensor) : DeserializationParamBucket :=
  RegExParameterBucket (fun key => contains key "mlp") {["up"; "down"]} items.

(** [example_model] after the two tensors of its checkpoints are installed. *)
Definition loaded_model : Module :=
  mkModule [] [] ∅
    [("linear",
      mkModule [("weight", Some (mkParam new_weight true)); ("bias", None)] [] ∅ []);
     ("norm",
      mkModule []
        [("running_mean", Some new_mean); ("running_count", Some example_tensor)]
        {["running_count"]} [])].

(** ** Vocabulary of further properties *)

(** A bucket of the class [RegExParameterBucket] that holds more tensors
    than it expects fragments. *)
Definition overfull (b : DeserializationParamBucket) : Prop :=
  match b with
  | DefaultParamBucket _ => False
  | RegExParameterBucket _ expected_keys items => size expected_keys < length items
  end.

(** [b'] is the bucket [b] with other items: the same class, pattern and
    expected keys. *)
Definition same_bucket (b b' : DeserializationParamBucket) : Prop :=
  exists items, b' = with_items b items.

(** The keys that converting the state dicts records in [seen_keys]. *)
Definition converted_keys (state_dict_converter : HFStateDictConverterT)
    (state_dicts : list (dict Tensor)) : gset string :=
  ⋃ ((fun state_dict =>
        match state_dict_converter state_dict with
        | Ok converted => list_to_set (dict_keys converted)
        | Err _ => ∅
        end) <$> state_dicts).

(** Some bucket whose [match] accepts [key] holds [tensor] under [key]. *)
Definition stored (key : string) (tensor : Tensor)
    (buckets : list DeserializationParamBucket) : Prop :=
  exists bucket,
    bucket ∈ buckets /\ bucket_match bucket key = true /\
    dict_get key (bucket_items bucket) = Some tensor.

(** An overfull bucket stays overfull. *)
Definition stays_overfull (b b' : DeserializationParamBucket) : Prop :=
  overfull b -> overfull b'.

(** The exceptions with which the walk rejects a state dict that does not
    fit the model: lines 250, 304 and 308. *)
Definition replacement_error (e : Error) : Prop :=
  match e with
  | ValueError_no_data _ _ | ValueError_size _ _ _ | ValueError_dtype _ _ _ => True
  | _ => False
  end.

(** The exceptions of [load_model_from_checkpoints] itself: lines 154, 171
    and 174, and those with which the walk rejects a state dict. *)
Definition loader_error (e : Error) : Prop :=
  match e with
  | ValueError_multiple_buckets _ num_matching_buckets => 1 < num_matching_buckets
  | ValueError_not_updated missing_keys => missing_keys <> ∅
  | ValueError_buckets_not_empty => True
  | _ => replacement_error e
  end.

(** ** Further example values *)

(** A bucket for the keys of the attention layer that expects the query
    only. *)
Definition narrow_bucket (items : dict Tensor) : DeserializationParamBucket :=
  RegExParameterBucket (fun key => contains key "attention") {["query"]} items.

(** A module with the name [weight] in both of its dictionaries. *)
Definition clashing_module : Module :=
  mkModule [("weight", Some (mkParam example_tensor true))]
    [("running_mean", Some example_tensor); ("weight", Some example_tensor)] ∅ [].

(** A module with a parameter, a persistent and a non-persistent buffer. *)
Definition scaled_norm : Module :=
  mkModule [("weight", Some (mkParam example_tensor false))]
    [("running_mean", Some example_tensor); ("running_count", Some example_tensor)]
    {["running_count"]} [].

(** A file system in which only [wide.bin] can be read. *)
Definition other_torch_load (path : string) : result (dict Tensor) :=
  if decide (path = "wide.bin") then example_torch_load path
  else Err (ExternalError "Permission denied").

(** * Properties *)

(** ** Strings *)

Lemma append_cons c s t : String c s +:+ t = String c (s +:+ t).
Proof. reflexivity. Qed.

Lemma append_nil t : "" +:+ t = t.
Proof. reflexivity. Qed.

Lemma startswith_spec key p :
  startswith key p = true <-> exists rest, key = p +:+ rest.
Proof.
  revert key. induction p as [|c p IH]; intros key; simpl.
  - split; [intros _; by exists key | done].
  - destruct key as [|d key].
    + split; [done | intros [rest Hr]; discriminate].
    + destruct (decide (c = d)) as [->|Hne].
      * rewrite IH. split; intros [rest Hr]; exists rest;
          rewrite ?append_cons in *; congruence.
      * split; [done | intros [rest Hr]; rewrite append_cons in Hr; congruence].
Qed.

Lemma startswith_append p rest : startswith (p +:+ rest) p = true.
Proof. apply startswith_spec. by exists rest. Qed.

(** [contains] is the substring test: [fragment] occurs in [key] between
    some [before] and some [after]. *)
Lemma contains_spec key fragment :
  contains key fragment = true <->
  exists before after, key = before +:+ fragment +:+ after.
Proof.
  induction key as [|c key IH].
  - simpl. rewrite orb_false_r, startswith_spec. split.
    + intros [rest Hr]. by exists "", rest.
    + intros [[|b before] [after Ha]]; [by exists after | discriminate].
  - cbn [contains]. rewrite orb_true_iff, IH, startswith_spec. split.
    + intros [[rest Hr]|(before & after & Hk)].
      * by exists "", rest.
      * exists (String c before), after. by rewrite append_cons, Hk.
    + intros ([|b before] & after & Hk).
      * left. by exists after.
      * right. exists before, after. rewrite append_cons in Hk. congruence.
Qed.

Lemma some_key_contains_spec expected keys :
  some_key_contains expected keys = true <->
  exists key, key ∈ keys /\ contains key expected = true.
Proof.
  induction keys as [|key keys IH]; simpl.
  - split; [done | intros (k & Hk & _); by apply not_elem_of_nil in Hk].
  - destruct (contains key expected) eqn:Hc.
    + split; [intros _; exists key; split; [left | done] | done].
    + rewrite IH. split.
      * intros (k & Hk & Hck). exists k. split; [by right | done].
      * intros (k & Hk & Hck). apply elem_of_cons in Hk as [->|Hk]; [congruence|].
        by exists k.
Qed.

Lemma count_seen_le expected_keys keys seen :
  count_seen expected_keys keys seen <= seen + length expected_keys.
Proof.
  revert seen. induction expected_keys as [|e es IH]; intros seen; simpl; [lia|].
  destruct (some_key_contains e keys); etrans; [apply IH | lia | apply IH | lia].
Qed.

Lemma count_seen_full expected_keys keys seen :
  count_seen expected_keys keys seen = seen + length expected_keys <->
  Forall (fun e => some_key_contains e keys = true) expected_keys.
Proof.
  revert seen. induction expected_keys as [|e es IH]; intros seen; simpl.
  - split; [intros _; constructor | lia].
  - destruct (some_key_contains e keys) eqn:He.
    + replace (seen + S (length es)) with (S seen + length es) by lia.
      rewrite IH. split; [by constructor | by inversion 1].
    + split.
      * intros Heq. pose proof (count_seen_le es keys seen). lia.
      * inversion 1; congruence.
Qed.

(** ** Dictionaries *)

Lemma dict_get_None {V} (k : string) (d : dict V) :
  dict_get k d = None <-> k ∉ dict_keys d.
Proof.
  unfold dict_keys. induction d as [|[k' v] d IH]; simpl.
  - split; [intros _; apply not_elem_of_nil | done].
  - rewrite not_elem_of_cons. destruct (decide (k' = k)) as [->|Hne].
    + split; [done | by intros [? _]].
    + rewrite IH. split; [by intros ? | by intros [_ ?]].
Qed.

Lemma dict_mem_false {V} (k : string) (d : dict V) :
  dict_mem k d = false <-> k ∉ dict_keys d.
Proof.
  unfold dict_mem. rewrite <- dict_get_None. by destruct (dict_get k d).
Qed.

Lemma dict_mem_true {V} (k : string) (d : dict V) :
  dict_mem k d = true <-> k ∈ dict_keys d.
Proof.
  destruct (dict_mem k d) eqn:Hm.
  - split; [intros _ | done]. destruct (decide (k ∈ dict_keys d)) as [|Hn]; [done|].
    apply dict_mem_false in Hn. congruence.
  - split; [done|]. intros Hin. by apply dict_mem_false in Hm.
Qed.

Lemma dict_get_app_middle {V} (k : string) (v : V) (done rest : dict V) :
  k ∉ dict_keys done -> dict_get k (done ++ (k, v) :: rest) = Some v.
Proof.
  unfold dict_keys. induction done as [|[k' v'] done IH]; simpl; intros Hn.
  - by rewrite decide_True.
  - apply not_elem_of_cons in Hn as [Hne Hn]. rewrite decide_False by done. by apply IH.
Qed.

Lemma dict_set_app_middle {V} (k : string) (v v' : V) (done rest : dict V) :
  k ∉ dict_keys done ->
  dict_set k v' (done ++ (k, v) :: rest) = done ++ (k, v') :: rest.
Proof.
  unfold dict_keys. induction done as [|[k0 v0] done IH]; simpl; intros Hn.
  - by rewrite decide_True.
  - apply not_elem_of_cons in Hn as [Hne Hn]. rewrite decide_False by done.
    by rewrite IH.
Qed.

Lemma dict_set_fresh {V} (k : string) (v : V) (d : dict V) :
  k ∉ dict_keys d -> dict_set k v d = d ++ [(k, v)].
Proof.
  unfold dict_keys. induction d as [|[k0 v0] d IH]; simpl; intros Hn; [done|].
  apply not_elem_of_cons in Hn as [Hne Hn]. rewrite decide_False by done.
  by rewrite IH.
Qed.

Lemma dict_get_elem_of {V} (k : string) (v : V) (d : dict V) :
  dict_get k d = Some v -> (k, v) ∈ d.
Proof.
  induction d as [|[k' v'] d IH]; simpl; [done|].
  destruct (decide (k' = k)) as [->|Hne].
  - intros [= ->]. left.
  - intros H. right. by apply IH.
Qed.

Lemma dict_keys_app {V} (d1 d2 : dict V) :
  dict_keys (d1 ++ d2) = dict_keys d1 ++ dict_keys d2.
Proof. apply fmap_app. Qed.

Lemma append_inj_l p a b : p +:+ a = p +:+ b -> a = b.
Proof.
  induction p as [|c p IH]; [done|]. rewrite !append_cons. intros [= H]. by apply IH.
Qed.

Lemma append_assoc a b c : (a +:+ b) +:+ c = a +:+ b +:+ c.
Proof. induction a as [|x a IH]; [done|]. by rewrite !append_cons, IH. Qed.

(** A lookup of a key under the prefix of a module sees the whole state
    dict through [candidate_tensors]. *)
Lemma dict_get_candidate (state_dict : dict Tensor) module_prefix name :
  dict_get ((module_prefix +:+ ".") +:+ name)
    (filter (fun kv => startswith kv.1 (module_prefix +:+ ".")) state_dict)
  = dict_get ((module_prefix +:+ ".") +:+ name) state_dict.
Proof.
  induction state_dict as [|[k v] sd IH]; [done|].
  rewrite filter_cons. simpl. destruct (decide (k = _)) as [->|Hne].
  - rewrite decide_True by (apply Is_true_true, startswith_append).
    simpl. by rewrite decide_True.
  - destruct (decide _); simpl; [by rewrite decide_False|done].
Qed.

Lemma mapM_id_on {A} (f : A -> option A) (l : list A) :
  (forall x, x ∈ l -> f x = Some x) -> mapM f l = Some l.
Proof.
  intros H. apply mapM_Some. induction l as [|x l IH]; constructor.
  - apply H. left.
  - apply IH. intros y Hy. apply H. by right.
Qed.

Lemma dict_get_remove {V} (k key : string) (d : dict V) :
  k <> key -> dict_get k (dict_remove key d) = dict_get k d.
Proof.
  intros Hne. unfold dict_remove. induction d as [|[k' v] d IH]; [done|].
  rewrite filter_cons. cbn [dict_get fst].
  destruct (decide (k' = k)) as [->|Hk].
  - rewrite decide_True by exact Hne. cbn [dict_get]. by rewrite decide_True.
  - destruct (decide _); cbn [dict_get]; rewrite ?decide_False by done; exact IH.
Qed.

Lemma filter_comm {A} (P Q : A -> Prop) `{!forall x, Decision (P x)}
    `{!forall x, Decision (Q x)} (l : list A) :
  filter P (filter Q l) = filter Q (filter P l).
Proof.
  induction l as [|x l IH]; [done|]. rewrite !filter_cons.
  destruct (decide (Q x)), (decide (P x)); rewrite ?filter_cons;
    repeat case_decide; try done; by rewrite IH.
Qed.

Lemma dict_keys_filter {V} (Q : string -> Prop) `{!forall k, Decision (Q k)}
    (d : dict V) :
  dict_keys (filter (fun kv => Q kv.1) d) = filter Q (dict_keys d).
Proof.
  unfold dict_keys. induction d as [|[k v] d IH]; [done|].
  rewrite fmap_cons, !filter_cons. cbn [fst].
  destruct (decide (Q k)); [rewrite fmap_cons|]; by rewrite IH.
Qed.

Lemma dict_from_items_NoDup {V} (items : dict V) :
  NoDup (dict_keys items) -> dict_from_items items = items.
Proof.
  unfold dict_from_items.
  assert (H : forall acc, NoDup (dict_keys (acc ++ items)) ->
                fold_left (fun d kv => dict_set kv.1 kv.2 d) items acc = acc ++ items).
  { induction items as [|[k v] items IH]; intros acc Hnd; simpl.
    - by rewrite app_nil_r.
    - rewrite dict_set_fresh, IH, <- app_assoc; [done| |].
      + by rewrite <- app_assoc.
      + rewrite dict_keys_app in Hnd. apply NoDup_app in Hnd as (_ & Hnd & _).
        intros Hin. apply (Hnd k Hin). left. }
  intros Hnd. by apply (H []).
Qed.

Lemma dict_get_app {V} (key : string) (d1 d2 : dict V) :
  dict_get key (d1 ++ d2) = match dict_get key d1 with
                            | Some v => Some v
                            | None => dict_get key d2
                            end.
Proof.
  induction d1 as [|[k v] d1 IH]; [done|]. simpl. by destruct (decide (k = key)).
Qed.

Lemma dict_get_Some {V} (key : string) (v : V) (d : dict V) :
  NoDup (dict_keys d) -> (dict_get key d = Some v <-> (key, v) ∈ d).
Proof.
  intros Hnd. split; [apply dict_get_elem_of|].
  unfold dict_keys in Hnd. induction d as [|[k' v'] d IH]; [by intros ?%not_elem_of_nil|].
  rewrite fmap_cons in Hnd. apply NoDup_cons in Hnd as [Hk Hnd].
  intros [[= <- <-]|Hin]%elem_of_cons; simpl.
  - by rewrite decide_True.
  - rewrite decide_False; [by apply IH|].
    intros ->. apply Hk, list_elem_of_fmap. by exists (key, v).
Qed.

Lemma dict_get_perm {V} (key : string) (d d' : dict V) :
  NoDup (dict_keys d) -> d ≡ₚ d' -> dict_get key d = dict_get key d'.
Proof.
  intros Hnd Hperm.
  assert (Hnd' : NoDup (dict_keys d')).
  { unfold dict_keys. by rewrite <- Hperm. }
  destruct (dict_get key d) as [v|] eqn:Hget.
  - symmetry. apply dict_get_Some; [done|]. rewrite <- Hperm. by apply dict_get_Some.
  - symmetry. apply dict_get_None. apply dict_get_None in Hget.
    unfold dict_keys in *. by rewrite <- Hperm.
Qed.

Lemma dict_mem_keys {V W} (key : string) (d : dict V) (d' : dict W) :
  dict_keys d = dict_keys d' -> dict_mem key d = dict_mem key d'.
Proof.
  intros Hkeys. apply eq_true_iff_eq. by rewrite !dict_mem_true, Hkeys.
Qed.

(** ** Readiness of a bucket *)

Lemma ready_regex_true key_matcher (expected_keys : gset string)
    (items : dict Tensor) :
  ready (RegExParameterBucket key_matcher expected_keys items) = true <->
  length items = size expected_keys /\
  forall expected, expected ∈ expected_keys ->
    some_key_contains expected (dict_keys items) = true.
Proof.
  unfold ready.
  assert (Hall : (forall expected, expected ∈ expected_keys ->
                    some_key_contains expected (dict_keys items) = true) <->
                 Forall (fun e => some_key_contains e (dict_keys items) = true)
                   (elements expected_keys)).
  { rewrite Forall_forall. by setoid_rewrite elem_of_elements. }
  rewrite Hall, <- (count_seen_full _ _ 0). simpl.
  change (length (elements expected_keys)) with (size expected_keys).
  destruct (size expected_keys =? length items) eqn:Hsz; simpl.
  - apply Nat.eqb_eq in Hsz. rewrite Nat.eqb_eq. split; [auto | tauto].
  - apply Nat.eqb_neq in Hsz. split; [done | lia].
Qed.

(** C3. For a bucket of the class [RegExParameterBucket], [ready()]
    returns [True] if and only if the number of tensors in the bucket equals
    the size of [expected_keys] and every expected fragment is a substring
    of at least one key of the bucket. *)
Theorem regex_bucket_ready_iff key_matcher (expected_keys : gset string)
    (items : dict Tensor) :
  ready (RegExParameterBucket key_matcher expected_keys items) = true <->
  length items = size expected_keys /\
  forall expected, expected ∈ expected_keys ->
    exists key before after,
      key ∈ dict_keys items /\ key = before +:+ expected +:+ after.
Proof.
  rewrite ready_regex_true. apply and_iff_compat_l.
  split; intros H expected He; specialize (H expected He).
  - apply some_key_contains_spec in H as (key & Hk & Hc).
    apply contains_spec in Hc as (before & after & Heq). eauto 6.
  - destruct H as (key & before & after & Hk & Heq).
    apply some_key_contains_spec. exists key. split; [done|].
    apply contains_spec. eauto.
Qed.

(** C6, as the claim states it: no state of a [RegExParameterBucket] has
    [ready()] return [True] while one of the expected fragments occurs in
    none of the keys of the bucket. *)
Lemma ready_with_unmatched_fragment_impossible :
  ~ exists key_matcher (expected_keys : gset string) (items : dict Tensor)
      (fragment1 fragment2 fragment3 key : string),
      length items = size expected_keys /\
      fragment1 ∈ expected_keys /\ fragment2 ∈ expected_keys /\
      fragment1 <> fragment2 /\
      key ∈ dict_keys items /\
      contains key fragment1 = true /\ contains key fragment2 = true /\
      fragment3 ∈ expected_keys /\
      (forall k, k ∈ dict_keys items -> contains k fragment3 = false) /\
      ready (RegExParameterBucket key_matcher expected_keys items) = true.
Proof.
  intros (km & expected_keys & items & f1 & f2 & f3 & key & _ & _ & _ & _ & _ & _ & _
          & H3 & Hnone & Hready).
  apply ready_regex_true in Hready as [_ Hall].
  apply Hall, some_key_contains_spec in H3 as (k & Hk & Hc).
  rewrite (Hnone k Hk) in Hc. discriminate.
Qed.

(** C6, amended. There is a state of a [RegExParameterBucket] in which the
    number of tensors equals the size of [expected_keys], two expected
    fragments are substrings of the same key, another key of the bucket
    contains no expected fragment at all, and [ready()] returns [True]. *)
Theorem ready_with_unrelated_key :
  exists key_matcher (expected_keys : gset string) (items : dict Tensor)
    (fragment1 fragment2 key other : string),
    length items = size expected_keys /\
    fragment1 ∈ expected_keys /\ fragment2 ∈ expected_keys /\
    fragment1 <> fragment2 /\
    key ∈ dict_keys items /\
    contains key fragment1 = true /\ contains key fragment2 = true /\
    other ∈ dict_keys items /\
    (forall expected, expected ∈ expected_keys -> contains other expected = false) /\
    ready (RegExParameterBucket key_matcher expected_keys items) = true.
Proof.
  exists (fun k => contains k "attention"), {["query"; "key"]},
    [("attention.query_key.weight", example_tensor);
     ("attention.dense.weight", example_tensor)],
    "query", "key", "attention.query_key.weight", "attention.dense.weight".
  split_and!; try reflexivity; try discriminate.
  - apply list_elem_of_here.
  - apply list_elem_of_further, list_elem_of_here.
  - intros expected [He|He]%elem_of_union; apply elem_of_singleton in He as ->;
      reflexivity.
Qed.

(** ** The shard loop *)

Lemma bind_ok {A B} (r : result A) (f : A -> result B) b :
  r ≫= f = Ok b <-> exists a, r = Ok a /\ f a = Ok b.
Proof.
  destruct r as [a|e]; simpl.
  - split; [by exists a | by intros (a' & [= ->] & ?)].
  - split; [done | by intros (a' & ? & ?)].
Qed.

Lemma same_match_with_items b items : same_match b (with_items b items).
Proof. by destruct b. Qed.

Lemma same_match_refl bs : Forall2 same_match bs bs.
Proof. induction bs; constructor; [done | done]. Qed.

Lemma same_match_trans bs1 bs2 bs3 :
  Forall2 same_match bs1 bs2 -> Forall2 same_match bs2 bs3 ->
  Forall2 same_match bs1 bs3.
Proof.
  intros H12. revert bs3. induction H12 as [|b1 b2 bs1 bs2 Hb _ IH]; intros bs3 H23.
  - by inversion H23.
  - inversion H23 as [|? b3 ? bs3' Hb' H23']; subst. constructor; [|by apply IH].
    intros key. by rewrite Hb.
Qed.

Lemma num_matching_same bs bs' name :
  Forall2 same_match bs bs' -> num_matching bs name = num_matching bs' name.
Proof.
  unfold num_matching. induction 1 as [|b b' bs bs' Hb _ IH]; [done|].
  rewrite !filter_cons, (Hb name). destruct (decide _); simpl; by rewrite IH.
Qed.

Lemma set_in_first_match_same name param bs :
  Forall2 same_match bs (set_in_first_match name param bs).
Proof.
  induction bs as [|b bs IH]; simpl; [constructor|].
  destruct (bucket_match b name).
  - constructor; [apply same_match_with_items | apply same_match_refl].
  - constructor; [done | apply IH].
Qed.

Lemma sort_into_buckets_same items default bs default' bs' :
  sort_into_buckets items default bs = Ok (default', bs') ->
  Forall2 same_match bs bs'.
Proof.
  revert default bs. induction items as [|[name param] items IH]; intros default bs;
      simpl.
  - intros [= _ <-]. apply same_match_refl.
  - destruct (_ =? 0); [apply IH|].
    destruct (_ =? 1); [|done].
    intros H%IH. eapply same_match_trans; [apply set_in_first_match_same | done].
Qed.

Section LoaderFacts.

Variable torch_to : TorchToT.
Variable state_dict_converter : HFStateDictConverterT.
Variable tensor_to_param_converter : option TensorToParameterConverterT.
Variable dev : option Device.
Variable torch_load : string -> result (dict Tensor).

Local Abbreviation convert_and_load :=
  (convert_and_load_state_dict torch_to state_dict_converter tensor_to_param_converter
      dev).
Local Abbreviation in_order :=
  (convert_and_load_in_order torch_to state_dict_converter tensor_to_param_converter dev).
Local Abbreviation ready_buckets :=
  (load_ready_buckets torch_to state_dict_converter tensor_to_param_converter dev).
Local Abbreviation load_one :=
  (load_state_dict torch_to state_dict_converter tensor_to_param_converter dev).
Local Abbreviation load_all :=
  (load_state_dicts torch_to state_dict_converter tensor_to_param_converter dev
      torch_load).

(** The loop over the full buckets converts the ready buckets in the order
    of the list and clears exactly those. *)
Lemma load_ready_buckets_in_order bs m seen :
  ready_buckets bs m seen =
  '(m', seen') ← in_order (bucket_items <$> filter (fun b => ready b = true) bs) m seen;
  Ok (cleared_if_ready <$> bs, m', seen').
Proof.
  revert m seen. induction bs as [|b bs IH]; intros m seen; [done|].
  rewrite filter_cons. unfold cleared_if_ready at 1. simpl.
  destruct (ready b) eqn:Hb; simpl.
  - destruct (convert_and_load m (bucket_items b) seen) as [[m1 seen1]|e]; [|done].
    simpl. rewrite IH. by destruct (in_order _ m1 seen1) as [[m2 seen2]|e].
  - rewrite IH. by destruct (in_order _ m seen) as [[m2 seen2]|e].
Qed.

Lemma convert_and_load_empty m items seen :
  state_dict_converter items = Ok [] -> convert_and_load m items seen = Ok (m, seen).
Proof. unfold convert_and_load_state_dict. by intros ->. Qed.

Lemma in_order_all_empty state_dicts m seen :
  Forall (fun sd => state_dict_converter sd = Ok []) state_dicts ->
  in_order state_dicts m seen = Ok (m, seen).
Proof.
  induction 1 as [|sd sds Hsd _ IH]; [done|].
  simpl. by rewrite convert_and_load_empty.
Qed.

Lemma load_state_dict_same st state_dict st' :
  load_one st state_dict = Ok st' ->
  Forall2 same_match (deserialization_buckets st) (deserialization_buckets st').
Proof.
  unfold load_state_dict. intros H.
  apply bind_ok in H as ([default bs] & Hsort & H).
  apply bind_ok in H as ([m seen] & _ & H).
  rewrite load_ready_buckets_in_order in H.
  apply bind_ok in H as ([[bs' m'] seen'] & H & [= <-]).
  apply bind_ok in H as ([m2 seen2] & _ & [= <- _ _]). simpl.
  eapply same_match_trans; [by eapply sort_into_buckets_same|].
  clear. induction bs; constructor; [|done].
  unfold cleared_if_ready, bucket_clear. destruct (ready a); [|done].
  apply same_match_with_items.
Qed.

Lemma load_state_dicts_same filepaths st st' :
  load_all filepaths st = Ok st' ->
  Forall2 same_match (deserialization_buckets st) (deserialization_buckets st').
Proof.
  revert st. induction filepaths as [|path rest IH]; intros st; simpl.
  - intros [= <-]. apply same_match_refl.
  - intros H. apply bind_ok in H as (sd & _ & H).
    apply bind_ok in H as (st1 & H1 & H).
    eapply same_match_trans; [by eapply load_state_dict_same | by apply IH].
Qed.

(** An exception in the iteration of one checkpoint ends the loop. *)
Lemma load_state_dicts_app before after st :
  load_all (before ++ after) st = load_all before st ≫= load_all after.
Proof.
  revert st. induction before as [|path rest IH]; intros st; simpl; [done|].
  destruct (torch_load path) as [sd|e]; [simpl|done].
  destruct (load_one st sd) as [st1|e]; [simpl|done]. apply IH.
Qed.

Lemma sort_into_buckets_app before after default bs :
  sort_into_buckets (before ++ after) default bs =
  '(default', bs') ← sort_into_buckets before default bs;
  sort_into_buckets after default' bs'.
Proof.
  revert default bs. induction before as [|[name param] rest IH]; intros default bs;
    simpl; [done|].
  destruct (_ =? 0); [apply IH|]. destruct (_ =? 1); [apply IH | done].
Qed.

Lemma sort_into_buckets_no_conflict items default bs :
  (forall key, key ∈ dict_keys items -> num_matching bs key <= 1) ->
  exists default' bs', sort_into_buckets items default bs = Ok (default', bs').
Proof.
  revert default bs. induction items as [|[name param] items IH]; intros default bs Hle;
    simpl; [eauto|].
  assert (Hrest : forall bs', Forall2 same_match bs bs' ->
            forall key, key ∈ dict_keys items -> num_matching bs' key <= 1).
  { intros bs' Hs key Hk. rewrite <- (num_matching_same bs bs') by done.
    apply Hle. by right. }
  fold (num_matching bs name).
  destruct (num_matching bs name =? 0) eqn:H0.
  { apply IH, Hrest, same_match_refl. }
  destruct (num_matching bs name =? 1) eqn:H1.
  { apply IH, Hrest, set_in_first_match_same. }
  apply Nat.eqb_neq in H0, H1.
  specialize (Hle name (list_elem_of_here _ _)). lia.
Qed.

End LoaderFacts.

Section LoaderProperties.

Variable torch_to : TorchToT.
Variable state_dict_converter : HFStateDictConverterT.
Variable tensor_to_param_converter : option TensorToParameterConverterT.
Variable dev : option Device.
Variable torch_load : string -> result (dict Tensor).

Local Abbreviation convert_and_load :=
  (convert_and_load_state_dict torch_to state_dict_converter tensor_to_param_converter
      dev).
Local Abbreviation in_order :=
  (convert_and_load_in_order torch_to state_dict_converter tensor_to_param_converter dev).
Local Abbreviation load_one :=
  (load_state_dict torch_to state_dict_converter tensor_to_param_converter dev).
Local Abbreviation load_all :=
  (load_state_dicts torch_to state_dict_converter tensor_to_param_converter dev
      torch_load).
Local Abbreviation load :=
  (load_model_from_checkpoints torch_to state_dict_converter tensor_to_param_converter dev
     torch_load).

(** C2. Once the loop over the checkpoints has ended in the state [st]:
    if a key of the snapshot [module_keys] is not in [seen_keys], the call
    raises the error that lists exactly the missing keys; if no key is
    missing and a configured bucket still holds tensors, it raises the
    error of the buckets that are not empty; and it returns if and only if
    no key is missing and every configured bucket is empty. *)
Theorem checks_after_the_loop m filepaths buckets st :
  load_all filepaths (initial_state m buckets) = Ok st ->
  let missing_keys : gset string := list_to_set (state_dict_keys m) ∖ seen_keys st in
  (forall key, key ∈ missing_keys <-> key ∈ state_dict_keys m /\ key ∉ seen_keys st) /\
  ((exists key, key ∈ state_dict_keys m /\ key ∉ seen_keys st) ->
     load m filepaths buckets = Err (ValueError_not_updated missing_keys)) /\
  ((forall key, key ∈ state_dict_keys m -> key ∈ seen_keys st) ->
   (exists bucket, bucket ∈ deserialization_buckets st /\ bucket_items bucket <> []) ->
     load m filepaths buckets = Err ValueError_buckets_not_empty) /\
  (forall st', load m filepaths buckets = Ok st' <->
     st' = st /\
     (forall key, key ∈ state_dict_keys m -> key ∈ seen_keys st) /\
     (forall bucket, bucket ∈ deserialization_buckets st -> bucket_items bucket = [])).
Proof.
  intros Hloop missing_keys.
  assert (Hmem : forall key, key ∈ missing_keys <->
                   key ∈ state_dict_keys m /\ key ∉ seen_keys st).
  { intros key. unfold missing_keys. by rewrite elem_of_difference, elem_of_list_to_set. }
  assert (Hsize : (size missing_keys =? 0) = true <->
                  forall key, key ∈ state_dict_keys m -> key ∈ seen_keys st).
  { rewrite Nat.eqb_eq, size_empty_iff. split.
    - intros Hempty key Hk. destruct (decide (key ∈ seen_keys st)) as [|Hn]; [done|].
      exfalso. apply (not_elem_of_empty (C:=gset string) key).
      rewrite <- Hempty. by apply Hmem.
    - intros Hall key. split; [|by intros ?%not_elem_of_empty].
      intros [Hk Hn]%Hmem. destruct Hn. by apply Hall. }
  assert (Hbuckets : existsb (fun bucket => negb (length (bucket_items bucket) =? 0))
                       (deserialization_buckets st) = false <->
                     forall bucket, bucket ∈ deserialization_buckets st ->
                                    bucket_items bucket = []).
  { rewrite <- not_true_iff_false, existsb_exists. split.
    - intros Hnone bucket Hb. destruct (bucket_items bucket) eqn:Hitems; [done|].
      destruct Hnone. exists bucket. rewrite Hitems. by rewrite <- list_elem_of_In.
    - intros Hall (bucket & Hb & Hlen). rewrite <- list_elem_of_In in Hb.
      by rewrite (Hall bucket Hb) in Hlen. }
  assert (Hrun : load m filepaths buckets = check_loaded (list_to_set (state_dict_keys
      m)) st).
  { unfold load_model_from_checkpoints. fold (initial_state m buckets).
    by rewrite Hloop. }
  rewrite Hrun. unfold check_loaded. fold missing_keys.
  split_and!; [done| | |].
  - intros (key & Hk & Hn).
    destruct (size missing_keys =? 0) eqn:Hs; [|done].
    destruct Hn. by apply Hsize.
  - intros Hall (bucket & Hb & Hne).
    apply Hsize in Hall as ->. simpl.
    destruct (existsb _ _) eqn:He; [done|].
    destruct Hne. eapply Hbuckets; done.
  - intros st'. destruct (size missing_keys =? 0) eqn:Hs; simpl.
    + destruct (existsb _ _) eqn:He.
      * split; [done|]. intros (_ & _ & Hall). apply Hbuckets in Hall. congruence.
      * split; [intros [= <-]|by intros [-> _]].
        split_and!; [done | by apply Hsize | by apply Hbuckets].
    + split; [done|]. intros (_ & Hall & _). apply Hsize in Hall. congruence.
Qed.

(** C4. When the loop reaches a pair whose key is matched by more than
    one configured bucket (the checkpoints before it were loaded, the pairs
    before it in its checkpoint were sorted), sorting raises the error
    that carries the key and the number of matching buckets, whatever
    pairs and checkpoints follow, and the load ends with that error. *)
Theorem key_matching_several_buckets_raises m buckets paths_before path paths_after
    st pairs_before name param pairs_after :
  load_all paths_before (initial_state m buckets) = Ok st ->
  torch_load path = Ok (pairs_before ++ (name, param) :: pairs_after) ->
  (forall key, key ∈ dict_keys pairs_before -> num_matching buckets key <= 1) ->
  1 < num_matching buckets name ->
  sort_into_buckets (pairs_before ++ (name, param) :: pairs_after)
    (default_bucket st) (deserialization_buckets st)
    = Err (ValueError_multiple_buckets name (num_matching buckets name)) /\
  load m (paths_before ++ path :: paths_after) buckets
    = Err (ValueError_multiple_buckets name (num_matching buckets name)).
Proof.
  intros Hbefore Hpath Hle Hmany.
  pose proof (load_state_dicts_same _ _ _ _ _ _ _ _ Hbefore) as Hsame. simpl in Hsame.
  assert (Hsort : sort_into_buckets (pairs_before ++ (name, param) :: pairs_after)
                    (default_bucket st) (deserialization_buckets st)
                  = Err (ValueError_multiple_buckets name (num_matching buckets name))).
  { rewrite sort_into_buckets_app.
    destruct (sort_into_buckets_no_conflict pairs_before (default_bucket st)
                (deserialization_buckets st)) as (default' & bs' & Hs).
    { intros key Hk. rewrite <- (num_matching_same _ _ key Hsame). by apply Hle. }
    rewrite Hs. simpl. fold (num_matching bs' name).
    apply sort_into_buckets_same in Hs.
    rewrite <- (num_matching_same _ _ name Hs), <- (num_matching_same _ _ name Hsame).
    destruct (num_matching buckets name =? 0) eqn:H0; [apply Nat.eqb_eq in H0; lia|].
    destruct (num_matching buckets name =? 1) eqn:H1; [apply Nat.eqb_eq in H1; lia|].
    done. }
  split; [done|].
  unfold load_model_from_checkpoints. fold (initial_state m buckets).
  rewrite load_state_dicts_app, Hbefore. simpl. rewrite Hpath. simpl.
  unfold load_state_dict. by rewrite Hsort.
Qed.

Lemma in_order_convert_then_install state_dicts :
  forall m seen,
    in_order state_dicts m seen
    = convert_then_install torch_to state_dict_converter tensor_to_param_converter dev
        state_dicts m seen.
Proof.
  induction state_dicts as [|sd sds IH]; intros m seen; [done|].
  cbn [convert_and_load_in_order convert_then_install].
  unfold convert_and_load_state_dict.
  destruct (state_dict_converter sd) as [[|kv converted]|e]; cbn [mbind result_bind].
  - cbn. apply IH.
  - cbn [length Nat.eqb].
    destruct (_emplace_module_state_dict _ _ _ _ _) as [m'|e]; [|done].
    cbn [mbind result_bind]. apply IH.
  - done.
Qed.

(** C5. In the iteration of one checkpoint, once its pairs are sorted into
    [default] and [buckets]: the state dict of the default bucket is
    converted and installed first, then the state dicts of the ready
    buckets in the order of the list, each in the model as the one before
    left it; the default bucket and the ready buckets are cleared; a bucket
    that is not ready keeps its tensors for the next iteration. *)
Theorem order_of_conversion_in_one_iteration st state_dict default buckets :
  sort_into_buckets state_dict (default_bucket st) (deserialization_buckets st)
    = Ok (default, buckets) ->
  load_one st state_dict =
    ('(m, seen) ← convert_then_install torch_to state_dict_converter
         tensor_to_param_converter dev
         (bucket_items default ::
            (bucket_items <$> filter (fun b => ready b = true) buckets))
         (model st) (seen_keys st);
     Ok (mkLoadState m seen (bucket_clear default) (cleared_if_ready <$> buckets))) /\
  bucket_items (bucket_clear default) = [] /\
  (forall i bucket, buckets !! i = Some bucket -> ready bucket = true ->
     (cleared_if_ready <$> buckets) !! i = Some (bucket_clear bucket) /\
     bucket_items (bucket_clear bucket) = []) /\
  (forall i bucket, buckets !! i = Some bucket -> ready bucket = false ->
     (cleared_if_ready <$> buckets) !! i = Some bucket).
Proof.
  intros Hsort. split_and!.
  - rewrite <- in_order_convert_then_install.
    unfold load_state_dict. rewrite Hsort. simpl.
    destruct (convert_and_load _ _ _) as [[m seen]|e]; [simpl|done].
    rewrite load_ready_buckets_in_order.
    by destruct (in_order _ m seen) as [[m' seen']|e].
  - by destruct default.
  - intros i bucket Hi Hr. rewrite list_lookup_fmap, Hi. simpl.
    unfold cleared_if_ready. rewrite Hr. split; [done | by destruct bucket].
  - intros i bucket Hi Hr. rewrite list_lookup_fmap, Hi. simpl.
    unfold cleared_if_ready. by rewrite Hr.
Qed.

(** C10. At the end of an iteration of the loop over the checkpoints the
    default bucket is empty and so is every bucket that was ready when the
    loop over the buckets came to it; a state dict that the converter maps
    to the empty mapping is neither recorded in [seen_keys] nor installed,
    and the bucket that held it is cleared all the same. *)
Theorem buckets_empty_after_iteration st state_dict default buckets st' :
  sort_into_buckets state_dict (default_bucket st) (deserialization_buckets st)
    = Ok (default, buckets) ->
  load_one st state_dict = Ok st' ->
  bucket_items (default_bucket st') = [] /\
  (forall i bucket, buckets !! i = Some bucket -> ready bucket = true ->
     exists bucket', deserialization_buckets st' !! i = Some bucket' /\
                     bucket_items bucket' = []) /\
  (forall m items seen, state_dict_converter items = Ok [] ->
     convert_and_load m items seen = Ok (m, seen)) /\
  (state_dict_converter (bucket_items default) = Ok [] ->
   (forall bucket, bucket ∈ buckets -> ready bucket = true ->
      state_dict_converter (bucket_items bucket) = Ok []) ->
   model st' = model st /\ seen_keys st' = seen_keys st).
Proof.
  intros Hsort Hload.
  assert (Heq : ('(m, seen) ← in_order
                   (bucket_items default ::
                      (bucket_items <$> filter (fun b => ready b = true) buckets))
                   (model st) (seen_keys st);
                 Ok (mkLoadState m seen (bucket_clear default)
                       (cleared_if_ready <$> buckets))) = Ok st').
  { rewrite <- Hload. unfold load_state_dict. rewrite Hsort. simpl.
    destruct (convert_and_load _ _ _) as [[m seen]|e]; [simpl|done].
    rewrite load_ready_buckets_in_order.
    by destruct (in_order _ m seen) as [[m' seen']|e]. }
  apply bind_ok in Heq as ([m seen] & Hin & [= <-]). simpl.
  split_and!.
  - by destruct default.
  - intros i bucket Hi Hr. exists (bucket_clear bucket).
    rewrite list_lookup_fmap, Hi. simpl. unfold cleared_if_ready. rewrite Hr.
    split; [done | by destruct bucket].
  - apply convert_and_load_empty.
  - intros Hdefault Hready.
    rewrite in_order_all_empty in Hin; [by injection Hin as <- <-|].
    constructor; [done|]. apply Forall_fmap, Forall_forall.
    intros bucket [Hr Hb]%list_elem_of_filter. simpl. by apply Hready.
Qed.

End LoaderProperties.

(** ** The walk without exceptions *)

Lemma wf_module_spec m :
  wf_module m = true ->
  NoDup (dict_keys (_parameters m)) /\ NoDup (dict_keys (_buffers m)) /\
  (forall name, name ∈ dict_keys (_parameters m) -> name ∉ dict_keys (_buffers m)).
Proof.
  unfold wf_module. rewrite !andb_true_iff, forallb_forall.
  intros [[Hp%bool_decide_eq_true Hb%bool_decide_eq_true] Hd]. split_and!; [done..|].
  intros name Hn%list_elem_of_In%Hd%negb_true_iff. by apply dict_mem_false.
Qed.

Lemma install_parameter_key state_dict converter dev module_prefix kv kv' :
  install_parameter state_dict converter dev module_prefix kv = Some kv' ->
  kv'.1 = kv.1.
Proof.
  unfold install_parameter. destruct (dict_get _ _); [|by intros [= <-]].
  destruct kv.2; [|done]. destruct (returned _); [|done]. by intros [= <-].
Qed.

Lemma install_buffer_key state_dict module_prefix non_persistent kv kv' :
  install_buffer state_dict module_prefix non_persistent kv = Some kv' ->
  kv'.1 = kv.1.
Proof.
  unfold install_buffer. destruct (decide _); [by intros [= <-]|].
  destruct (dict_get _ _); [|by intros [= <-]].
  destruct kv.2; [|done]. destruct (returned _); [|done]. by intros [= <-].
Qed.

Lemma mapM_keys {V} (f : string * V -> option (string * V)) (l l' : dict V) :
  (forall kv kv', f kv = Some kv' -> kv'.1 = kv.1) ->
  mapM f l = Some l' -> dict_keys l' = dict_keys l.
Proof.
  intros Hf H%mapM_Some. unfold dict_keys.
  induction H as [|x y l l' Hxy _ IH]; [done|].
  rewrite !fmap_cons. f_equal; [by apply Hf | done].
Qed.

Section Walk.

Variable state_dict : dict Tensor.
Variable converter : TensorToParameterConverterT.
Variable dev : option Device.
Variable module_prefix : string.
Hypothesis converter_local : slot_local converter.

Local Abbreviation candidates :=
  (filter (fun kv : string * Tensor => startswith kv.1 (module_prefix +:+ "."))
     state_dict).
Local Abbreviation loop := (emplace_local module_prefix candidates converter dev).
Local Abbreviation of_parameter :=
  (fun kv : string * option Param => (kv.1, a_parameter <$> kv.2)).
Local Abbreviation of_buffer :=
  (fun kv : string * option Tensor => (kv.1, a_tensor <$> kv.2)).

(** The iterations of the loop over the parameters. *)
Lemma emplace_local_parameters buffers non_persistent children tail rest :
  forall front,
    NoDup (dict_keys (front ++ rest)) ->
    (forall name, name ∈ dict_keys rest -> name ∉ dict_keys buffers) ->
    returned (loop ((of_parameter <$> rest) ++ tail)
                (mkModule (front ++ rest) buffers non_persistent children))
    = rest' ← mapM (install_parameter state_dict converter dev module_prefix) rest;
      returned (loop tail (mkModule (front ++ rest') buffers non_persistent children)).
Proof.
  induction rest as [|[name v] rest IH]; intros front Hnd Hdis; [done|].
  assert (Hfresh : name ∉ dict_keys front).
  { rewrite dict_keys_app in Hnd. apply NoDup_app in Hnd as (_ & Hnd & _).
    intros Hin. apply (Hnd name Hin). left. }
  assert (Hnext : forall v', NoDup (dict_keys ((front ++ [(name, v')]) ++ rest))).
  { intros v'. rewrite <- app_assoc. simpl. revert Hnd.
    unfold dict_keys. by rewrite !fmap_app, !fmap_cons. }
  assert (Hrest : forall n, n ∈ dict_keys rest -> n ∉ dict_keys buffers).
  { intros n Hn. apply Hdis. by right. }
  rewrite fmap_cons. cbn [app emplace_local fst snd].
  rewrite dict_get_candidate.
  change (mapM ?f ((name, v) :: rest))
    with (y ← f (name, v); k ← mapM f rest; Some (y :: k)).
  assert (Hhead : install_parameter state_dict converter dev module_prefix (name, v)
            = match dict_get ((module_prefix +:+ ".") +:+ name) state_dict with
              | None => Some (name, v)
              | Some replacement =>
                  match v with
                  | None => None
                  | Some _ =>
                      new_param ← returned (converter (mkModule [(name, v)] [] ∅ [])
                                              module_prefix name replacement dev);
                      Some (name, Some new_param)
                  end
              end) by reflexivity.
  rewrite Hhead. clear Hhead.
  destruct (dict_get _ state_dict) as [replacement|].
  - destruct v as [old|]; [|reflexivity]. cbn [fmap option_fmap option_map].
    unfold _emplace_module_tensor. cbn [_parameters _buffers].
    replace (dict_mem name (front ++ (name, Some old) :: rest)) with true
      by (symmetry; apply dict_mem_true; rewrite dict_keys_app;
          apply elem_of_app; right; left).
    replace (dict_mem name buffers) with false
      by (symmetry; apply dict_mem_false, Hdis; left).
    cbn [xorb negb].
    rewrite (converter_local _ (mkModule [(name, Some old)] [] ∅ []))
      by (cbn [_parameters]; rewrite dict_get_app_middle by done;
          simpl; by rewrite decide_True).
    destruct (converter _ _ _ _ _) as [new_param|e]; [|done].
    unfold set_parameters.
    cbn [mbind result_bind returned option_bind _parameters _buffers
           _non_persistent_buffers_set _modules].
    rewrite dict_set_app_middle by done.
    rewrite (cons_middle _ front rest), app_assoc, IH by (apply Hnext || done).
    destruct (mapM _ rest) as [rest'|]; [|done]. simpl.
    by rewrite <- app_assoc.
  - simpl. rewrite (cons_middle _ front rest), app_assoc, IH by (apply Hnext || done).
    destruct (mapM _ rest) as [rest'|]; [|done]. simpl.
    by rewrite <- app_assoc.
Qed.

(** The iterations of the loop over the persistent buffers. *)
Lemma emplace_local_buffers parameters non_persistent children rest :
  forall front,
    NoDup (dict_keys (front ++ rest)) ->
    (forall name, name ∈ dict_keys rest -> name ∉ dict_keys parameters) ->
    returned (loop (of_buffer <$> filter (fun kv => kv.1 ∉ non_persistent) rest)
                (mkModule parameters (front ++ rest) non_persistent children))
    = rest' ← mapM (install_buffer state_dict module_prefix non_persistent) rest;
      Some (mkModule parameters (front ++ rest') non_persistent children).
Proof.
  induction rest as [|[name v] rest IH]; intros front Hnd Hdis.
  { simpl. by rewrite !app_nil_r. }
  assert (Hfresh : name ∉ dict_keys front).
  { rewrite dict_keys_app in Hnd. apply NoDup_app in Hnd as (_ & Hnd & _).
    intros Hin. apply (Hnd name Hin). left. }
  assert (Hnext : forall v', NoDup (dict_keys ((front ++ [(name, v')]) ++ rest))).
  { intros v'. rewrite <- app_assoc. simpl. revert Hnd.
    unfold dict_keys. by rewrite !fmap_app, !fmap_cons. }
  assert (Hrest : forall n, n ∈ dict_keys rest -> n ∉ dict_keys parameters).
  { intros n Hn. apply Hdis. by right. }
  change (mapM ?f ((name, v) :: rest))
    with (y ← f (name, v); k ← mapM f rest; Some (y :: k)).
  assert (Hhead : install_buffer state_dict module_prefix non_persistent (name, v)
            = if decide (name ∈ non_persistent) then Some (name, v)
              else
                match dict_get ((module_prefix +:+ ".") +:+ name) state_dict with
                | None => Some (name, v)
                | Some replacement =>
                    match v with
                    | None => None
                    | Some old_buffer =>
                        _ ← returned (_validate_replacement old_buffer replacement
                                        (module_prefix +:+ "." +:+ name));
                        Some (name, Some replacement)
                    end
                end) by reflexivity.
  rewrite Hhead. clear Hhead.
  rewrite filter_cons. cbn [fst snd].
  destruct (decide (name ∉ non_persistent)) as [Hp|Hnp].
  - rewrite decide_False by done.
    rewrite fmap_cons. cbn [emplace_local fst snd].
    rewrite dict_get_candidate.
    destruct (dict_get _ state_dict) as [replacement|].
    + destruct v as [old|]; [|reflexivity]. cbn [fmap option_fmap option_map].
      unfold _emplace_module_tensor. cbn [_parameters _buffers].
      replace (dict_mem name (front ++ (name, Some old) :: rest)) with true
        by (symmetry; apply dict_mem_true; rewrite dict_keys_app;
            apply elem_of_app; right; left).
      replace (dict_mem name parameters) with false
        by (symmetry; apply dict_mem_false, Hdis; left).
      cbn [xorb negb]. rewrite dict_get_app_middle by done.
      destruct (_validate_replacement _ _ _) as [[]|e]; [|done].
      unfold set_buffers.
      cbn [mbind result_bind returned option_bind _parameters _buffers
             _non_persistent_buffers_set _modules].
      rewrite dict_set_app_middle by done.
      rewrite (cons_middle _ front rest), app_assoc, IH by (apply Hnext || done).
      destruct (mapM _ rest) as [rest'|]; [|done]. simpl.
      by rewrite <- app_assoc.
    + simpl. rewrite (cons_middle _ front rest), app_assoc, IH by (apply Hnext || done).
      destruct (mapM _ rest) as [rest'|]; [|done]. simpl.
      by rewrite <- app_assoc.
  - rewrite decide_True by (by apply dec_stable).
    simpl. rewrite (cons_middle _ front rest), app_assoc, IH by (apply Hnext || done).
    destruct (mapM _ rest) as [rest'|]; [|done]. simpl.
    by rewrite <- app_assoc.
Qed.

Lemma add_buffers_ok non_persistent buffers :
  forall local,
    NoDup (dict_keys buffers) ->
    (forall name, name ∈ dict_keys buffers -> name ∉ dict_keys local) ->
    add_buffers non_persistent module_prefix buffers local
    = Ok (local ++
            (of_buffer <$> filter (fun kv => kv.1 ∉ non_persistent) buffers)).
Proof.
  induction buffers as [|[name buf] buffers IH]; intros local Hnd Hfresh.
  { simpl. by rewrite app_nil_r. }
  unfold dict_keys in Hnd. rewrite fmap_cons in Hnd.
  apply NoDup_cons in Hnd as [Hname Hnd].
  cbn [add_buffers].
  replace (dict_mem name local) with false
    by (symmetry; apply dict_mem_false, Hfresh; left).
  rewrite filter_cons. cbn [fst].
  destruct (decide (name ∉ non_persistent)) as [Hp|Hnp].
  - rewrite dict_set_fresh by (apply Hfresh; left).
    rewrite IH; [by rewrite <- app_assoc | done |].
    intros n Hn. rewrite dict_keys_app, not_elem_of_app. split.
    + apply Hfresh. by right.
    + simpl. rewrite list_elem_of_singleton. by intros ->.
  - apply IH; [done|]. intros n Hn. apply Hfresh. by right.
Qed.

Lemma local_params_and_buffers_ok m :
  wf_module m = true ->
  local_params_and_buffers (mkModuleIterator m module_prefix)
  = Ok ((of_parameter <$> _parameters m) ++
        (of_buffer <$> filter (fun kv => kv.1 ∉ _non_persistent_buffers_set m)
                         (_buffers m))).
Proof.
  intros (Hps & Hbs & Hdis)%wf_module_spec.
  unfold local_params_and_buffers. cbn [module prefix].
  apply add_buffers_ok; [done|].
  intros name Hb Hp. apply (Hdis name); [|done].
  unfold dict_keys in Hp. by rewrite <- list_fmap_compose in Hp.
Qed.

Lemma emplace_local_no_candidates local m :
  emplace_local module_prefix [] converter dev local m = Ok m.
Proof. induction local as [|[name param] local IH]; [done | apply IH]. Qed.

(** What [apply] returns for a module, when it raises nothing. *)
Lemma apply_returned m :
  wf_module m = true ->
  returned (apply state_dict converter dev (mkModuleIterator m module_prefix))
  = install_module state_dict converter dev module_prefix m.
Proof.
  intros Hwf. pose proof (wf_module_spec m Hwf) as (Hps & Hbs & Hdis).
  unfold apply, install_module. cbn [module prefix].
  destruct (length candidates =? 0) eqn:Hlen.
  - apply Nat.eqb_eq, nil_length_inv in Hlen.
    assert (Hnone : forall name,
              dict_get ((module_prefix +:+ ".") +:+ name) state_dict = None).
    { intros name. by rewrite <- dict_get_candidate, Hlen. }
    rewrite (mapM_id_on (install_parameter _ _ _ _))
      by (intros kv _; unfold install_parameter; by rewrite Hnone).
    rewrite (mapM_id_on (install_buffer _ _ _))
      by (intros kv _; unfold install_buffer; rewrite Hnone; by destruct (decide _)).
    by destruct m.
  - rewrite local_params_and_buffers_ok by done. cbn [mbind result_bind].
    destruct m as [ps bs np ch]. cbn [_parameters _buffers _non_persistent_buffers_set
                                       _modules] in *.
    rewrite (emplace_local_parameters bs np ch _ ps []) by done.
    destruct (mapM _ ps) as [ps'|] eqn:Hmap; [|done]. cbn [mbind option_bind app].
    apply (emplace_local_buffers ps' np ch bs []); [done|].
    intros name Hb Hp. apply (Hdis name); [|done].
    by rewrite <- (mapM_keys _ _ _ (install_parameter_key _ _ _ _) Hmap).
Qed.

(** A key that is no slot of the module changes nothing in [apply]. *)
Lemma emplace_local_remove key local m :
  (forall name, name ∈ dict_keys local -> (module_prefix +:+ ".") +:+ name <> key) ->
  emplace_local module_prefix (dict_remove key candidates) converter dev local m
  = loop local m.
Proof.
  revert m. induction local as [|[name param] local IH]; intros m Hne; [done|].
  cbn [emplace_local].
  assert (Hget : dict_get ((module_prefix +:+ ".") +:+ name) (dict_remove key candidates)
                 = dict_get ((module_prefix +:+ ".") +:+ name) candidates).
  { apply dict_get_remove, Hne. left. }
  rewrite Hget.
  assert (Hrest : forall n, n ∈ dict_keys local -> (module_prefix +:+ ".") +:+ n <> key).
  { intros n Hn. apply Hne. by right. }
  destruct (dict_get _ candidates); [|by apply IH].
  destruct param; [|done].
  destruct (_emplace_module_tensor _ _ _ _ _ _); [simpl; by apply IH|done].
Qed.

Lemma apply_remove key m :
  wf_module m = true ->
  (forall name, name ∈ considered_names m -> (module_prefix +:+ ".") +:+ name <> key) ->
  apply (dict_remove key state_dict) converter dev (mkModuleIterator m module_prefix)
  = apply state_dict converter dev (mkModuleIterator m module_prefix).
Proof.
  intros Hwf Hne. unfold apply. cbn [module prefix].
  assert (Hcomm : filter (fun kv : string * Tensor =>
                            startswith kv.1 (module_prefix +:+ "."))
                    (dict_remove key state_dict)
                  = dict_remove key candidates).
  { unfold dict_remove. apply filter_comm. }
  rewrite Hcomm, local_params_and_buffers_ok by done. cbn [mbind result_bind].
  assert (Hlocal : forall name,
            name ∈ dict_keys ((of_parameter <$> _parameters m) ++
                              (of_buffer <$> filter
                                 (fun kv => kv.1 ∉ _non_persistent_buffers_set m)
                                 (_buffers m))) ->
            (module_prefix +:+ ".") +:+ name <> key).
  { intros name Hn. apply Hne. revert Hn. unfold considered_names.
    rewrite <- dict_keys_filter. unfold dict_keys.
    by rewrite !fmap_app, <- !list_fmap_compose. }
  rewrite emplace_local_remove.
  - destruct (length (dict_remove key candidates) =? 0) eqn:Hlen'.
    + apply Nat.eqb_eq, nil_length_inv in Hlen'.
      destruct (length candidates =? 0); [done|].
      rewrite <- emplace_local_remove with (key := key), Hlen'.
      * symmetry. apply emplace_local_no_candidates.
      * apply Hlocal.
    + destruct (length candidates =? 0) eqn:Hlen; [|done].
      apply Nat.eqb_eq, nil_length_inv in Hlen. by rewrite Hlen in Hlen'.
  - apply Hlocal.
Qed.

End Walk.

(** ** The module tree *)

(** Induction on a module tree: the property holds of a module when it
    holds of its submodules. *)
Lemma Module_tree_ind (P : Module -> Prop) :
  (forall parameters buffers non_persistent children,
     Forall (fun nc => P nc.2) children ->
     P (mkModule parameters buffers non_persistent children)) ->
  forall m, P m.
Proof.
  intros step. fix IH 1. intros [ps bs np ch]. apply step.
  induction ch as [|[name child] ch IHch]; constructor; [apply IH | exact IHch].
Qed.

Lemma returned_bind {A B} (r : result A) (f : A -> result B) :
  returned (r ≫= f) = returned r ≫= fun a => returned (f a).
Proof. by destruct r. Qed.

Lemma wf_tree_unfold parameters buffers non_persistent children :
  wf_tree (mkModule parameters buffers non_persistent children) = true ->
  wf_module (mkModule parameters buffers non_persistent children) = true /\
  Forall (fun nc => wf_tree nc.2 = true) children.
Proof.
  cbn [wf_tree]. intros [Hm Hch]%andb_true_iff. split; [done|].
  clear Hm. induction children as [|[name child] ch IH]; [constructor|].
  apply andb_true_iff in Hch as [Hc Hch]. constructor; [exact Hc | by apply IH].
Qed.

Section Tree.

Variable state_dict : dict Tensor.
Variable converter : TensorToParameterConverterT.
Variable dev : option Device.

(** What the walk returns for a module tree, when it raises nothing. *)
Lemma apply_to_module_at_returned :
  slot_local converter ->
  forall m module_prefix,
    wf_tree m = true ->
    returned (apply_to_module_at (apply state_dict converter dev) module_prefix m)
    = install_tree state_dict converter dev module_prefix m.
Proof.
  intros Hlocal. induction m as [ps bs np ch IH] using Module_tree_ind.
  intros module_prefix [Hm Hch]%wf_tree_unfold.
  cbn [apply_to_module_at install_tree].
  rewrite returned_bind, apply_returned by done.
  destruct (install_module _ _ _ _ _) as [m'|]; [|done]. cbn [mbind option_bind].
  assert (Hwalk : forall cs,
            Forall (fun nc => forall p, wf_tree nc.2 = true ->
                      returned (apply_to_module_at (apply state_dict converter dev) p
                          nc.2)
                      = install_tree state_dict converter dev p nc.2) cs ->
            Forall (fun nc => wf_tree nc.2 = true) cs ->
            returned
              ((fix walk (cs : list (string * Module)) :=
                  match cs with
                  | [] => Ok []
                  | (name, child) :: cs' =>
                      child' ← apply_to_module_at (apply state_dict converter dev)
                                 (child_prefix module_prefix name) child;
                      cs'' ← walk cs';
                      Ok ((name, child') :: cs'')
                  end) cs)
            = mapM (fun nc : string * Module =>
                      child' ← install_tree state_dict converter dev
                                 (child_prefix module_prefix nc.1) nc.2;
                      Some (nc.1, child')) cs).
  { induction cs as [|[name child] cs IHcs]; [done|].
    intros [Hc Hcs]%Forall_cons [Hwc Hwcs]%Forall_cons. cbn [snd] in Hc, Hwc.
    rewrite returned_bind, Hc by done.
    change (mapM ?f ((name, child) :: cs))
      with (y ← f (name, child); k ← mapM f cs; Some (y :: k)).
    cbn [fst snd].
    destruct (install_tree _ _ _ _ child) as [child'|]; [|done].
    cbn [mbind option_bind]. rewrite returned_bind, IHcs by done.
    by destruct (mapM _ cs). }
  rewrite returned_bind, Hwalk by done.
  by destruct (mapM _ ch).
Qed.

(** A key that is no slot key of the tree changes nothing in the walk. *)
Lemma apply_to_module_at_remove key :
  forall m module_prefix,
    wf_tree m = true ->
    key ∉ slot_keys_at module_prefix m ->
    apply_to_module_at (apply (dict_remove key state_dict) converter dev) module_prefix m
    = apply_to_module_at (apply state_dict converter dev) module_prefix m.
Proof.
  induction m as [ps bs np ch IH] using Module_tree_ind.
  intros module_prefix [Hm Hch]%wf_tree_unfold Hkey.
  cbn [slot_keys_at] in Hkey. apply not_elem_of_app in Hkey as [Hhere Hbelow].
  cbn [apply_to_module_at].
  rewrite apply_remove; [|done|].
  2:{ intros name Hn Heq. apply Hhere, list_elem_of_fmap. by exists name. }
  destruct (apply state_dict converter dev _) as [m'|e]; [|done].
  cbn [mbind result_bind]. f_equal.
  clear Hhere Hm. induction ch as [|[name child] cs IHcs]; [done|].
  apply Forall_cons in IH as [Hc Hcs]. apply Forall_cons in Hch as [Hwc Hwcs].
  apply not_elem_of_app in Hbelow as [Hchild Hrest]. cbn [snd] in Hc, Hwc.
  rewrite Hc by done.
  destruct (apply_to_module_at _ _ child) as [child'|e]; [|done].
  cbn [mbind result_bind]. by rewrite IHcs.
Qed.

(** The walk with an empty state dict returns the tree as it is. *)
Lemma apply_to_module_at_nil :
  forall m module_prefix,
    apply_to_module_at (apply [] converter dev) module_prefix m = Ok m.
Proof.
  induction m as [ps bs np ch IH] using Module_tree_ind. intros module_prefix.
  cbn [apply_to_module_at].
  assert (Happly : forall m0,
            apply [] converter dev (mkModuleIterator m0 module_prefix) = Ok m0)
    by done.
  rewrite Happly. cbn [mbind result_bind].
  match goal with
  | |- ?walk ch ≫= _ = _ => assert (Hwalk : walk ch = Ok ch)
  end.
  { induction ch as [|[name child] cs IHcs]; [done|].
    apply Forall_cons in IH as [Hc Hcs]. cbn [snd] in Hc.
    rewrite Hc. cbn [mbind result_bind]. by rewrite IHcs. }
  by rewrite Hwalk.
Qed.

End Tree.

(** ** Two state dicts installed one after the other *)

Lemma mapM_twice {A} (f g : A -> option A) (l : list A) :
  mapM f l ≫= mapM g = mapM (fun x => f x ≫= g) l.
Proof.
  induction l as [|x l IH]; [done|].
  change (mapM ?h (x :: l)) with (y ← h x; k ← mapM h l; Some (y :: k)).
  rewrite <- IH. destruct (f x) as [y|]; [|done]. cbn [mbind option_bind].
  destruct (mapM f l) as [k|]; cbn [mbind option_bind].
  - change (mapM g (y :: k)) with (z ← g y; k' ← mapM g k; Some (z :: k')). done.
  - by destruct (g y).
Qed.

Lemma install_parameter_eq state_dict converter dev module_prefix name v :
  install_parameter state_dict converter dev module_prefix (name, v)
  = match dict_get ((module_prefix +:+ ".") +:+ name) state_dict with
    | None => Some (name, v)
    | Some replacement =>
        match v with
        | None => None
        | Some _ =>
            new_param ← returned (converter (mkModule [(name, v)] [] ∅ [])
                                    module_prefix name replacement dev);
            Some (name, Some new_param)
        end
    end.
Proof. reflexivity. Qed.

Lemma install_buffer_eq state_dict module_prefix non_persistent name v :
  install_buffer state_dict module_prefix non_persistent (name, v)
  = if decide (name ∈ non_persistent) then Some (name, v)
    else
      match dict_get ((module_prefix +:+ ".") +:+ name) state_dict with
      | None => Some (name, v)
      | Some replacement =>
          match v with
          | None => None
          | Some old_buffer =>
              _ ← returned (_validate_replacement old_buffer replacement
                              (module_prefix +:+ "." +:+ name));
              Some (name, Some replacement)
          end
      end.
Proof. reflexivity. Qed.

Lemma install_tree_unfold state_dict converter dev module_prefix m :
  install_tree state_dict converter dev module_prefix m
  = (m' ← install_module state_dict converter dev module_prefix m;
     children' ← mapM (fun nc : string * Module =>
                         child' ← install_tree state_dict converter dev
                                    (child_prefix module_prefix nc.1) nc.2;
                         Some (nc.1, child')) (_modules m);
     Some (set_modules m' children')).
Proof. by destruct m. Qed.

Section TwoStateDicts.

Variables first second both : dict Tensor.
Variable converter : TensorToParameterConverterT.
Variable dev : option Device.

(** [both] holds the items of [first] and of [second], which share no key. *)
Hypothesis both_lookup : forall key,
  dict_get key both = match dict_get key first with
                      | Some tensor => Some tensor
                      | None => dict_get key second
                      end.
Hypothesis apart : forall key tensor,
  dict_get key first = Some tensor -> dict_get key second = None.

Lemma install_parameter_twice module_prefix kv :
  install_parameter first converter dev module_prefix kv
    ≫= install_parameter second converter dev module_prefix
  = install_parameter both converter dev module_prefix kv.
Proof.
  destruct kv as [name v]. rewrite !install_parameter_eq, both_lookup.
  destruct (dict_get _ first) as [tensor|] eqn:Hfirst.
  - destruct v as [old|]; [|done].
    destruct (returned _) as [new_param|]; [|done].
    cbn [mbind option_bind]. by rewrite install_parameter_eq, (apart _ _ Hfirst).
  - cbn [mbind option_bind]. by rewrite install_parameter_eq.
Qed.

Lemma install_buffer_twice module_prefix non_persistent kv :
  install_buffer first module_prefix non_persistent kv
    ≫= install_buffer second module_prefix non_persistent
  = install_buffer both module_prefix non_persistent kv.
Proof.
  destruct kv as [name v]. rewrite !install_buffer_eq, both_lookup.
  destruct (decide (name ∈ non_persistent)) as [Hnp|Hp].
  { cbn [mbind option_bind]. by rewrite install_buffer_eq, decide_True. }
  destruct (dict_get _ first) as [tensor|] eqn:Hfirst.
  - destruct v as [old|]; [|done].
    destruct (returned _) as [[]|]; [|done].
    cbn [mbind option_bind].
    by rewrite install_buffer_eq, decide_False, (apart _ _ Hfirst).
  - cbn [mbind option_bind]. by rewrite install_buffer_eq, decide_False.
Qed.

Lemma install_module_twice module_prefix m :
  install_module first converter dev module_prefix m
    ≫= install_module second converter dev module_prefix
  = install_module both converter dev module_prefix m.
Proof.
  unfold install_module.
  rewrite <- (mapM_ext _ _ _ (install_parameter_twice module_prefix)), <- mapM_twice.
  rewrite <- (mapM_ext _ _ _
                (install_buffer_twice module_prefix (_non_persistent_buffers_set m))),
    <- mapM_twice.
  destruct (mapM (install_parameter first _ _ _) (_parameters m)) as [ps1|]; [|done].
  cbn [mbind option_bind].
  destruct (mapM (install_buffer first _ _) (_buffers m)) as [bs1|];
    cbn [mbind option_bind _parameters _buffers _non_persistent_buffers_set _modules].
  - done.
  - by destruct (mapM _ ps1).
Qed.

Lemma install_module_set_modules state_dict module_prefix m children :
  install_module state_dict converter dev module_prefix (set_modules m children)
  = (fun m' => set_modules m' children)
      <$> install_module state_dict converter dev module_prefix m.
Proof.
  unfold install_module. cbn [set_modules _parameters _buffers
                               _non_persistent_buffers_set _modules].
  destruct (mapM _ (_parameters m)) as [ps|]; [|done].
  cbn [mbind option_bind]. by destruct (mapM _ (_buffers m)).
Qed.

Lemma install_tree_twice :
  forall m module_prefix,
    install_tree first converter dev module_prefix m
      ≫= install_tree second converter dev module_prefix
    = install_tree both converter dev module_prefix m.
Proof.
  induction m as [ps bs np ch IH] using Module_tree_ind. intros module_prefix.
  rewrite (install_tree_unfold first), (install_tree_unfold both).
  cbn [_modules]. rewrite <- install_module_twice.
  pose (walk := fun state_dict =>
          mapM (fun nc : string * Module =>
                  child' ← install_tree state_dict converter dev
                             (child_prefix module_prefix nc.1) nc.2;
                  Some (nc.1, child'))).
  fold (walk first) (walk both).
  assert (Hch : walk both ch = walk first ch ≫= walk second).
  { unfold walk. rewrite mapM_twice. apply Forall_mapM_ext.
    eapply Forall_impl; [exact IH|].
    intros [name child] Hc. cbn [fst snd] in *. rewrite <- Hc.
    by destruct (install_tree first _ _ _ child). }
  rewrite Hch.
  destruct (install_module first _ _ _ _) as [m1|]; [|done].
  cbn [mbind option_bind].
  destruct (walk first ch) as [ch1|]; cbn [mbind option_bind].
  - rewrite (install_tree_unfold second), install_module_set_modules.
    fold (walk second).
    destruct (install_module second _ _ _ _) as [m2|]; [|done].
    cbn [fmap option_fmap option_map mbind option_bind].
    replace (_modules (set_modules m1 ch1)) with ch1 by (by destruct m1).
    destruct (walk second ch1) as [ch2|]; [|done].
    by destruct m2.
  - by destruct (install_module second _ _ _ m1).
Qed.

End TwoStateDicts.

(** ** Keys without a slot *)

(** C9, amended. A key of a converted state dict that is the key of no
    registered parameter, holding data or [None], and of no persistent
    buffer of the module tree raises nothing and changes nothing in the
    installation, which goes as it goes without the key; the key is
    recorded in [seen_keys] all the same when the state dict is converted
    and loaded. *)
Theorem key_without_slot_is_skipped (torch_to : TorchToT)
    (state_dict_converter : HFStateDictConverterT)
    tensor_to_param_converter dev m state_dict converted key seen :
  wf_tree m = true ->
  state_dict_converter state_dict = Ok converted ->
  key ∈ dict_keys converted ->
  key ∉ slot_keys m ->
  _emplace_module_state_dict torch_to m converted tensor_to_param_converter dev
  = _emplace_module_state_dict torch_to m (dict_remove key converted)
      tensor_to_param_converter dev /\
  forall m' seen',
    convert_and_load_state_dict torch_to state_dict_converter tensor_to_param_converter
      dev m state_dict seen = Ok (m', seen') ->
    key ∈ seen' /\
    _emplace_module_state_dict torch_to m (dict_remove key converted)
      tensor_to_param_converter dev = Ok m'.
Proof.
  intros Hwf Hconv Hkey Hslot.
  assert (Heq : _emplace_module_state_dict torch_to m converted
                  tensor_to_param_converter dev
                = _emplace_module_state_dict torch_to m (dict_remove key converted)
                    tensor_to_param_converter dev).
  { unfold _emplace_module_state_dict, apply_to_module. symmetry.
    by apply apply_to_module_at_remove. }
  split; [done|]. intros m' seen'. unfold convert_and_load_state_dict.
  rewrite Hconv. cbn [mbind result_bind].
  destruct (length converted =? 0) eqn:Hlen.
  { apply Nat.eqb_eq, nil_length_inv in Hlen. rewrite Hlen in Hkey.
    by apply not_elem_of_nil in Hkey. }
  rewrite <- Heq.
  destruct (_emplace_module_state_dict torch_to m converted _ _)
    as [m1|e]; cbn [mbind result_bind]; [|done].
  intros [= <- <-]. split; [|done].
  rewrite elem_of_union, elem_of_list_to_set. by right.
Qed.

(** C1, amended. The key of a non-persistent buffer raises no error: the
    buffer is not among the slots that [apply] considers, so with the key in
    the state dict [apply] does to the module what it does without the key,
    and so does the installation over the tree of the module, when no
    parameter and no persistent buffer of the tree has that key.  A state
    dict that supplies only the key leaves the module and the tree as they
    are. *)
Theorem non_persistent_buffer_key_is_skipped (torch_to : TorchToT) converter dev m
    module_prefix name :
  wf_module m = true ->
  dict_mem name (_buffers m) = true ->
  name ∈ _non_persistent_buffers_set m ->
  (name ∉ considered_names m) /\
  (forall state_dict,
     apply state_dict converter dev (mkModuleIterator m module_prefix)
     = apply (dict_remove ((module_prefix +:+ ".") +:+ name) state_dict) converter dev
         (mkModuleIterator m module_prefix)) /\
  (forall tensor,
     apply [((module_prefix +:+ ".") +:+ name, tensor)] converter dev
       (mkModuleIterator m module_prefix) = Ok m) /\
  forall root tensor_to_param_converter,
    wf_tree root = true ->
    module_at root "" m module_prefix ->
    (module_prefix +:+ ".") +:+ name ∉ slot_keys root ->
    (forall state_dict,
       _emplace_module_state_dict torch_to root state_dict tensor_to_param_converter dev
       = _emplace_module_state_dict torch_to root
           (dict_remove ((module_prefix +:+ ".") +:+ name) state_dict)
           tensor_to_param_converter dev) /\
    (forall tensor,
       _emplace_module_state_dict torch_to root
         [((module_prefix +:+ ".") +:+ name, tensor)] tensor_to_param_converter dev
       = Ok root).
Proof.
  intros Hwf Hbuffer Hnp.
  pose proof (wf_module_spec m Hwf) as (_ & _ & Hdis).
  assert (Hname : name ∉ considered_names m).
  { unfold considered_names. rewrite not_elem_of_app. split.
    - intros Hp. by apply (Hdis name Hp), dict_mem_true.
    - by intros [Hp _]%list_elem_of_filter. }
  assert (Hremove : forall tensor : Tensor,
            dict_remove ((module_prefix +:+ ".") +:+ name)
              [((module_prefix +:+ ".") +:+ name, tensor)] = []).
  { intros tensor. unfold dict_remove.
    rewrite filter_cons, decide_False by (cbn; tauto). done. }
  assert (Happly : forall state_dict,
            apply state_dict converter dev (mkModuleIterator m module_prefix)
            = apply (dict_remove ((module_prefix +:+ ".") +:+ name) state_dict)
                converter dev (mkModuleIterator m module_prefix)).
  { intros state_dict. symmetry. apply apply_remove; [done|].
    intros n Hn Heq. apply append_inj_l in Heq as ->. done. }
  assert (Htree : forall root tensor_to_param_converter state_dict,
            wf_tree root = true ->
            (module_prefix +:+ ".") +:+ name ∉ slot_keys root ->
            _emplace_module_state_dict torch_to root state_dict
              tensor_to_param_converter dev
            = _emplace_module_state_dict torch_to root
                (dict_remove ((module_prefix +:+ ".") +:+ name) state_dict)
                tensor_to_param_converter dev).
  { intros root t2p state_dict Hroot Hkey.
    unfold _emplace_module_state_dict, apply_to_module. symmetry.
    by apply apply_to_module_at_remove. }
  split_and!; [done | done | |].
  - intros tensor. rewrite Happly, Hremove. unfold apply. by cbn.
  - intros root t2p Hroot _ Hkey. split; [by intros; apply Htree|].
    intros tensor. rewrite Htree, Hremove by done.
    unfold _emplace_module_state_dict, apply_to_module. apply apply_to_module_at_nil.
Qed.

(** ** The exceptions of the walk *)

Lemma module_at_wf root root_prefix m module_prefix :
  module_at root root_prefix m module_prefix ->
  wf_tree root = true -> wf_tree m = true /\ wf_module m = true.
Proof.
  induction 1 as [m p|root root_prefix name child m p Hchild _ IH]; intros Hwf.
  - split; [done|]. destruct m. by apply wf_tree_unfold in Hwf as [? _].
  - apply IH. destruct root as [ps bs np ch]. apply wf_tree_unfold in Hwf as [_ Hch].
    rewrite Forall_forall in Hch. exact (Hch _ Hchild).
Qed.

Section WalkExceptions.

Variable state_dict : dict Tensor.
Variable converter : TensorToParameterConverterT.
Variable dev : option Device.
Variable module_prefix : string.
Hypothesis converter_local : slot_local converter.

Local Abbreviation candidates :=
  (filter (fun kv : string * Tensor => startswith kv.1 (module_prefix +:+ "."))
     state_dict).
Local Abbreviation loop := (emplace_local module_prefix candidates converter dev).
Local Abbreviation of_parameter :=
  (fun kv : string * option Param => (kv.1, a_parameter <$> kv.2)).
Local Abbreviation of_buffer :=
  (fun kv : string * option Tensor => (kv.1, a_tensor <$> kv.2)).

(** An exception of the iterations over the parameters is the exception of
    one of the parameters. *)
Lemma emplace_local_parameters_raises buffers non_persistent children tail names e
    (Q : Prop) rest :
  forall front,
    dict_keys (front ++ rest) = names ->
    NoDup names ->
    (forall name, name ∈ dict_keys rest -> name ∉ dict_keys buffers) ->
    (forall parameters, dict_keys parameters = names ->
       loop tail (mkModule parameters buffers non_persistent children) = Err e -> Q) ->
    loop ((of_parameter <$> rest) ++ tail)
      (mkModule (front ++ rest) buffers non_persistent children) = Err e ->
    Q \/
    exists name replacement,
      dict_get ((module_prefix +:+ ".") +:+ name) state_dict = Some replacement /\
      (((name, None) ∈ rest /\ e = ValueError_no_data name module_prefix) \/
       exists old_param,
         (name, Some old_param) ∈ rest /\
         converter (mkModule [(name, Some old_param)] [] ∅ []) module_prefix name
           replacement dev = Err e).
Proof.
  induction rest as [|[name v] rest IH]; intros front Hnames Hnd Hdis Htail.
  { cbn [fmap list_fmap app]. left. by eapply Htail. }
  assert (Hfresh : name ∉ dict_keys front).
  { rewrite <- Hnames, dict_keys_app in Hnd. apply NoDup_app in Hnd as (_ & Hnd & _).
    intros Hin. apply (Hnd name Hin). left. }
  assert (Hnext : forall v', dict_keys ((front ++ [(name, v')]) ++ rest) = names).
  { intros v'. rewrite <- app_assoc, <- Hnames. simpl.
    unfold dict_keys. by rewrite !fmap_app, !fmap_cons. }
  assert (Hrest : forall n, n ∈ dict_keys rest -> n ∉ dict_keys buffers).
  { intros n Hn. apply Hdis. by right. }
  assert (Hlift : forall v',
            loop ((of_parameter <$> rest) ++ tail)
              (mkModule ((front ++ [(name, v')]) ++ rest) buffers non_persistent
                 children) = Err e ->
            Q \/
            exists name0 replacement,
              dict_get ((module_prefix +:+ ".") +:+ name0) state_dict
              = Some replacement /\
              (((name0, None) ∈ (name, v) :: rest /\
                e = ValueError_no_data name0 module_prefix) \/
               exists old_param,
                 (name0, Some old_param) ∈ (name, v) :: rest /\
                 converter (mkModule [(name0, Some old_param)] [] ∅ []) module_prefix
                   name0 replacement dev = Err e)).
  { intros v' Hloop.
    destruct (IH (front ++ [(name, v')]) (Hnext v') Hnd Hrest Htail Hloop)
      as [HQ|(n & r & Hget & [[Hin ->]|(old & Hin & Hconv)])]; [by left|right..].
    - exists n, r. split; [done|]. left. split; [by right | done].
    - exists n, r. split; [done|]. right. exists old. split; [by right | done]. }
  rewrite fmap_cons. cbn [app emplace_local fst snd].
  rewrite dict_get_candidate.
  destruct (dict_get _ state_dict) as [replacement|] eqn:Hget.
  - destruct v as [old|].
    2:{ intros [= <-]. right. exists name, replacement. split; [done|].
        left. split; [left | done]. }
    cbn [fmap option_fmap option_map].
    unfold _emplace_module_tensor. cbn [_parameters _buffers].
    replace (dict_mem name (front ++ (name, Some old) :: rest)) with true
      by (symmetry; apply dict_mem_true; rewrite dict_keys_app;
          apply elem_of_app; right; left).
    replace (dict_mem name buffers) with false
      by (symmetry; apply dict_mem_false, Hdis; left).
    cbn [xorb negb].
    rewrite (converter_local _ (mkModule [(name, Some old)] [] ∅ []))
      by (cbn [_parameters]; rewrite dict_get_app_middle by done;
          simpl; by rewrite decide_True).
    destruct (converter _ _ _ _ _) as [new_param|e'] eqn:Hconv.
    2:{ intros [= <-]. right. exists name, replacement. split; [done|].
        right. exists old. split; [left | done]. }
    unfold set_parameters.
    cbn [mbind result_bind _parameters _buffers _non_persistent_buffers_set _modules].
    rewrite dict_set_app_middle by done.
    rewrite (cons_middle _ front rest), app_assoc. apply Hlift.
  - rewrite (cons_middle _ front rest), app_assoc. apply Hlift.
Qed.

(** An exception of the iterations over the persistent buffers is the
    exception of one of them. *)
Lemma emplace_local_buffers_raises parameters non_persistent children e rest :
  forall front,
    NoDup (dict_keys (front ++ rest)) ->
    (forall name, name ∈ dict_keys rest -> name ∉ dict_keys parameters) ->
    loop (of_buffer <$> filter (fun kv => kv.1 ∉ non_persistent) rest)
      (mkModule parameters (front ++ rest) non_persistent children) = Err e ->
    exists name replacement,
      dict_get ((module_prefix +:+ ".") +:+ name) state_dict = Some replacement /\
      (name ∉ non_persistent) /\
      (((name, None) ∈ rest /\ e = ValueError_no_data name module_prefix) \/
       exists old_buffer,
         (name, Some old_buffer) ∈ rest /\
         _validate_replacement old_buffer replacement (module_prefix +:+ "." +:+ name)
         = Err e).
Proof.
  induction rest as [|[name v] rest IH]; intros front Hnd Hdis; [done|].
  assert (Hfresh : name ∉ dict_keys front).
  { rewrite dict_keys_app in Hnd. apply NoDup_app in Hnd as (_ & Hnd & _).
    intros Hin. apply (Hnd name Hin). left. }
  assert (Hnext : forall v', NoDup (dict_keys ((front ++ [(name, v')]) ++ rest))).
  { intros v'. rewrite <- app_assoc. simpl. revert Hnd.
    unfold dict_keys. by rewrite !fmap_app, !fmap_cons. }
  assert (Hrest : forall n, n ∈ dict_keys rest -> n ∉ dict_keys parameters).
  { intros n Hn. apply Hdis. by right. }
  assert (Hlift : forall v',
            loop (of_buffer <$> filter (fun kv => kv.1 ∉ non_persistent) rest)
              (mkModule parameters ((front ++ [(name, v')]) ++ rest) non_persistent
                 children) = Err e ->
            exists name0 replacement,
              dict_get ((module_prefix +:+ ".") +:+ name0) state_dict
              = Some replacement /\
              (name0 ∉ non_persistent) /\
              (((name0, None) ∈ (name, v) :: rest /\
                e = ValueError_no_data name0 module_prefix) \/
               exists old_buffer,
                 (name0, Some old_buffer) ∈ (name, v) :: rest /\
                 _validate_replacement old_buffer replacement
                   (module_prefix +:+ "." +:+ name0) = Err e)).
  { intros v' Hloop.
    destruct (IH (front ++ [(name, v')]) (Hnext v') Hrest Hloop)
      as (n & r & Hget & Hp & [[Hin ->]|(old & Hin & Hval)]).
    - exists n, r. split_and!; [done..|]. left. split; [by right | done].
    - exists n, r. split_and!; [done..|]. right. exists old. split; [by right | done]. }
  rewrite filter_cons. cbn [fst snd].
  destruct (decide (name ∉ non_persistent)) as [Hp|Hnp].
  - rewrite fmap_cons. cbn [emplace_local fst snd].
    rewrite dict_get_candidate.
    destruct (dict_get _ state_dict) as [replacement|] eqn:Hget.
    + destruct v as [old|].
      2:{ intros [= <-]. exists name, replacement. split_and!; [done..|].
          left. split; [left | done]. }
      cbn [fmap option_fmap option_map].
      unfold _emplace_module_tensor. cbn [_parameters _buffers].
      replace (dict_mem name (front ++ (name, Some old) :: rest)) with true
        by (symmetry; apply dict_mem_true; rewrite dict_keys_app;
            apply elem_of_app; right; left).
      replace (dict_mem name parameters) with false
        by (symmetry; apply dict_mem_false, Hdis; left).
      cbn [xorb negb]. rewrite dict_get_app_middle by done.
      destruct (_validate_replacement _ _ _) as [[]|e'] eqn:Hv.
      2:{ intros [= <-]. exists name, replacement. split_and!; [done..|].
          right. exists old. split; [left | done]. }
      unfold set_buffers.
      cbn [mbind result_bind _parameters _buffers _non_persistent_buffers_set _modules].
      rewrite dict_set_app_middle by done.
      rewrite (cons_middle _ front rest), app_assoc. apply Hlift.
    + rewrite (cons_middle _ front rest), app_assoc. apply Hlift.
  - rewrite (cons_middle _ front rest), app_assoc. apply Hlift.
Qed.

(** An exception of [apply] is the exception of a slot of the module. *)
Lemma apply_raises m e :
  wf_module m = true ->
  apply state_dict converter dev (mkModuleIterator m module_prefix) = Err e ->
  slot_failure converter dev m module_prefix state_dict e.
Proof.
  intros Hwf. pose proof (wf_module_spec m Hwf) as (Hps & Hbs & Hdis).
  unfold apply. cbn [module prefix].
  destruct (length candidates =? 0); [done|].
  rewrite local_params_and_buffers_ok by done. cbn [mbind result_bind].
  destruct m as [ps bs np ch].
  cbn [_parameters _buffers _non_persistent_buffers_set _modules] in *.
  intros Hloop.
  destruct (emplace_local_parameters_raises bs np ch
              (of_buffer <$> filter (fun kv : string * option Tensor => kv.1 ∉ np) bs)
              (dict_keys ps) e
              (exists name replacement,
                 dict_get ((module_prefix +:+ ".") +:+ name) state_dict
                 = Some replacement /\
                 (name ∉ np) /\
                 (((name, None) ∈ bs /\ e = ValueError_no_data name module_prefix) \/
                  exists old_buffer,
                    (name, Some old_buffer) ∈ bs /\
                    _validate_replacement old_buffer replacement
                      (module_prefix +:+ "." +:+ name) = Err e))
              ps [] eq_refl Hps Hdis) as [HQ|HP]; [|exact Hloop| |].
  - intros ps' Hkeys. apply (emplace_local_buffers_raises ps' np ch e bs []); [done|].
    intros name Hb Hp. apply (Hdis name); [|done]. by rewrite <- Hkeys.
  - destruct HQ as (name & replacement & Hget & Hp & [[Hin ->]|(old & Hin & Hval)]);
      exists name, replacement; (split; [done|]); cbn [_parameters _buffers
        _non_persistent_buffers_set].
    + right. left. done.
    + right. right. right. by exists old.
  - destruct HP as (name & replacement & Hget & [[Hin ->]|(old & Hin & Hconv)]);
      exists name, replacement; (split; [done|]); cbn [_parameters _buffers
        _non_persistent_buffers_set].
    + left. done.
    + right. right. left. exists old. split; [done|].
      rewrite (converter_local _ (mkModule [(name, Some old)] [] ∅ [])); [done|].
      cbn [_parameters dict_get]. rewrite decide_True by done.
      by apply dict_get_Some.
Qed.


End WalkExceptions.

(** ** Shape and dtype validation *)



Section TreeExceptions.

Variable state_dict : dict Tensor.
Variable converter : TensorToParameterConverterT.
Variable dev : option Device.
Hypothesis converter_local : slot_local converter.

(** An exception of the walk is the exception of a slot of a module of the
    tree. *)
Lemma apply_to_module_at_raises e :
  forall root root_prefix,
    wf_tree root = true ->
    apply_to_module_at (apply state_dict converter dev) root_prefix root = Err e ->
    exists m module_prefix,
      module_at root root_prefix m module_prefix /\
      slot_failure converter dev m module_prefix state_dict e.
Proof.
  induction root as [ps bs np ch IH] using Module_tree_ind.
  intros root_prefix [Hm Hch]%wf_tree_unfold.
  cbn [apply_to_module_at].
  destruct (apply _ _ _ _) as [m1|e1] eqn:Happly.
  2:{ intros [= <-]. eexists _, _. split; [apply module_at_here|].
      by apply apply_raises. }
  cbn [mbind result_bind]. clear Happly Hm.
  match goal with
  | |- context [(?w ch ≫= _)] => set (walk := w)
  end.
  assert (Hwalk : walk ch = Err e ->
            exists name child m module_prefix,
              (name, child) ∈ ch /\
              module_at child (child_prefix root_prefix name) m module_prefix /\
              slot_failure converter dev m module_prefix state_dict e).
  { induction ch as [|[name child] cs IHcs]; [done|].
    apply Forall_cons in IH as [Hc Hcs]. apply Forall_cons in Hch as [Hwc Hwcs].
    cbn [fst snd] in *. cbn [walk].
    destruct (apply_to_module_at _ _ child) as [child'|e1] eqn:Hchild.
    2:{ intros [= <-]. destruct (Hc _ Hwc Hchild) as (m & p & Hat & Hfail).
        exists name, child, m, p. split; [left | done]. }
    cbn [mbind result_bind]. fold walk.
    destruct (walk cs) as [cs'|e2] eqn:Hcs'; [done|].
    intros [= <-]. destruct (IHcs Hcs Hwcs eq_refl) as (n & c & m & p & Hin & Hrest).
    exists n, c, m, p. split; [by right | done]. }
  destruct (walk ch) as [ch'|e1]; [done|]. intros [= <-].
  destruct (Hwalk eq_refl) as (name & child & m & p & Hin & Hat & Hfail).
  exists m, p. split; [|done].
  by apply (module_at_child _ root_prefix name child).
Qed.


End TreeExceptions.

Section Abort.

Variable torch_to : TorchToT.
Variable state_dict_converter : HFStateDictConverterT.
Variable tensor_to_param_converter : option TensorToParameterConverterT.
Variable dev : option Device.
Variable torch_load : string -> result (dict Tensor).

Local Abbreviation convert_and_load :=
  (convert_and_load_state_dict torch_to state_dict_converter tensor_to_param_converter
      dev).
Local Abbreviation in_order :=
  (convert_and_load_in_order torch_to state_dict_converter tensor_to_param_converter dev).
Local Abbreviation load_one :=
  (load_state_dict torch_to state_dict_converter tensor_to_param_converter dev).
Local Abbreviation load_all :=
  (load_state_dicts torch_to state_dict_converter tensor_to_param_converter dev
      torch_load).
Local Abbreviation load :=
  (load_model_from_checkpoints torch_to state_dict_converter tensor_to_param_converter dev
     torch_load).

Lemma load_state_dict_in_order st state_dict :
  load_one st state_dict =
    ('(default, buckets) ← sort_into_buckets state_dict (default_bucket st)
                             (deserialization_buckets st);
     '(m, seen) ← in_order
         (bucket_items default ::
            (bucket_items <$> filter (fun b => ready b = true) buckets))
         (model st) (seen_keys st);
     Ok (mkLoadState m seen (bucket_clear default) (cleared_if_ready <$> buckets))).
Proof.
  unfold load_state_dict.
  destruct (sort_into_buckets _ _ _) as [[default buckets]|e]; [|done].
  cbn [mbind result_bind convert_and_load_in_order].
  destruct (convert_and_load _ _ _) as [[m seen]|e]; [|done].
  cbn [mbind result_bind]. rewrite load_ready_buckets_in_order.
  by destruct (in_order _ m seen) as [[m' seen']|e].
Qed.



End Abort.

Lemma default_converter_slot_local (torch_to : TorchToT) :
  slot_local (default_tensor_to_parameter_converter torch_to).
Proof.
  intros m m' module_prefix name tensor dev Hget.
  unfold default_tensor_to_parameter_converter. by rewrite Hget.
Qed.



(** ** Checkpoints of keys of the default bucket *)

Lemma sort_into_default_bucket items buckets :
  (forall key, key ∈ dict_keys items -> num_matching buckets key = 0) ->
  forall front,
    NoDup (dict_keys (front ++ items)) ->
    sort_into_buckets items (DefaultParamBucket front) buckets
    = Ok (DefaultParamBucket (front ++ items), buckets).
Proof.
  induction items as [|[name param] items IH]; intros Hnone front Hnd.
  { simpl. by rewrite app_nil_r. }
  cbn [sort_into_buckets]. fold (num_matching buckets name).
  rewrite (Hnone name) by left. cbn [Nat.eqb bucket_set with_items bucket_items].
  rewrite dict_set_fresh.
  - rewrite IH, <- app_assoc; [done| |by rewrite <- app_assoc].
    intros key Hk. apply Hnone. by right.
  - rewrite dict_keys_app in Hnd. apply NoDup_app in Hnd as (_ & Hnd & _).
    intros Hin. apply (Hnd name Hin). left.
Qed.

Lemma wf_module_keys m m' :
  dict_keys (_parameters m') = dict_keys (_parameters m) ->
  dict_keys (_buffers m') = dict_keys (_buffers m) ->
  wf_module m' = wf_module m.
Proof.
  intros Hp Hb. unfold wf_module. rewrite Hp, Hb. f_equal. clear Hp.
  induction (dict_keys (_parameters m)) as [|name names IH]; [done|].
  cbn [forallb]. by rewrite (dict_mem_keys name _ _ Hb), IH.
Qed.

Lemma wf_tree_fold m :
  wf_module m = true -> Forall (fun nc => wf_tree nc.2 = true) (_modules m) ->
  wf_tree m = true.
Proof.
  destruct m as [ps bs np ch]. cbn [_modules wf_tree]. intros -> Hch.
  cbn [andb]. induction Hch as [|[name child] cs Hc _ IH]; [done|].
  cbn [snd] in Hc. by rewrite Hc.
Qed.

Section TreeFacts.

Variable converter : TensorToParameterConverterT.
Variable dev : option Device.

Lemma install_module_shape state_dict module_prefix m m' :
  install_module state_dict converter dev module_prefix m = Some m' ->
  wf_module m' = wf_module m /\ _modules m' = _modules m.
Proof.
  unfold install_module.
  destruct (mapM _ (_parameters m)) as [ps|] eqn:Hps; [|done].
  destruct (mapM _ (_buffers m)) as [bs|] eqn:Hbs; [|done].
  intros [= <-]. split; [|done]. apply wf_module_keys; cbn [_parameters _buffers].
  - exact (mapM_keys _ _ _ (install_parameter_key _ _ _ _) Hps).
  - exact (mapM_keys _ _ _ (install_buffer_key _ _ _) Hbs).
Qed.

Lemma install_tree_wf state_dict :
  forall m module_prefix m',
    wf_tree m = true ->
    install_tree state_dict converter dev module_prefix m = Some m' ->
    wf_tree m' = true.
Proof.
  induction m as [ps bs np ch IH] using Module_tree_ind.
  intros module_prefix m' [Hm Hch]%wf_tree_unfold. rewrite install_tree_unfold.
  destruct (install_module _ _ _ _ _) as [m1|] eqn:Hm1; [|done].
  apply install_module_shape in Hm1 as [Hwf1 _].
  cbn [mbind option_bind _modules].
  destruct (mapM _ ch) as [ch'|] eqn:Hwalk; [|done]. intros [= <-].
  apply wf_tree_fold.
  - rewrite <- Hm, <- Hwf1. by destruct m1.
  - replace (_modules (set_modules m1 ch')) with ch' by (by destruct m1).
    apply mapM_Some in Hwalk. clear Hm Hwf1.
    induction Hwalk as [|[name child] nc' cs cs' Hstep _ IHw]; [constructor|].
    apply Forall_cons in IH as [Hc Hcs]. apply Forall_cons in Hch as [Hwc Hwcs].
    cbn [fst snd] in *.
    destruct (install_tree _ _ _ _ child) as [child'|] eqn:Hchild; [|done].
    injection Hstep as <-. constructor; [by eapply Hc | by apply IHw].
Qed.

Lemma install_tree_nil :
  forall m module_prefix, install_tree [] converter dev module_prefix m = Some m.
Proof.
  induction m as [ps bs np ch IH] using Module_tree_ind. intros module_prefix.
  rewrite install_tree_unfold. unfold install_module.
  rewrite (mapM_id_on (install_parameter _ _ _ _)) by (by intros [name v] _).
  rewrite (mapM_id_on (install_buffer _ _ _))
    by (intros [name v] _; rewrite install_buffer_eq; by destruct (decide _)).
  cbn [mbind option_bind _parameters _buffers _non_persistent_buffers_set _modules].
  rewrite mapM_id_on; [done|].
  intros [name child] Hin. rewrite Forall_forall in IH.
  cbn [fst snd]. by rewrite (IH _ Hin).
Qed.

End TreeFacts.

Section DefaultBucketOnly.

Variable torch_to : TorchToT.
Variable state_dict_converter : HFStateDictConverterT.
Variable tensor_to_param_converter : option TensorToParameterConverterT.
Variable dev : option Device.
Variable torch_load : string -> result (dict Tensor).

Local Abbreviation convert_and_load :=
  (convert_and_load_state_dict torch_to state_dict_converter tensor_to_param_converter
      dev).
Local Abbreviation load_one :=
  (load_state_dict torch_to state_dict_converter tensor_to_param_converter dev).

Hypothesis converter_local : slot_local (resolve_converter torch_to
    tensor_to_param_converter).

Lemma convert_and_load_returned m state_dict converted seen :
  wf_tree m = true ->
  state_dict_converter state_dict = Ok converted ->
  returned (convert_and_load m state_dict seen)
  = (m' ← install_tree converted
            (resolve_converter torch_to tensor_to_param_converter) dev "" m;
     Some (m', seen ∪ list_to_set (dict_keys converted))).
Proof.
  intros Hwf Hconverted. unfold convert_and_load_state_dict.
  rewrite Hconverted. cbn [mbind result_bind].
  destruct (length converted =? 0) eqn:Hlen.
  - apply Nat.eqb_eq, nil_length_inv in Hlen. rewrite Hlen, install_tree_nil.
    cbn. by rewrite union_empty_r_L.
  - rewrite returned_bind. unfold _emplace_module_state_dict, apply_to_module.
    rewrite apply_to_module_at_returned by done.
    by destruct (install_tree _ _ _ _ _).
Qed.

Lemma load_state_dict_default_only m seen buckets shard :
  state_dict_converter [] = Ok [] ->
  Forall (fun b => bucket_items b = []) buckets ->
  (forall key, key ∈ dict_keys shard -> num_matching buckets key = 0) ->
  NoDup (dict_keys shard) ->
  load_one (mkLoadState m seen (DefaultParamBucket []) buckets) shard
  = ('(m', seen') ← convert_and_load m shard seen;
     Ok (mkLoadState m' seen' (DefaultParamBucket []) buckets)).
Proof.
  intros Hconv Hempty Hnone Hnd.
  rewrite load_state_dict_in_order.
  cbn [default_bucket deserialization_buckets model seen_keys].
  rewrite (sort_into_default_bucket shard buckets Hnone []) by done.
  cbn [mbind result_bind app bucket_items convert_and_load_in_order].
  destruct (convert_and_load m shard seen) as [[m' seen']|e]; [|done].
  cbn [mbind result_bind].
  rewrite in_order_all_empty.
  - cbn [mbind result_bind bucket_clear with_items]. do 2 f_equal.
    clear Hnone. induction Hempty as [|b bs Hb _ IH]; [done|].
    rewrite fmap_cons, IH. f_equal. unfold cleared_if_ready, bucket_clear.
    destruct (ready b); [|done]. destruct b; simpl in *; by subst.
  - apply Forall_fmap, Forall_forall. intros b [_ Hb]%list_elem_of_filter.
    rewrite Forall_forall in Hempty. cbn. by rewrite (Hempty b Hb).
Qed.

End DefaultBucketOnly.

Lemma returned_Some {A} (r : result A) (a : A) : returned r = Some a -> r = Ok a.
Proof. destruct r; [by intros [= ->] | done]. Qed.

Lemma returned_None {A} (r : result A) : returned r = None -> exists e, r = Err e.
Proof. destruct r as [a|e]; [done | by exists e]. Qed.

(** C8, amended. For keys that no configured bucket matches, a state dict
    converter that works key by key and sends distinct keys to distinct
    keys, and buckets that are empty at the call: loading two checkpoints
    whose items are together the items of one checkpoint ends as loading
    that one checkpoint does, with the same final state when it returns and
    with an exception when that one raises. *)
Theorem two_checkpoints_load_as_one (torch_to : TorchToT)
    (state_dict_converter : HFStateDictConverterT) tensor_to_param_converter dev
    torch_load m buckets path1 path2 path shard1 shard2 shard rename reshape :
  key_wise state_dict_converter rename reshape ->
  (forall k k', k ∈ dict_keys shard -> k' ∈ dict_keys shard ->
                rename k = rename k' -> k = k') ->
  slot_local (resolve_converter torch_to tensor_to_param_converter) ->
  wf_tree m = true ->
  Forall (fun b => bucket_items b = []) buckets ->
  (forall key, key ∈ dict_keys shard -> num_matching buckets key = 0) ->
  NoDup (dict_keys shard) ->
  shard ≡ₚ shard1 ++ shard2 ->
  torch_load path1 = Ok shard1 ->
  torch_load path2 = Ok shard2 ->
  torch_load path = Ok shard ->
  returned (load_model_from_checkpoints torch_to state_dict_converter
      tensor_to_param_converter
              dev torch_load m [path1; path2] buckets)
  = returned (load_model_from_checkpoints torch_to state_dict_converter
      tensor_to_param_converter
                dev torch_load m [path] buckets).
Proof.
  intros Hkw Hinj Hlocal Hwf Hempty Hnone Hnd Hperm Hp1 Hp2 Hp.
  set (g := fun kv : string * Tensor => (rename kv.1, reshape kv.1 kv.2)).
  assert (Hkeys : forall sd, dict_keys (g <$> sd) = rename <$> dict_keys sd).
  { intros sd. unfold dict_keys. by rewrite <- !list_fmap_compose. }
  assert (Hconv : forall sd, dict_keys sd ⊆ dict_keys shard -> NoDup (dict_keys sd) ->
                    state_dict_converter sd = Ok (g <$> sd)).
  { intros sd Hsub Hsd. rewrite Hkw. f_equal. apply dict_from_items_NoDup.
    fold g. rewrite Hkeys. apply NoDup_fmap_2_strong; [|done].
    intros k k' Hk Hk'. apply Hinj; by apply Hsub. }
  assert (Hnil : state_dict_converter [] = Ok []) by (by rewrite Hkw).
  assert (Hkperm : dict_keys shard ≡ₚ dict_keys shard1 ++ dict_keys shard2).
  { unfold dict_keys. by rewrite Hperm, fmap_app. }
  assert (Hnd12 : NoDup (dict_keys shard1 ++ dict_keys shard2)) by (by rewrite <- Hkperm).
  pose proof Hnd12 as (Hnd1 & _ & Hnd2)%NoDup_app.
  assert (Hsub1 : dict_keys shard1 ⊆ dict_keys shard).
  { intros k Hk. rewrite Hkperm. apply elem_of_app. by left. }
  assert (Hsub2 : dict_keys shard2 ⊆ dict_keys shard).
  { intros k Hk. rewrite Hkperm. apply elem_of_app. by right. }
  assert (Hcperm : g <$> shard ≡ₚ (g <$> shard1) ++ (g <$> shard2)).
  { by rewrite Hperm, fmap_app. }
  assert (Hcnd : NoDup (dict_keys (g <$> shard))).
  { rewrite Hkeys. by apply NoDup_fmap_2_strong. }
  assert (Hcnd12 : NoDup (dict_keys ((g <$> shard1) ++ (g <$> shard2)))).
  { unfold dict_keys. rewrite <- Hcperm. exact Hcnd. }
  assert (Hboth : forall key,
            dict_get key (g <$> shard)
            = match dict_get key (g <$> shard1) with
              | Some tensor => Some tensor
              | None => dict_get key (g <$> shard2)
              end).
  { intros key. by rewrite (dict_get_perm key _ _ Hcnd Hcperm), dict_get_app. }
  assert (Hapart : forall key tensor,
            dict_get key (g <$> shard1) = Some tensor ->
            dict_get key (g <$> shard2) = None).
  { intros key tensor Hget. apply dict_get_None.
    rewrite dict_keys_app in Hcnd12. apply NoDup_app in Hcnd12 as (_ & Hdis & _).
    apply Hdis. apply dict_get_elem_of in Hget.
    apply list_elem_of_fmap. by exists (key, tensor). }
  assert (Hseen : (list_to_set (dict_keys (g <$> shard)) : gset string)
                  = list_to_set (dict_keys (g <$> shard1))
                    ∪ list_to_set (dict_keys (g <$> shard2))).
  { unfold dict_keys. by rewrite Hcperm, fmap_app, list_to_set_app_L. }
  pose proof (convert_and_load_returned torch_to state_dict_converter _ dev Hlocal
                m shard1 _ ∅ Hwf (Hconv shard1 Hsub1 Hnd1)) as R1.
  pose proof (convert_and_load_returned torch_to state_dict_converter _ dev Hlocal
                m shard _ ∅ Hwf (Hconv shard (fun k Hk => Hk) Hnd)) as R.
  rewrite <- (install_tree_twice _ _ _ _ _ Hboth Hapart) in R.
  unfold load_model_from_checkpoints.
  cbn [load_state_dicts]. rewrite Hp1, Hp2, Hp. cbn [mbind result_bind].
  rewrite !load_state_dict_default_only by (done || by (intros; apply Hnone; auto)).
  destruct (install_tree (g <$> shard1) _ dev "" m) as [m1|] eqn:HT1;
    cbn [mbind option_bind] in R1, R.
  - apply returned_Some in R1. rewrite R1. cbn [mbind result_bind].
    rewrite load_state_dict_default_only
      by (done || by (intros; apply Hnone; auto)).
    pose proof (install_tree_wf _ dev _ _ _ _ Hwf HT1) as Hwf1.
    pose proof (convert_and_load_returned torch_to state_dict_converter _ dev Hlocal
                  m1 shard2 _ (∅ ∪ list_to_set (dict_keys (g <$> shard1))) Hwf1
                  (Hconv shard2 Hsub2 Hnd2)) as R2.
    destruct (install_tree (g <$> shard2) _ dev "" m1) as [m2|] eqn:HT2;
      cbn [mbind option_bind] in R2, R.
    + apply returned_Some in R2, R. rewrite R2, R. cbn [mbind result_bind].
      by rewrite Hseen, (assoc_L (∪)).
    + apply returned_None in R2 as [e2 ->], R as [e ->]. done.
  - apply returned_None in R1 as [e1 ->], R as [e ->]. done.
Qed.

(** ** The properties at example values *)

(** C1, as the claim states it: the key of the non-persistent buffer
    [running_count] in a converted state dict raises nothing; the
    installation returns and leaves the model as it was. *)
Lemma non_persistent_buffer_key_raises_nothing :
  "running_count" ∈ _non_persistent_buffers_set batch_norm /\
  _emplace_module_state_dict example_torch_to example_model
    [("norm.running_count", new_mean)] None None
  = Ok example_model.
Proof. split; reflexivity. Qed.

(** The property at the module [batch_norm] of [example_model], whose
    buffer [running_count] is not persistent, and at state dicts that hold
    its key beside the key of another tensor. *)
Lemma non_persistent_buffer_key_is_skipped_witness :
  wf_module batch_norm = true /\
  dict_mem "running_count" (_buffers batch_norm) = true /\
  "running_count" ∈ _non_persistent_buffers_set batch_norm /\
  ("running_count" ∉ considered_names batch_norm) /\
  apply [("norm.running_mean", new_mean); ("norm.running_count", new_mean)]
    (default_tensor_to_parameter_converter example_torch_to) None
    (mkModuleIterator batch_norm "norm")
  = apply (dict_remove "norm.running_count"
             [("norm.running_mean", new_mean); ("norm.running_count", new_mean)])
      (default_tensor_to_parameter_converter example_torch_to) None
      (mkModuleIterator batch_norm "norm") /\
  _emplace_module_state_dict example_torch_to example_model
    [("linear.weight", new_weight); ("norm.running_count", new_mean)] None None
  = _emplace_module_state_dict example_torch_to example_model
      (dict_remove "norm.running_count"
         [("linear.weight", new_weight); ("norm.running_count", new_mean)]) None None /\
  _emplace_module_state_dict example_torch_to example_model
    [("norm.running_count", new_mean)] None None
  = Ok example_model.
Proof.
  assert (H1 : wf_module batch_norm = true) by reflexivity.
  assert (H2 : dict_mem "running_count" (_buffers batch_norm) = true) by reflexivity.
  assert (H3 : "running_count" ∈ _non_persistent_buffers_set batch_norm) by reflexivity.
  pose proof (non_persistent_buffer_key_is_skipped example_torch_to
                (default_tensor_to_parameter_converter example_torch_to) None
                batch_norm "norm" "running_count" H1 H2 H3)
    as (Hname & Hmodule & _ & Htree).
  assert (Hat : module_at example_model "" batch_norm "norm").
  { apply (module_at_child example_model "" "norm" batch_norm).
    - apply list_elem_of_further, list_elem_of_here.
    - apply module_at_here. }
  assert (Hkey : "norm.running_count" ∉ slot_keys example_model).
  { intros Hin. cbn in Hin.
    repeat (apply elem_of_cons in Hin as [Heq|Hin]; [discriminate Heq|]).
    by apply not_elem_of_nil in Hin. }
  destruct (Htree example_model None eq_refl Hat Hkey) as [Hwith Honly].
  split_and!; [exact H1 | exact H2 | exact H3 | exact Hname | | |].
  - exact (Hmodule [("norm.running_mean", new_mean); ("norm.running_count", new_mean)]).
  - exact (Hwith [("linear.weight", new_weight); ("norm.running_count", new_mean)]).
  - exact (Honly new_mean).
Defined.

(** The checks after the two checkpoints of [example_model] are loaded:
    no key is missing, no bucket is configured, the call returns. *)
Lemma checks_after_the_loop_witness :
  load_state_dicts example_torch_to same_names None None example_torch_load
    ["model-00001.bin"; "model-00002.bin"] (initial_state example_model [])
  = Ok (mkLoadState loaded_model {["linear.weight"; "norm.running_mean"]}
          (DefaultParamBucket []) []) /\
  load_model_from_checkpoints example_torch_to same_names None None example_torch_load
      example_model
    ["model-00001.bin"; "model-00002.bin"] []
  = Ok (mkLoadState loaded_model {["linear.weight"; "norm.running_mean"]}
          (DefaultParamBucket []) []).
Proof.
  assert (H : load_state_dicts example_torch_to same_names None None example_torch_load
                ["model-00001.bin"; "model-00002.bin"] (initial_state example_model [])
              = Ok (mkLoadState loaded_model {["linear.weight"; "norm.running_mean"]}
                      (DefaultParamBucket []) [])) by reflexivity.
  split; [exact H|].
  apply (proj2 (proj2 (proj2 (checks_after_the_loop example_torch_to same_names None None
                                example_torch_load example_model _ [] _ H)))).
  split_and!; [reflexivity | |].
  - intros key Hkey. cbn in Hkey.
    repeat (apply elem_of_cons in Hkey as [->|Hkey]); try reflexivity.
    by apply not_elem_of_nil in Hkey.
  - intros bucket Hb. by apply not_elem_of_nil in Hb.
Defined.

(** The key [attention.query.weight] is matched by the two buckets; the
    pair before it is matched by none. *)
Lemma key_matching_several_buckets_raises_witness :
  (forall key, key ∈ dict_keys [("embeddings.weight", example_tensor)] ->
     num_matching [attention_bucket []; query_bucket []] key <= 1) /\
  1 < num_matching [attention_bucket []; query_bucket []] "attention.query.weight" /\
  load_model_from_checkpoints example_torch_to same_names None None example_torch_load
      example_model
    ["attention.bin"; "model.bin"] [attention_bucket []; query_bucket []]
  = Err (ValueError_multiple_buckets "attention.query.weight" 2).
Proof.
  assert (H1 : forall key, key ∈ dict_keys [("embeddings.weight", example_tensor)] ->
                 num_matching [attention_bucket []; query_bucket []] key <= 1).
  { intros key Hkey. cbn in Hkey.
    repeat (apply elem_of_cons in Hkey as [->|Hkey]).
    - vm_compute. lia.
    - by apply not_elem_of_nil in Hkey. }
  assert (H2 : 1 < num_matching [attention_bucket []; query_bucket []]
                     "attention.query.weight") by (vm_compute; lia).
  split_and!; [exact H1 | exact H2 |].
  exact (proj2 (key_matching_several_buckets_raises example_torch_to same_names None None
                  example_torch_load example_model
                  [attention_bucket []; query_bucket []]
                  [] "attention.bin" ["model.bin"]
                  (initial_state example_model [attention_bucket []; query_bucket []])
                  [("embeddings.weight", example_tensor)]
                  "attention.query.weight" example_tensor
                  [("attention.key.weight", example_tensor);
                   ("mlp.up.weight", example_tensor)]
                  eq_refl eq_refl H1 H2)).
Defined.

(** One iteration over a checkpoint that holds the weight of the linear
    layer, fills the attention bucket and leaves the bucket of the
    feed-forward layer waiting for its second key: the weight is installed,
    the keys of the default bucket and of the attention bucket are seen. *)
Lemma order_of_conversion_in_one_iteration_witness :
  sort_into_buckets
    [("linear.weight", new_weight); ("attention.query.weight", example_tensor);
     ("attention.key.weight", example_tensor); ("mlp.up.weight", example_tensor)]
    (DefaultParamBucket []) [attention_bucket []; mlp_bucket []]
  = Ok (DefaultParamBucket [("linear.weight", new_weight)],
        [attention_bucket [("attention.query.weight", example_tensor);
                           ("attention.key.weight", example_tensor)];
         mlp_bucket [("mlp.up.weight", example_tensor)]]) /\
  load_state_dict example_torch_to same_names None None
    (initial_state example_model [attention_bucket []; mlp_bucket []])
    [("linear.weight", new_weight); ("attention.query.weight", example_tensor);
     ("attention.key.weight", example_tensor); ("mlp.up.weight", example_tensor)]
  = Ok (mkLoadState
          (mkModule [] [] ∅
             [("linear",
               mkModule [("weight", Some (mkParam new_weight true)); ("bias", None)]
                 [] ∅ []);
              ("norm", batch_norm)])
          {["linear.weight"; "attention.query.weight"; "attention.key.weight"]}
          (DefaultParamBucket [])
          [attention_bucket []; mlp_bucket [("mlp.up.weight", example_tensor)]]).
Proof.
  assert (H : sort_into_buckets
                [("linear.weight", new_weight);
                 ("attention.query.weight", example_tensor);
                 ("attention.key.weight", example_tensor);
                 ("mlp.up.weight", example_tensor)]
                (default_bucket
                   (initial_state example_model [attention_bucket []; mlp_bucket []]))
                (deserialization_buckets
                   (initial_state example_model [attention_bucket []; mlp_bucket []]))
              = Ok (DefaultParamBucket [("linear.weight", new_weight)],
                    [attention_bucket [("attention.query.weight", example_tensor);
                                       ("attention.key.weight", example_tensor)];
                     mlp_bucket [("mlp.up.weight", example_tensor)]])) by reflexivity.
  split; [exact H|].
  exact (eq_trans
           (proj1 (order_of_conversion_in_one_iteration example_torch_to same_names
                     None None _ _ _ _ H))
           eq_refl).
Defined.

(** The same iteration under a converter that returns the empty mapping:
    the tensors of the default bucket and of the attention bucket are gone,
    the model and the set of seen keys are as before. *)
Lemma buckets_empty_after_iteration_witness :
  load_state_dict example_torch_to nothing_yet None None
    (initial_state example_model [attention_bucket []; mlp_bucket []])
    [("embeddings.weight", example_tensor); ("attention.query.weight", example_tensor);
     ("attention.key.weight", example_tensor); ("mlp.up.weight", example_tensor)]
  = Ok (mkLoadState example_model ∅ (DefaultParamBucket [])
          [attention_bucket []; mlp_bucket [("mlp.up.weight", example_tensor)]]) /\
  bucket_items (default_bucket
                  (mkLoadState example_model ∅ (DefaultParamBucket [])
                     [attention_bucket [];
                      mlp_bucket [("mlp.up.weight", example_tensor)]])) = [] /\
  (forall m items seen,
     nothing_yet items = Ok [] ->
     convert_and_load_state_dict example_torch_to nothing_yet None None m items seen
     = Ok (m, seen)).
Proof.
  assert (Hsort : sort_into_buckets
                    [("embeddings.weight", example_tensor);
                     ("attention.query.weight", example_tensor);
                     ("attention.key.weight", example_tensor);
                     ("mlp.up.weight", example_tensor)]
                    (default_bucket
                       (initial_state example_model [attention_bucket []; mlp_bucket []]))
                    (deserialization_buckets
                       (initial_state example_model [attention_bucket []; mlp_bucket []]))
                  = Ok (DefaultParamBucket [("embeddings.weight", example_tensor)],
                        [attention_bucket [("attention.query.weight", example_tensor);
                                           ("attention.key.weight", example_tensor)];
                         mlp_bucket [("mlp.up.weight", example_tensor)]]))
    by reflexivity.
  assert (Hload : load_state_dict example_torch_to nothing_yet None None
                    (initial_state example_model [attention_bucket []; mlp_bucket []])
                    [("embeddings.weight", example_tensor);
                     ("attention.query.weight", example_tensor);
                     ("attention.key.weight", example_tensor);
                     ("mlp.up.weight", example_tensor)]
                  = Ok (mkLoadState example_model ∅ (DefaultParamBucket [])
                          [attention_bucket [];
                           mlp_bucket [("mlp.up.weight", example_tensor)]]))
    by reflexivity.
  pose proof (buckets_empty_after_iteration example_torch_to nothing_yet None None _ _ _
      _ _
                Hsort Hload) as (Hdefault & _ & Hdiscard & _).
  split_and!; [exact Hload | exact Hdefault | exact Hdiscard].
Defined.

(** C9, as the claim states it: [linear.bias] is the key of no existing
    parameter or persistent buffer of [example_model], whose parameter
    [bias] is registered without data and is not among the keys of
    [state_dict()]; a converted state dict with that key raises the
    exception of line 250. *)
Lemma key_of_parameter_without_data_raises :
  ("linear.bias" ∉ state_dict_keys example_model) /\
  same_names [("linear.bias", new_weight)] = Ok [("linear.bias", new_weight)] /\
  _emplace_module_state_dict example_torch_to example_model
    [("linear.bias", new_weight)] None None
  = Err (ValueError_no_data "bias" "linear") /\
  convert_and_load_state_dict example_torch_to same_names None None example_model
    [("linear.bias", new_weight)] ∅
  = Err (ValueError_no_data "bias" "linear").
Proof.
  split_and!; [|reflexivity..].
  intros Hin. cbn in Hin.
  repeat (apply elem_of_cons in Hin as [Heq|Hin]; [discriminate Heq|]).
  by apply not_elem_of_nil in Hin.
Qed.

(** The key [pooler.weight] is the key of no slot of [example_model]. *)
Lemma key_without_slot_is_skipped_witness :
  wf_tree example_model = true /\
  same_names [("linear.weight", new_weight); ("pooler.weight", example_tensor)]
  = Ok [("linear.weight", new_weight); ("pooler.weight", example_tensor)] /\
  "pooler.weight" ∈ dict_keys [("linear.weight", new_weight);
                               ("pooler.weight", example_tensor)] /\
  ("pooler.weight" ∉ slot_keys example_model) /\
  _emplace_module_state_dict example_torch_to example_model
    [("linear.weight", new_weight); ("pooler.weight", example_tensor)] None None
  = _emplace_module_state_dict example_torch_to example_model
      (dict_remove "pooler.weight"
         [("linear.weight", new_weight); ("pooler.weight", example_tensor)])
      None None /\
  forall m' seen',
    convert_and_load_state_dict example_torch_to same_names None None example_model
      [("linear.weight", new_weight); ("pooler.weight", example_tensor)] ∅
    = Ok (m', seen') ->
    "pooler.weight" ∈ seen'.
Proof.
  assert (H1 : wf_tree example_model = true) by reflexivity.
  assert (H2 : same_names [("linear.weight", new_weight);
                           ("pooler.weight", example_tensor)]
               = Ok [("linear.weight", new_weight); ("pooler.weight", example_tensor)])
    by reflexivity.
  assert (H3 : "pooler.weight" ∈ dict_keys [("linear.weight", new_weight);
                                            ("pooler.weight", example_tensor)]).
  { apply list_elem_of_further, list_elem_of_here. }
  assert (H4 : "pooler.weight" ∉ slot_keys example_model).
  { intros Hin. cbn in Hin.
    repeat (apply elem_of_cons in Hin as [Heq|Hin]; [discriminate Heq|]).
    by apply not_elem_of_nil in Hin. }
  destruct (key_without_slot_is_skipped example_torch_to same_names None None
              example_model
              [("linear.weight", new_weight); ("pooler.weight", example_tensor)]
              _ "pooler.weight" ∅ H1 H2 H3 H4) as [Hsame Hseen].
  split_and!; [exact H1 | exact H2 | exact H3 | exact H4 | exact Hsame |].
  intros m' seen' Hload. exact (proj1 (Hseen m' seen' Hload)).
Defined.



(** C8, as the claim states it: a key-wise converter that sends two keys
    to one destination key.  The two checkpoints [a.bin] and [b.bin] hold
    between them the items of [ab.bin]; loading the two raises, for the
    tensor of [a.bin] has another shape than the slot, and loading the one
    returns, for the later item takes the place of the earlier in the
    converted state dict. *)
Lemma merging_converter_tells_checkpoints_apart :
  key_wise all_to_linear_weight (fun _ => "linear.weight") (fun _ tensor => tensor) /\
  (exists shard1 shard2,
     example_torch_load "a.bin" = Ok shard1 /\ example_torch_load "b.bin" = Ok shard2 /\
     example_torch_load "ab.bin" = Ok (shard1 ++ shard2)) /\
  load_model_from_checkpoints example_torch_to all_to_linear_weight None None
      example_torch_load
    small_model ["a.bin"; "b.bin"] []
  = Err (ValueError_size "linear" [4; 4] [4; 5]) /\
  is_ok (load_model_from_checkpoints example_torch_to all_to_linear_weight None None
      example_torch_load
           small_model ["ab.bin"] []) = true.
Proof.
  split_and!; [by intros sd | | reflexivity | reflexivity].
  by exists [("a.weight", wide_tensor)], [("b.weight", new_weight)].
Qed.

(** The two checkpoints of [example_model] and the checkpoint [model.bin]
    that holds the items of both. *)
Lemma two_checkpoints_load_as_one_witness :
  key_wise same_names (fun key => key) (fun _ tensor => tensor) /\
  wf_tree example_model = true /\
  NoDup (dict_keys [("linear.weight", new_weight); ("norm.running_mean", new_mean)]) /\
  returned (load_model_from_checkpoints example_torch_to same_names None None
      example_torch_load
              example_model ["model-00001.bin"; "model-00002.bin"] [attention_bucket []])
  = returned (load_model_from_checkpoints example_torch_to same_names None None
      example_torch_load
                example_model ["model.bin"] [attention_bucket []]).
Proof.
  assert (H1 : key_wise same_names (fun key => key) (fun _ tensor => tensor))
    by (intros sd; reflexivity).
  assert (H2 : wf_tree example_model = true) by reflexivity.
  assert (H3 : NoDup (dict_keys [("linear.weight", new_weight);
                                 ("norm.running_mean", new_mean)])).
  { apply NoDup_cons. split.
    - intros Hin. apply elem_of_cons in Hin as [Heq|Hin]; [discriminate Heq|].
      by apply not_elem_of_nil in Hin.
    - apply NoDup_singleton. }
  split_and!; [exact H1 | exact H2 | exact H3 |].
  apply (two_checkpoints_load_as_one example_torch_to same_names None None
      example_torch_load
           example_model [attention_bucket []]
           "model-00001.bin" "model-00002.bin" "model.bin"
           [("linear.weight", new_weight)] [("norm.running_mean", new_mean)]
           [("linear.weight", new_weight); ("norm.running_mean", new_mean)]
           (fun key => key) (fun _ tensor => tensor) H1).
  - intros k k' _ _ Heq. exact Heq.
  - exact (default_converter_slot_local example_torch_to).
  - exact H2.
  - repeat constructor.
  - intros key Hkey. cbn in Hkey.
    repeat (apply elem_of_cons in Hkey as [->|Hkey]); try reflexivity.
    by apply not_elem_of_nil in Hkey.
  - exact H3.
  - reflexivity.
  - reflexivity.
  - reflexivity.
  - reflexivity.
Defined.

(** * Further properties *)

(** ** The loop over the checkpoints *)

Lemma dict_set_length {V} (k : string) (v : V) (d : dict V) :
  length d <= length (dict_set k v d).
Proof.
  induction d as [|[k' v'] d IH]; simpl; [lia|].
  destruct (decide (k' = k)); simpl; lia.
Qed.

Lemma same_bucket_refl bs : Forall2 same_bucket bs bs.
Proof.
  induction bs as [|b bs IH]; constructor; [|done].
  exists (bucket_items b). by destruct b.
Qed.

Lemma same_bucket_trans bs1 bs2 bs3 :
  Forall2 same_bucket bs1 bs2 -> Forall2 same_bucket bs2 bs3 ->
  Forall2 same_bucket bs1 bs3.
Proof.
  intros H12. revert bs3. induction H12 as [|b1 b2 bs1 bs2 Hb _ IH]; intros bs3 H23.
  - by inversion H23.
  - inversion H23 as [|? b3 ? bs3' Hb' H23']; subst. constructor; [|by apply IH].
    destruct Hb as [items ->], Hb' as [items' ->]. exists items'. by destruct b1.
Qed.

Lemma set_in_first_match_same_bucket name param bs :
  Forall2 same_bucket bs (set_in_first_match name param bs).
Proof.
  induction bs as [|b bs IH]; simpl; [constructor|].
  destruct (bucket_match b name).
  - constructor; [by eexists | apply same_bucket_refl].
  - constructor; [|done]. exists (bucket_items b). by destruct b.
Qed.

Lemma sort_into_buckets_same_bucket items default bs default' bs' :
  sort_into_buckets items default bs = Ok (default', bs') ->
  same_bucket default default' /\ Forall2 same_bucket bs bs'.
Proof.
  revert default bs. induction items as [|[name param] items IH]; intros default bs;
      simpl.
  - intros [= <- <-]. split; [|apply same_bucket_refl].
    exists (bucket_items default). by destruct default.
  - destruct (_ =? 0).
    + intros [[items' ->] Hbs]%IH. split; [|done].
      exists items'. by destruct default.
    + destruct (_ =? 1); [|done]. intros [Hd Hbs]%IH. split; [done|].
      eapply same_bucket_trans; [apply set_in_first_match_same_bucket | done].
Qed.

Lemma cleared_if_ready_same_bucket bs :
  Forall2 same_bucket bs (cleared_if_ready <$> bs).
Proof.
  induction bs as [|b bs IH]; constructor; [|done].
  unfold cleared_if_ready, bucket_clear. destruct (ready b); [by eexists|].
  exists (bucket_items b). by destruct b.
Qed.

Section LoopFacts.

Variable torch_to : TorchToT.
Variable state_dict_converter : HFStateDictConverterT.
Variable tensor_to_param_converter : option TensorToParameterConverterT.
Variable dev : option Device.
Variable torch_load : string -> result (dict Tensor).

Local Abbreviation convert_and_load :=
  (convert_and_load_state_dict torch_to state_dict_converter tensor_to_param_converter
      dev).
Local Abbreviation in_order :=
  (convert_and_load_in_order torch_to state_dict_converter tensor_to_param_converter dev).
Local Abbreviation load_one :=
  (load_state_dict torch_to state_dict_converter tensor_to_param_converter dev).
Local Abbreviation load_all :=
  (load_state_dicts torch_to state_dict_converter tensor_to_param_converter dev
      torch_load).
Local Abbreviation load :=
  (load_model_from_checkpoints torch_to state_dict_converter tensor_to_param_converter dev
     torch_load).

(** What one iteration returns, in terms of the sorted buckets. *)
Lemma load_state_dict_ok st state_dict st' :
  load_one st state_dict = Ok st' ->
  exists default buckets m seen,
    sort_into_buckets state_dict (default_bucket st) (deserialization_buckets st)
      = Ok (default, buckets) /\
    in_order (bucket_items default ::
                (bucket_items <$> filter (fun b => ready b = true) buckets))
      (model st) (seen_keys st) = Ok (m, seen) /\
    st' = mkLoadState m seen (bucket_clear default) (cleared_if_ready <$> buckets).
Proof.
  rewrite load_state_dict_in_order. intros H.
  apply bind_ok in H as ([default buckets] & Hsort & H).
  apply bind_ok in H as ([m seen] & Hin & [= <-]).
  by exists default, buckets, m, seen.
Qed.

(** What converting and loading one state dict returns. *)
Lemma convert_and_load_ok m state_dict seen m' seen' :
  convert_and_load m state_dict seen = Ok (m', seen') ->
  exists converted,
    state_dict_converter state_dict = Ok converted /\
    seen' = seen ∪ list_to_set (dict_keys converted) /\
    ((converted = [] /\ m' = m) \/
     (converted <> [] /\
      _emplace_module_state_dict torch_to m converted tensor_to_param_converter dev
      = Ok m')).
Proof.
  unfold convert_and_load_state_dict. intros H.
  apply bind_ok in H as (converted & Hconv & H). exists converted. split; [done|].
  destruct (length converted =? 0) eqn:Hlen.
  - apply Nat.eqb_eq, nil_length_inv in Hlen. subst converted.
    injection H as <- <-. split; [|by left]. cbn. by rewrite union_empty_r_L.
  - apply bind_ok in H as (m2 & Hinstall & [= <- <-]). split; [done|]. right.
    split; [|done]. intros ->. discriminate Hlen.
Qed.

Lemma in_order_seen state_dicts m seen m' seen' :
  in_order state_dicts m seen = Ok (m', seen') ->
  seen' = seen ∪ converted_keys state_dict_converter state_dicts.
Proof.
  unfold converted_keys. revert m seen.
  induction state_dicts as [|sd sds IH]; intros m seen; simpl.
  - intros [= _ <-]. by rewrite union_empty_r_L.
  - intros H. apply bind_ok in H as ([m1 seen1] & Hsd & H).
    apply IH in H as ->. rewrite (assoc_L (∪)). f_equal.
    apply convert_and_load_ok in Hsd as (converted & -> & -> & _). done.
Qed.

Lemma load_state_dicts_invariant (P : LoadState -> LoadState -> Prop) :
  (forall st, P st st) ->
  (forall st1 st2 st3, P st1 st2 -> P st2 st3 -> P st1 st3) ->
  (forall st sd st', load_one st sd = Ok st' -> P st st') ->
  forall filepaths st st', load_all filepaths st = Ok st' -> P st st'.
Proof.
  intros Hrefl Htrans Hstep. induction filepaths as [|path rest IH]; intros st st'; simpl.
  - intros [= <-]. apply Hrefl.
  - intros H. apply bind_ok in H as (sd & _ & H).
    apply bind_ok in H as (st1 & H1 & H).
    eapply Htrans; [by eapply Hstep | by apply IH].
Qed.

End LoopFacts.

Lemma stays_overfull_refl bs : Forall2 stays_overfull bs bs.
Proof. induction bs; constructor; [by intros ? | done]. Qed.

Lemma stays_overfull_trans bs1 bs2 bs3 :
  Forall2 stays_overfull bs1 bs2 -> Forall2 stays_overfull bs2 bs3 ->
  Forall2 stays_overfull bs1 bs3.
Proof.
  intros H12. revert bs3. induction H12 as [|b1 b2 bs1 bs2 Hb _ IH]; intros bs3 H23.
  - by inversion H23.
  - inversion H23 as [|? b3 ? bs3' Hb' H23']; subst. constructor; [|by apply IH].
    intros H. by apply Hb', Hb.
Qed.

Lemma overfull_bucket_set name param b : overfull b -> overfull (bucket_set name param b).
Proof.
  destruct b as [items|km expected items]; [done|]. simpl.
  pose proof (dict_set_length name param items). lia.
Qed.

Lemma overfull_not_ready b : overfull b -> ready b = false.
Proof.
  destruct b as [items|km expected items]; [done|]. simpl. intros H.
  destruct (size expected =? length items) eqn:Heq; [|done].
  apply Nat.eqb_eq in Heq. lia.
Qed.

Lemma set_in_first_match_stays_overfull name param bs :
  Forall2 stays_overfull bs (set_in_first_match name param bs).
Proof.
  induction bs as [|b bs IH]; simpl; [constructor|].
  destruct (bucket_match b name).
  - constructor; [intros H; by apply overfull_bucket_set | apply stays_overfull_refl].
  - constructor; [by intros ? | done].
Qed.

Lemma sort_into_buckets_stays_overfull items default bs default' bs' :
  sort_into_buckets items default bs = Ok (default', bs') ->
  Forall2 stays_overfull bs bs'.
Proof.
  revert default bs. induction items as [|[name param] items IH]; intros default bs;
      simpl.
  - intros [= _ <-]. apply stays_overfull_refl.
  - destruct (_ =? 0); [apply IH|]. destruct (_ =? 1); [|done]. intros H%IH.
    eapply stays_overfull_trans; [apply set_in_first_match_stays_overfull | done].
Qed.

Lemma cleared_if_ready_stays_overfull bs :
  Forall2 stays_overfull bs (cleared_if_ready <$> bs).
Proof.
  induction bs as [|b bs IH]; constructor; [|done].
  intros H. unfold cleared_if_ready. by rewrite (overfull_not_ready b H).
Qed.

Lemma Exists_stays_overfull bs bs' :
  Forall2 stays_overfull bs bs' -> Exists overfull bs -> Exists overfull bs'.
Proof.
  induction 1 as [|b b' bs bs' Hb _ IH]; [done|].
  intros [H|H]%Exists_cons; [left; by apply Hb | right; by apply IH].
Qed.

Lemma same_bucket_empty bs bs' :
  Forall2 same_bucket bs bs' ->
  (forall b, b ∈ bs' -> bucket_items b = []) ->
  bs' = bucket_clear <$> bs.
Proof.
  induction 1 as [|b b' bs bs' [items ->] _ IH]; intros Hempty; [done|].
  rewrite fmap_cons, <- IH.
  - f_equal. specialize (Hempty _ (list_elem_of_here _ _)).
    unfold bucket_clear. destruct b; simpl in *; by subst.
  - intros b0 Hb0. apply Hempty. by right.
Qed.

Section LoopProperties.

Variable torch_to : TorchToT.
Variable state_dict_converter : HFStateDictConverterT.
Variable tensor_to_param_converter : option TensorToParameterConverterT.
Variable dev : option Device.
Variable torch_load : string -> result (dict Tensor).

Local Abbreviation load_one :=
  (load_state_dict torch_to state_dict_converter tensor_to_param_converter dev).
Local Abbreviation load_all :=
  (load_state_dicts torch_to state_dict_converter tensor_to_param_converter dev
      torch_load).
Local Abbreviation load :=
  (load_model_from_checkpoints torch_to state_dict_converter tensor_to_param_converter dev
     torch_load).

Lemma load_state_dicts_buckets filepaths st st' :
  load_all filepaths st = Ok st' ->
  Forall2 same_bucket (deserialization_buckets st) (deserialization_buckets st') /\
  Forall2 stays_overfull (deserialization_buckets st) (deserialization_buckets st') /\
  (default_bucket st = DefaultParamBucket [] ->
   default_bucket st' = DefaultParamBucket []).
Proof.
  apply (load_state_dicts_invariant torch_to state_dict_converter
      tensor_to_param_converter dev
           torch_load
           (fun st st' =>
              Forall2 same_bucket (deserialization_buckets st)
                (deserialization_buckets st') /\
              Forall2 stays_overfull (deserialization_buckets st)
                (deserialization_buckets st') /\
              (default_bucket st = DefaultParamBucket [] ->
               default_bucket st' = DefaultParamBucket []))).
  - intros s. split_and!; [apply same_bucket_refl | apply stays_overfull_refl | done].
  - intros s1 s2 s3 (Ha & Hb & Hc) (Ha' & Hb' & Hc'). split_and!.
    + by eapply same_bucket_trans.
    + by eapply stays_overfull_trans.
    + auto.
  - intros s sd s' (default & buckets & m & seen & Hsort & _ & ->)%load_state_dict_ok.
    cbn [deserialization_buckets default_bucket].
    pose proof (sort_into_buckets_same_bucket _ _ _ _ _ Hsort) as [Hd Hbs].
    split_and!.
    + eapply same_bucket_trans; [done | apply cleared_if_ready_same_bucket].
    + eapply stays_overfull_trans;
        [by eapply sort_into_buckets_stays_overfull
        | apply cleared_if_ready_stays_overfull].
    + intros Hdef. rewrite Hdef in Hd. by destruct Hd as [items ->].
Qed.

(** X1. A checkpoint that cannot be read ends the call with the exception
    of [torch.load], once the checkpoints before it are loaded. *)
Theorem unreadable_checkpoint_ends_the_load m buckets before path after st e :
  load_all before (initial_state m buckets) = Ok st ->
  torch_load path = Err e ->
  load m (before ++ path :: after) buckets = Err e.
Proof.
  intros Hbefore Hpath. unfold load_model_from_checkpoints.
  fold (initial_state m buckets).
  rewrite load_state_dicts_app, Hbefore. simpl. by rewrite Hpath.
Qed.

(** X2. After an iteration that returns, [seen_keys] holds what it held and
    the keys of every state dict that the iteration converted: of the
    default bucket and of the ready buckets, whether the model has a slot
    for them or not.  No key leaves [seen_keys]. *)
Theorem seen_keys_after_iteration st state_dict default buckets st' :
  sort_into_buckets state_dict (default_bucket st) (deserialization_buckets st)
    = Ok (default, buckets) ->
  load_one st state_dict = Ok st' ->
  seen_keys st' =
    seen_keys st ∪
    converted_keys state_dict_converter
      (bucket_items default ::
         (bucket_items <$> filter (fun b => ready b = true) buckets)) /\
  seen_keys st ⊆ seen_keys st'.
Proof.
  intros Hsort (default' & buckets' & m & seen & Hsort' & Hin & ->)%load_state_dict_ok.
  rewrite Hsort in Hsort'. injection Hsort' as <- <-.
  apply in_order_seen in Hin as ->. cbn [seen_keys]. split; [done|].
  apply union_subseteq_l.
Qed.

(** X3. A call that returns leaves the buckets of the caller as they were
    configured, each empty, and its own default bucket empty. *)
Theorem returned_buckets_are_empty m filepaths buckets st :
  load m filepaths buckets = Ok st ->
  deserialization_buckets st = bucket_clear <$> buckets /\
  default_bucket st = DefaultParamBucket [].
Proof.
  unfold load_model_from_checkpoints. fold (initial_state m buckets).
  intros (st0 & Hloop & Hcheck)%bind_ok.
  apply load_state_dicts_buckets in Hloop as (Hsame & _ & Hdefault).
  unfold check_loaded in Hcheck.
  destruct (negb _); [done|].
  destruct (existsb _ _) eqn:Hex; [done|]. injection Hcheck as <-.
  split; [|by apply Hdefault].
  cbn [initial_state deserialization_buckets] in Hsame.
  apply not_true_iff_false in Hex. rewrite existsb_exists in Hex.
  assert (Hempty : forall b, b ∈ deserialization_buckets st0 -> bucket_items b = []).
  { intros b Hb. destruct (bucket_items b) eqn:Hitems; [done|].
    destruct Hex. exists b. rewrite Hitems. by rewrite <- list_elem_of_In. }
  by apply same_bucket_empty.
Qed.

(** X4. A bucket that holds more tensors than it expects fragments is
    never ready again and is never cleared: once the loop has left such a
    bucket behind, the call raises whatever checkpoints follow. *)
Theorem overfull_bucket_fails_the_load m buckets before after st :
  load_all before (initial_state m buckets) = Ok st ->
  Exists overfull (deserialization_buckets st) ->
  is_ok (load m (before ++ after) buckets) = false.
Proof.
  intros Hbefore Hover. unfold load_model_from_checkpoints.
  fold (initial_state m buckets).
  rewrite load_state_dicts_app, Hbefore. cbn [mbind result_bind].
  destruct (load_all after st) as [st'|e] eqn:Hafter; [|done].
  apply load_state_dicts_buckets in Hafter as (_ & Hstay & _).
  apply (Exists_stays_overfull _ _ Hstay) in Hover.
  cbn [mbind result_bind]. unfold check_loaded.
  destruct (negb _); [done|].
  assert (Hex : existsb (fun bucket => negb (length (bucket_items bucket) =? 0))
                  (deserialization_buckets st') = true).
  { apply existsb_exists. apply Exists_exists in Hover as (b & Hb & Hfull).
    exists b. split; [by apply list_elem_of_In|].
    destruct b as [items|km expected items]; [done|]. simpl in *.
    destruct items; [simpl in Hfull; lia | done]. }
  by rewrite Hex.
Qed.

End LoopProperties.

(** ** Sorting into the buckets *)

Lemma dict_get_set {V} (k k' : string) (v : V) (d : dict V) :
  dict_get k (dict_set k' v d) = if decide (k' = k) then Some v else dict_get k d.
Proof.
  induction d as [|[k0 v0] d IH]; cbn [dict_set dict_get]; [done|].
  destruct (decide (k0 = k')) as [->|Hne]; cbn [dict_get].
  - by destruct (decide (k' = k)).
  - rewrite IH. destruct (decide (k0 = k)) as [->|]; [|done].
    by rewrite decide_False.
Qed.

Lemma bucket_items_with_items b items : bucket_items (with_items b items) = items.
Proof. by destruct b. Qed.

Lemma stored_set_other key tensor name param bs :
  name <> key -> stored key tensor bs ->
  stored key tensor (set_in_first_match name param bs).
Proof.
  intros Hne. induction bs as [|b0 bs IH]; intros (b & Hb & Hmatch & Hget).
  { by apply not_elem_of_nil in Hb. }
  cbn [set_in_first_match]. destruct (bucket_match b0 name) eqn:Hb0.
  - apply elem_of_cons in Hb as [->|Hb].
    + exists (bucket_set name param b0). split_and!; [left | |].
      * unfold bucket_set. by rewrite <- same_match_with_items.
      * unfold bucket_set. rewrite bucket_items_with_items, dict_get_set.
        by rewrite decide_False.
    + exists b. split_and!; [by right | done | done].
  - apply elem_of_cons in Hb as [->|Hb].
    + exists b0. split_and!; [left | done | done].
    + destruct IH as (b' & Hb' & Hm' & Hg'); [by exists b|].
      exists b'. split_and!; [by right | done | done].
Qed.

Lemma stored_set_same key tensor bs :
  num_matching bs key <> 0 -> stored key tensor (set_in_first_match key tensor bs).
Proof.
  unfold num_matching. induction bs as [|b0 bs IH]; [done|].
  rewrite filter_cons. cbn [set_in_first_match].
  destruct (bucket_match b0 key) eqn:Hb0.
  - intros _. exists (bucket_set key tensor b0). split_and!; [left | |].
    + unfold bucket_set. by rewrite <- same_match_with_items.
    + unfold bucket_set. rewrite bucket_items_with_items, dict_get_set.
      by rewrite decide_True.
  - rewrite decide_False by (cbn; tauto). intros Hn.
    destruct (IH Hn) as (b' & Hb' & Hm' & Hg').
    exists b'. split_and!; [by right | done | done].
Qed.

(** Sorting the pairs of other keys leaves what is held under [key]. *)
Lemma sort_into_buckets_frame key items :
  key ∉ dict_keys items ->
  forall default bs default' bs',
    sort_into_buckets items default bs = Ok (default', bs') ->
    dict_get key (bucket_items default') = dict_get key (bucket_items default) /\
    forall tensor, stored key tensor bs -> stored key tensor bs'.
Proof.
  induction items as [|[name param] items IH]; intros Hkey default bs default' bs'.
  { by intros [= <- <-]. }
  unfold dict_keys in Hkey. rewrite fmap_cons in Hkey.
  apply not_elem_of_cons in Hkey as [Hne Hkey]. cbn [fst] in Hne.
  cbn [sort_into_buckets]. destruct (_ =? 0).
  - intros [Hd Hs]%IH; [|done]. split; [|done].
    rewrite Hd. unfold bucket_set. rewrite bucket_items_with_items, dict_get_set.
    by rewrite decide_False.
  - destruct (_ =? 1); [|done]. intros [Hd Hs]%IH; [|done]. split; [done|].
    intros tensor Hst. by apply Hs, stored_set_other.
Qed.

(** X5. Sorting a state dict without a conflict puts every pair where the
    conversion looks for it: a pair that no bucket matches is in the
    default bucket under its key, and a pair that a bucket matches is in a
    bucket that matches its key. *)
Theorem sorted_pairs_are_stored items default bs default' bs' key tensor :
  sort_into_buckets items default bs = Ok (default', bs') ->
  NoDup (dict_keys items) ->
  (key, tensor) ∈ items ->
  (num_matching bs key = 0 ->
   dict_get key (bucket_items default') = Some tensor) /\
  (num_matching bs key <> 0 -> stored key tensor bs').
Proof.
  revert default bs. induction items as [|[name param] items IH];
    intros default bs Hsort Hnd Hin.
  { by apply not_elem_of_nil in Hin. }
  unfold dict_keys in Hnd. rewrite fmap_cons in Hnd.
  apply NoDup_cons in Hnd as [Hfresh Hnd]. cbn [fst] in Hfresh.
  cbn [sort_into_buckets] in Hsort. fold (num_matching bs name) in Hsort.
  apply elem_of_cons in Hin as [[= -> ->]|Hin].
  - destruct (num_matching bs name =? 0) eqn:H0.
    + apply Nat.eqb_eq in H0.
      apply (sort_into_buckets_frame name) in Hsort as [Hd _]; [|done].
      split; [|done]. intros _. rewrite Hd. unfold bucket_set.
      rewrite bucket_items_with_items, dict_get_set. by rewrite decide_True.
    + apply Nat.eqb_neq in H0. destruct (num_matching bs name =? 1); [|done].
      apply (sort_into_buckets_frame name) in Hsort as [_ Hs]; [|done].
      split; [done|]. intros _. by apply Hs, stored_set_same.
  - destruct (num_matching bs name =? 0).
    + by apply (IH _ _ Hsort).
    + destruct (num_matching bs name =? 1); [|done].
      rewrite (num_matching_same bs (set_in_first_match name param bs) key)
        by apply set_in_first_match_same.
      by apply (IH _ _ Hsort).
Qed.

(** X6. Without a checkpoint the call returns only for a model without
    parameters and persistent buffers whose buckets are empty. *)
Theorem load_of_no_checkpoint (torch_to : TorchToT)
    (state_dict_converter : HFStateDictConverterT)
    tensor_to_param_converter dev torch_load m buckets :
  is_ok (load_model_from_checkpoints torch_to state_dict_converter
           tensor_to_param_converter dev torch_load m [] buckets) = true <->
  state_dict_keys m = [] /\ Forall (fun b => bucket_items b = []) buckets.
Proof.
  unfold load_model_from_checkpoints. cbn [load_state_dicts mbind result_bind].
  unfold check_loaded. cbn [seen_keys deserialization_buckets].
  rewrite difference_empty_L.
  assert (Hsize : (size (list_to_set (state_dict_keys m) : gset string) =? 0) = true
                  <-> state_dict_keys m = []).
  { rewrite Nat.eqb_eq, size_empty_iff. split.
    - destruct (state_dict_keys m) as [|key keys]; [done|]. intros Hempty.
      exfalso. apply (not_elem_of_empty (C:=gset string) key). rewrite <- Hempty.
      apply elem_of_list_to_set. left.
    - by intros ->. }
  assert (Hbuckets : existsb (fun bucket => negb (length (bucket_items bucket) =? 0))
                       buckets = false
                     <-> Forall (fun b => bucket_items b = []) buckets).
  { rewrite <- not_true_iff_false, existsb_exists, Forall_forall. split.
    - intros Hnone b Hb. destruct (bucket_items b) eqn:Hitems; [done|].
      destruct Hnone. exists b. rewrite Hitems. by rewrite <- list_elem_of_In.
    - intros Hall (b & Hb & Hlen). rewrite <- list_elem_of_In in Hb.
      by rewrite (Hall b Hb) in Hlen. }
  destruct (size _ =? 0) eqn:Hs; cbn [negb].
  - destruct (existsb _ _) eqn:He; cbn [is_ok].
    + split; [done|]. intros [_ Hall]. apply Hbuckets in Hall. congruence.
    + split; [intros _|done]. split; [by apply Hsize | by apply Hbuckets].
  - split; [done|]. intros [Hkeys _]. apply Hsize in Hkeys. congruence.
Qed.

(** ** The installation in one module *)

Lemma dict_keys_set {V} (k k' : string) (v : V) (d : dict V) :
  k ∈ dict_keys d -> k ∈ dict_keys (dict_set k' v d).
Proof.
  intros Hin. destruct (decide (k ∈ dict_keys (dict_set k' v d))) as [|Hn]; [done|].
  apply dict_get_None in Hn. rewrite dict_get_set in Hn.
  destruct (decide (k' = k)); [done|]. by apply dict_get_None in Hn.
Qed.

Lemma add_buffers_clash non_persistent module_prefix buffers :
  forall local,
    (exists name, name ∈ dict_keys buffers /\ name ∈ dict_keys local) ->
    exists name,
      add_buffers non_persistent module_prefix buffers local
      = Err (KeyError_parameter_and_buffer name module_prefix).
Proof.
  induction buffers as [|[name0 buf] buffers IH]; intros local (name & Hb & Hl).
  { by apply not_elem_of_nil in Hb. }
  cbn [add_buffers]. destruct (dict_mem name0 local) eqn:Hmem; [by exists name0|].
  apply dict_mem_false in Hmem.
  unfold dict_keys in Hb. rewrite fmap_cons in Hb.
  apply elem_of_cons in Hb as [->|Hb]; [done|].
  destruct (decide (name0 ∉ non_persistent)).
  - apply IH. exists name. split; [done | by apply dict_keys_set].
  - apply IH. by exists name.
Qed.

(** X7. When a name of a module is registered both as a parameter and as a
    buffer, persistent or not, and the state dict holds some key under the
    prefix of the module, [apply] raises the [KeyError] of line 239 before it
    installs anything; without a key under the prefix the module is
    returned as it is. *)
Theorem name_of_parameter_and_buffer_raises state_dict converter dev m module_prefix
    name :
  name ∈ dict_keys (_parameters m) ->
  name ∈ dict_keys (_buffers m) ->
  ((exists key, key ∈ dict_keys state_dict /\
                startswith key (module_prefix +:+ ".") = true) ->
   exists clash,
     apply state_dict converter dev (mkModuleIterator m module_prefix)
     = Err (KeyError_parameter_and_buffer clash module_prefix)) /\
  ((forall key, key ∈ dict_keys state_dict ->
                startswith key (module_prefix +:+ ".") = false) ->
   apply state_dict converter dev (mkModuleIterator m module_prefix) = Ok m).
Proof.
  intros Hp Hb. unfold apply. cbn [module prefix]. split.
  - intros (key & Hkey & Hstart).
    apply list_elem_of_fmap in Hkey as ([k t] & -> & Hin). cbn [fst] in Hstart.
    destruct (length _ =? 0) eqn:Hlen.
    { apply Nat.eqb_eq, nil_length_inv in Hlen.
      assert (Hf : (k, t) ∈ filter (fun kv : string * Tensor =>
                                      startswith kv.1 (module_prefix +:+ "."))
                                   state_dict).
      { apply list_elem_of_filter. split; [by apply Is_true_true | done]. }
      rewrite Hlen in Hf. by apply not_elem_of_nil in Hf. }
    destruct (add_buffers_clash (_non_persistent_buffers_set m) module_prefix
                (_buffers m)
                ((fun kv : string * option Param => (kv.1, a_parameter <$> kv.2)) <$>
                   _parameters m)) as [clash Hclash].
    { exists name. split; [done|]. unfold dict_keys.
      by rewrite <- list_fmap_compose. }
    exists clash. unfold local_params_and_buffers. cbn [module prefix].
    by rewrite Hclash.
  - intros Hnone.
    assert (Hnil : filter (fun kv : string * Tensor =>
                             startswith kv.1 (module_prefix +:+ "."))
                     state_dict = []).
    { clear Hp Hb. induction state_dict as [|[k t] sd IH]; [done|].
      rewrite filter_cons, decide_False.
      - apply IH. intros key Hkey. apply Hnone. by right.
      - cbn [fst]. rewrite (Hnone k) by left. by intros []. }
    by rewrite Hnil.
Qed.

Lemma validate_ok replaced replacement name :
  _validate_replacement replaced replacement name = Ok () <->
  shape replaced = shape replacement /\
  tensor_dtype replaced = tensor_dtype replacement.
Proof.
  unfold _validate_replacement.
  destruct (decide (shape replaced <> shape replacement)) as [Hs|Hs].
  { split; [done | by intros [? _]]. }
  apply dec_stable in Hs.
  destruct (decide (tensor_dtype replaced <> tensor_dtype replacement)) as [Hd|Hd].
  { split; [done | by intros [_ ?]]. }
  apply dec_stable in Hd. done.
Qed.

Lemma mapM_dict_get {V} (f : string * V -> option (string * V)) (l l' : dict V) :
  (forall kv kv', f kv = Some kv' -> kv'.1 = kv.1) ->
  mapM f l = Some l' ->
  forall key,
    dict_get key l' = (v ← dict_get key l; snd <$> f (key, v)).
Proof.
  intros Hf H%mapM_Some key.
  induction H as [|[k v] [k' v'] l l' Hstep _ IH]; [done|].
  pose proof (Hf _ _ Hstep) as Hk. cbn [fst] in Hk. subst k'.
  cbn [dict_get]. destruct (decide (k = key)) as [->|Hne]; [|done].
  cbn [mbind option_bind]. by rewrite Hstep.
Qed.

Lemma mapM_elem_of {A B} (f : A -> option B) (l : list A) (l' : list B) (x : A) :
  mapM f l = Some l' -> x ∈ l -> is_Some (f x).
Proof.
  intros H Hx. assert (Hall : Forall (is_Some ∘ f) l).
  { apply mapM_is_Some_1. by rewrite H. }
  rewrite Forall_forall in Hall. by apply Hall.
Qed.

(** X8. What [apply] leaves of a module when it returns, under the default
    tensor-to-parameter converter: a parameter whose key is in the state
    dict held data of the shape and dtype of the replacement, and its slot
    now holds what [Parameter.to] returned for a new parameter on the
    replacement with the [requires_grad] of the old one, which without a
    device is that new parameter itself; a persistent buffer whose key is in
    the state dict held data of that shape and dtype and is now the
    replacement itself, for which [to] is not called; every other parameter
    and buffer, the set of non-persistent buffers and the submodules are as
    they were. *)
Theorem apply_installs_the_replacements (torch_to : TorchToT) state_dict dev m
    module_prefix m' :
  wf_module m = true ->
  apply state_dict (default_tensor_to_parameter_converter torch_to) dev
    (mkModuleIterator m module_prefix) = Ok m' ->
  (forall name v replacement,
     (name, v) ∈ _parameters m ->
     dict_get ((module_prefix +:+ ".") +:+ name) state_dict = Some replacement ->
     exists old_param,
       v = Some old_param /\
       shape (data old_param) = shape replacement /\
       tensor_dtype (data old_param) = tensor_dtype replacement /\
       exists new_param,
         parameter_to torch_to (mkParam replacement (requires_grad old_param)) dev
         = Ok new_param /\
         (dev = None -> new_param = mkParam replacement (requires_grad old_param)) /\
         dict_get name (_parameters m') = Some (Some new_param)) /\
  (forall name v replacement,
     (name, v) ∈ _buffers m ->
     name ∉ _non_persistent_buffers_set m ->
     dict_get ((module_prefix +:+ ".") +:+ name) state_dict = Some replacement ->
     exists old_buffer,
       v = Some old_buffer /\
       shape old_buffer = shape replacement /\
       tensor_dtype old_buffer = tensor_dtype replacement /\
       dict_get name (_buffers m') = Some (Some replacement)) /\
  (forall name,
     dict_get ((module_prefix +:+ ".") +:+ name) state_dict = None ->
     dict_get name (_parameters m') = dict_get name (_parameters m) /\
     dict_get name (_buffers m') = dict_get name (_buffers m)) /\
  (forall name,
     name ∈ _non_persistent_buffers_set m ->
     dict_get name (_buffers m') = dict_get name (_buffers m)) /\
  _non_persistent_buffers_set m' = _non_persistent_buffers_set m /\
  _modules m' = _modules m.
Proof.
  intros Hwf Happly.
  pose proof (wf_module_spec m Hwf) as (Hps & Hbs & _).
  pose proof (apply_returned state_dict _ dev module_prefix
                (default_converter_slot_local torch_to) m Hwf) as Hret.
  rewrite Happly in Hret. cbn [returned] in Hret. symmetry in Hret.
  unfold install_module in Hret.
  destruct (mapM _ (_parameters m)) as [ps'|] eqn:Hmp; [|done].
  destruct (mapM _ (_buffers m)) as [bs'|] eqn:Hmb; [|done].
  injection Hret as <-. cbn [_parameters _buffers _non_persistent_buffers_set _modules].
  pose proof (mapM_dict_get _ _ _ (install_parameter_key _ _ _ _) Hmp) as Hgp.
  pose proof (mapM_dict_get _ _ _ (install_buffer_key _ _ _) Hmb) as Hgb.
  split_and!; [| | | |done|done].
  - intros name v replacement Hin Hget.
    pose proof (mapM_elem_of _ _ _ _ Hmp Hin) as [kv' Hstep].
    rewrite (Hgp name), (proj2 (dict_get_Some name v _ Hps) Hin).
    cbn [mbind option_bind]. rewrite Hstep.
    rewrite install_parameter_eq, Hget in Hstep.
    destruct v as [old|]; [|done]. exists old.
    unfold default_tensor_to_parameter_converter in Hstep.
    cbn [_parameters dict_get] in Hstep. rewrite decide_True in Hstep by done.
    destruct (_validate_replacement _ _ _) as [[]|e] eqn:Hval; [|done].
    apply validate_ok in Hval as [Hshape Hdtype].
    cbn [mbind result_bind] in Hstep.
    destruct (parameter_to _ _ _) as [new_param|e] eqn:Hto; [|done].
    cbn in Hstep. injection Hstep as <-. split_and!; [done..|].
    exists new_param. split_and!; [done| |done].
    intros ->. cbn in Hto. by injection Hto as <-.
  - intros name v replacement Hin Hp Hget.
    pose proof (mapM_elem_of _ _ _ _ Hmb Hin) as [kv' Hstep].
    rewrite (Hgb name), (proj2 (dict_get_Some name v _ Hbs) Hin).
    cbn [mbind option_bind]. rewrite Hstep.
    rewrite install_buffer_eq, decide_False, Hget in Hstep by done.
    destruct v as [old|]; [|done]. exists old.
    destruct (_validate_replacement _ _ _) as [[]|e] eqn:Hval; [|done].
    apply validate_ok in Hval as [Hshape Hdtype].
    cbn in Hstep. injection Hstep as <-. done.
  - intros name Hget. split.
    + rewrite (Hgp name). destruct (dict_get name (_parameters m)) as [v|]; [|done].
      cbn [mbind option_bind]. by rewrite install_parameter_eq, Hget.
    + rewrite (Hgb name). destruct (dict_get name (_buffers m)) as [v|]; [|done].
      cbn [mbind option_bind]. rewrite install_buffer_eq, Hget.
      by destruct (decide _).
  - intros name Hnp. rewrite (Hgb name).
    destruct (dict_get name (_buffers m)) as [v|]; [|done].
    cbn [mbind option_bind]. by rewrite install_buffer_eq, decide_True.
Qed.

(** ** The installation in the module tree *)

Lemma install_parameter_kept state_dict converter dev module_prefix kv kv' :
  install_parameter state_dict converter dev module_prefix kv = Some kv' ->
  kv'.1 = kv.1 /\ (is_Some kv'.2 <-> is_Some kv.2).
Proof.
  destruct kv as [name v]. rewrite install_parameter_eq.
  destruct (dict_get _ _); [|by intros [= <-]].
  destruct v as [old|]; [|done]. destruct (returned _); [|done].
  intros [= <-]. cbn. split; [done|]. split; eauto.
Qed.

Lemma install_buffer_kept state_dict module_prefix non_persistent kv kv' :
  install_buffer state_dict module_prefix non_persistent kv = Some kv' ->
  kv'.1 = kv.1 /\ (is_Some kv'.2 <-> is_Some kv.2).
Proof.
  destruct kv as [name v]. rewrite install_buffer_eq.
  destruct (decide _); [by intros [= <-]|].
  destruct (dict_get _ _); [|by intros [= <-]].
  destruct v as [old|]; [|done]. destruct (returned _); [|done].
  intros [= <-]. cbn. split; [done|]. split; eauto.
Qed.

Lemma mapM_filter_keys {V} (f : string * option V -> option (string * option V))
    (R : string * option V -> Prop) `{!forall kv, Decision (R kv)}
    (key_prefix : string) (l l' : dict (option V)) :
  (forall kv kv', f kv = Some kv' -> kv'.1 = kv.1 /\ (R kv' <-> R kv)) ->
  mapM f l = Some l' ->
  ((fun kv : string * option V => key_prefix +:+ kv.1) <$> filter R l')
  = ((fun kv : string * option V => key_prefix +:+ kv.1) <$> filter R l).
Proof.
  intros Hf Hm%mapM_Some. induction Hm as [|kv kv' l l' Hstep _ IH]; [done|].
  apply Hf in Hstep as [Hk Hs]. rewrite !filter_cons.
  destruct (decide (R kv')) as [Hyes|Hno].
  - rewrite decide_True by (by apply Hs).
    rewrite !fmap_cons, IH. by rewrite Hk.
  - rewrite decide_False by (by rewrite <- Hs). done.
Qed.

Section TreeProperties.

Variable state_dict : dict Tensor.
Variable converter : TensorToParameterConverterT.
Variable dev : option Device.

(** The keys of [state_dict()] are those of before. *)
Lemma install_tree_state_dict_keys :
  forall m key_prefix module_prefix m',
    install_tree state_dict converter dev module_prefix m = Some m' ->
    state_dict_keys_at key_prefix m' = state_dict_keys_at key_prefix m.
Proof.
  induction m as [ps bs np ch IH] using Module_tree_ind.
  intros key_prefix module_prefix m'. rewrite install_tree_unfold.
  unfold install_module. cbn [_parameters _buffers _non_persistent_buffers_set _modules].
  destruct (mapM _ ps) as [ps'|] eqn:Hps; [|done].
  destruct (mapM _ bs) as [bs'|] eqn:Hbs; [|done]. cbn [mbind option_bind].
  destruct (mapM _ ch) as [ch'|] eqn:Hch; [|done]. cbn [mbind option_bind set_modules
    _parameters _buffers _non_persistent_buffers_set].
  intros [= <-]. unfold set_modules.
  cbn [state_dict_keys_at _parameters _buffers _non_persistent_buffers_set].
  f_equal; [|f_equal].
  { eapply (mapM_filter_keys _ _ key_prefix ps ps'); [|exact Hps].
    intros kv kv' [Hk Hs]%install_parameter_kept. done. }
  { eapply (mapM_filter_keys _ _ key_prefix bs bs'); [|exact Hbs].
    intros kv kv' [Hk Hs]%install_buffer_kept. by rewrite Hk, Hs. }
  apply mapM_Some in Hch. clear Hps Hbs.
  induction Hch as [|[name child] [name' child'] cs cs' Hstep _ IHch]; [done|].
  apply Forall_cons in IH as [Hc Hcs]. cbn [fst snd] in *.
  destruct (install_tree _ _ _ _ child) as [child''|] eqn:Hchild; [|done].
  injection Hstep as <- <-.
  by rewrite (Hc _ _ _ Hchild), IHch.
Qed.

End TreeProperties.

(** What [_emplace_module_state_dict] returns under the default converter. *)
Lemma emplace_default_returned (torch_to : TorchToT) m state_dict dev m' :
  wf_tree m = true ->
  _emplace_module_state_dict torch_to m state_dict None dev = Ok m' ->
  install_tree state_dict (default_tensor_to_parameter_converter torch_to) dev "" m =
      Some m'.
Proof.
  intros Hwf Hinstall.
  pose proof (apply_to_module_at_returned state_dict _ dev
                (default_converter_slot_local torch_to) m "" Hwf) as Hret.
  unfold _emplace_module_state_dict, apply_to_module in Hinstall.
  cbn [resolve_converter] in Hinstall. rewrite Hinstall in Hret.
  cbn [returned] in Hret. by symmetry.
Qed.

(** X9. Under the default tensor-to-parameter converter an installation
    that returns leaves the keys of [model.state_dict()] as they were and the
    module tree well formed: no parameter or buffer is added, removed or
    emptied. *)
Theorem installation_keeps_the_state_dict_keys (torch_to : TorchToT) m state_dict dev m' :
  wf_tree m = true ->
  _emplace_module_state_dict torch_to m state_dict None dev = Ok m' ->
  state_dict_keys m' = state_dict_keys m /\ wf_tree m' = true.
Proof.
  intros Hwf Hinstall%emplace_default_returned; [|done]. split.
  - by eapply install_tree_state_dict_keys.
  - by eapply install_tree_wf.
Qed.

(** ** Installing the same state dict again *)

Lemma install_parameter_again (torch_to : TorchToT) state_dict module_prefix kv kv' :
  install_parameter state_dict (default_tensor_to_parameter_converter torch_to) None
    module_prefix kv = Some kv' ->
  install_parameter state_dict (default_tensor_to_parameter_converter torch_to) None
    module_prefix kv' = Some kv'.
Proof.
  destruct kv as [name v]. rewrite install_parameter_eq.
  destruct (dict_get _ state_dict) as [replacement|] eqn:Hget.
  2:{ intros [= <-]. by rewrite install_parameter_eq, Hget. }
  destruct v as [old|]; [|done].
  unfold default_tensor_to_parameter_converter at 1. cbn [_parameters dict_get].
  rewrite decide_True by done.
  destruct (_validate_replacement _ _ _) as [[]|e] eqn:Hv; [|done].
  cbn [mbind result_bind parameter_to returned option_bind]. intros [= <-].
  rewrite install_parameter_eq, Hget.
  unfold default_tensor_to_parameter_converter. cbn [_parameters dict_get].
  rewrite decide_True by done.
  apply validate_ok in Hv as [Hs Hd].
  assert (Hagain : _validate_replacement
                     (data (mkParam replacement (requires_grad old)))
                     replacement module_prefix = Ok ())
    by (by apply validate_ok).
  by rewrite Hagain.
Qed.

Lemma install_buffer_again state_dict module_prefix non_persistent kv kv' :
  install_buffer state_dict module_prefix non_persistent kv = Some kv' ->
  install_buffer state_dict module_prefix non_persistent kv' = Some kv'.
Proof.
  destruct kv as [name v]. rewrite install_buffer_eq.
  destruct (decide (name ∈ non_persistent)) as [Hnp|Hp].
  { intros [= <-]. by rewrite install_buffer_eq, decide_True. }
  destruct (dict_get _ state_dict) as [replacement|] eqn:Hget.
  2:{ intros [= <-]. by rewrite install_buffer_eq, decide_False, Hget. }
  destruct v as [old|]; [|done].
  destruct (returned _) as [[]|]; [|done].
  cbn [mbind option_bind]. intros [= <-].
  rewrite install_buffer_eq, decide_False, Hget by done.
  assert (Hagain : _validate_replacement replacement replacement
                     (module_prefix +:+ "." +:+ name) = Ok ())
    by (by apply validate_ok).
  by rewrite Hagain.
Qed.

Lemma mapM_again {A} (f : A -> option A) (l l' : list A) :
  (forall x y, f x = Some y -> f y = Some y) ->
  mapM f l = Some l' -> mapM f l' = Some l'.
Proof.
  intros Hf H%mapM_Some. apply mapM_Some_2.
  induction H as [|x y l l' Hstep _ IH]; constructor; eauto.
Qed.

Lemma install_tree_again (torch_to : TorchToT) state_dict :
  forall m module_prefix m',
    install_tree state_dict (default_tensor_to_parameter_converter torch_to) None
      module_prefix m = Some m' ->
    install_tree state_dict (default_tensor_to_parameter_converter torch_to) None
      module_prefix m' = Some m'.
Proof.
  induction m as [ps bs np ch IH] using Module_tree_ind.
  intros module_prefix m'. rewrite install_tree_unfold.
  unfold install_module. cbn [_parameters _buffers _non_persistent_buffers_set _modules].
  destruct (mapM _ ps) as [ps'|] eqn:Hps; [|done].
  destruct (mapM _ bs) as [bs'|] eqn:Hbs; [|done]. cbn [mbind option_bind].
  destruct (mapM _ ch) as [ch'|] eqn:Hch; [|done]. cbn [mbind option_bind].
  intros [= <-]. unfold set_modules.
  cbn [_parameters _buffers _non_persistent_buffers_set].
  rewrite install_tree_unfold. unfold install_module.
  cbn [_parameters _buffers _non_persistent_buffers_set _modules].
  rewrite (mapM_again _ ps ps' (install_parameter_again _ _ _) Hps).
  rewrite (mapM_again _ bs bs' (install_buffer_again _ _ _) Hbs).
  cbn [mbind option_bind].
  assert (Hagain : mapM (fun nc : string * Module =>
                     child' ← install_tree state_dict
                                (default_tensor_to_parameter_converter torch_to) None
                                (child_prefix module_prefix nc.1) nc.2;
                     Some (nc.1, child')) ch' = Some ch').
  { apply mapM_Some in Hch. apply mapM_Some_2. clear Hps Hbs.
    induction Hch as [|[name child] [name' child'] cs cs' Hstep _ IHch]; [constructor|].
    apply Forall_cons in IH as [Hc Hcs]. cbn [fst snd] in *.
    destruct (install_tree _ _ _ _ child) as [child''|] eqn:Hchild; [|done].
    injection Hstep as <- <-. constructor; [|by apply IHch].
    cbn [fst snd]. by rewrite (Hc _ _ Hchild). }
  by rewrite Hagain.
Qed.

(** X10. Under the default tensor-to-parameter converter and without a
    device, installing a state dict that was installed without an exception a
    second time raises nothing and changes nothing: the validation of the
    second pass compares each replacement with itself.  (With a device the
    second pass calls [Parameter.to] again, of which nothing is known.) *)
Theorem installation_twice_is_installation_once (torch_to : TorchToT) m state_dict m' :
  wf_tree m = true ->
  _emplace_module_state_dict torch_to m state_dict None None = Ok m' ->
  _emplace_module_state_dict torch_to m' state_dict None None = Ok m'.
Proof.
  intros Hwf Hinstall%emplace_default_returned; [|done].
  apply returned_Some. unfold _emplace_module_state_dict, apply_to_module.
  cbn [resolve_converter].
  rewrite (apply_to_module_at_returned state_dict _ None
             (default_converter_slot_local torch_to))
    by (by eapply install_tree_wf).
  by eapply install_tree_again.
Qed.

(** ** The keys of the model over a whole load *)

Section DefaultConverterLoad.

Variable torch_to : TorchToT.
Variable state_dict_converter : HFStateDictConverterT.
Variable dev : option Device.
Variable torch_load : string -> result (dict Tensor).

Local Abbreviation in_order :=
  (convert_and_load_in_order torch_to state_dict_converter None dev).
Local Abbreviation load_all :=
  (load_state_dicts torch_to state_dict_converter None dev torch_load).
Local Abbreviation load :=
  (load_model_from_checkpoints torch_to state_dict_converter None dev torch_load).

Lemma in_order_keeps_keys state_dicts :
  forall m seen m' seen',
    wf_tree m = true ->
    in_order state_dicts m seen = Ok (m', seen') ->
    wf_tree m' = true /\ state_dict_keys m' = state_dict_keys m.
Proof.
  induction state_dicts as [|sd sds IH]; intros m seen m' seen' Hwf; simpl.
  { by intros [= <- _]. }
  intros H. apply bind_ok in H as ([m1 seen1] & Hsd & H).
  apply convert_and_load_ok in Hsd
    as (converted & _ & _ & [[_ ->]|[_ Hinstall]]); [by eapply IH|].
  - apply emplace_default_returned in Hinstall; [|done].
    destruct (IH _ _ _ _ (install_tree_wf _ _ _ _ _ _ Hwf Hinstall) H) as [Hwf' Hkeys].
    split; [done|]. rewrite Hkeys. by eapply install_tree_state_dict_keys.
Qed.

Lemma load_state_dicts_keeps_keys filepaths st st' :
  load_all filepaths st = Ok st' ->
  wf_tree (model st) = true ->
  wf_tree (model st') = true /\
  state_dict_keys (model st') = state_dict_keys (model st).
Proof.
  apply (load_state_dicts_invariant torch_to state_dict_converter None dev torch_load
           (fun st st' =>
              wf_tree (model st) = true ->
              wf_tree (model st') = true /\
              state_dict_keys (model st') = state_dict_keys (model st))).
  - done.
  - intros s1 s2 s3 H12 H23 Hwf. destruct (H12 Hwf) as [Hwf2 Hk2].
    destruct (H23 Hwf2) as [Hwf3 Hk3]. split; [done|]. by rewrite Hk3.
  - intros s sd s' (default & buckets & m & seen & _ & Hin & ->)%load_state_dict_ok Hwf.
    cbn [model]. by eapply in_order_keeps_keys.
Qed.

(** X11. Under the default tensor-to-parameter converter a call that returns
    leaves a model with the keys of [state_dict()] that were cached before
    the loop, and each of them is among the keys that were seen. *)
Theorem loaded_model_keys_were_seen m filepaths buckets st :
  wf_tree m = true ->
  load m filepaths buckets = Ok st ->
  wf_tree (model st) = true /\
  state_dict_keys (model st) = state_dict_keys m /\
  forall key, key ∈ state_dict_keys (model st) -> key ∈ seen_keys st.
Proof.
  intros Hwf H. unfold load_model_from_checkpoints in H.
  apply bind_ok in H as (st1 & Hloop & Hcheck).
  apply load_state_dicts_keeps_keys in Hloop as [Hwf1 Hkeys]; [|done].
  cbn [model] in Hkeys. unfold check_loaded in Hcheck.
  destruct (size _ =? 0) eqn:Hsize; [|done]. cbn [negb] in Hcheck.
  destruct (existsb _ _); [done|]. injection Hcheck as <-.
  split_and!; [done..|].
  intros key Hkey. apply Nat.eqb_eq, size_empty_inv in Hsize.
  rewrite Hkeys in Hkey.
  destruct (decide (key ∈ seen_keys st1)) as [|Hnot]; [done|].
  exfalso. apply (not_elem_of_empty (C:=gset string) key), Hsize.
  apply elem_of_difference. split; [|done]. by apply elem_of_list_to_set.
Qed.

End DefaultConverterLoad.

(** ** The exceptions of an installation *)

Lemma validate_error replaced replacement name e :
  _validate_replacement replaced replacement name = Err e -> replacement_error e.
Proof.
  unfold _validate_replacement.
  destruct (decide _); [by intros [= <-]|]. destruct (decide _); [by intros [= <-]|done].
Qed.

(** Under the default converter a slot is rejected with a [ValueError] of
    lines 250, 304 and 308, or with the exception of [Parameter.to]. *)
Lemma default_slot_failure_error (torch_to : TorchToT) dev m module_prefix state_dict e :
  wf_module m = true ->
  slot_failure (default_tensor_to_parameter_converter torch_to) dev m module_prefix
    state_dict e ->
  replacement_error e \/
  exists p d, dev = Some d /\ torch_to p d = Err e.
Proof.
  intros Hwf (name & replacement & _ & Hkind).
  pose proof (wf_module_spec m Hwf) as (Hps & _ & _).
  destruct Hkind as [[_ ->]|[(_ & _ & ->)|[(old & Hin & Hconv)|(old & _ & _ & Hval)]]].
  - by left.
  - by left.
  - unfold default_tensor_to_parameter_converter in Hconv.
    rewrite (proj2 (dict_get_Some name (Some old) _ Hps) Hin) in Hconv.
    destruct (_validate_replacement _ _ _) as [[]|e'] eqn:Hval.
    + cbn [mbind result_bind] in Hconv. destruct dev as [d|]; [|done].
      right. by eexists _, d.
    + injection Hconv as <-. left. by eapply validate_error.
  - left. by eapply validate_error.
Qed.

Lemma installation_errors (torch_to : TorchToT) m state_dict dev e :
  wf_tree m = true ->
  _emplace_module_state_dict torch_to m state_dict None dev = Err e ->
  replacement_error e \/
  exists p d, dev = Some d /\ torch_to p d = Err e.
Proof.
  intros Hwf H. unfold _emplace_module_state_dict, apply_to_module in H.
  cbn [resolve_converter] in H.
  apply (apply_to_module_at_raises state_dict _ dev
           (default_converter_slot_local torch_to)) in H
    as (m' & p' & Hat & Hfail); [|done].
  eapply default_slot_failure_error; [|done].
  by destruct (module_at_wf _ _ _ _ Hat Hwf).
Qed.

(** X12. On a module tree with the invariants of [torch.nn.Module] and under
    the default tensor-to-parameter converter, an installation that raises
    ends with an exception that rejects the state dict (no data in the
    slot, another size, another dtype) or with the exception that
    [Parameter.to] raised for the device.  The key error of line 239 and
    the assertions of lines 200, 282 and 291 are never raised. *)
Theorem installation_raises_only_replacement_errors (torch_to : TorchToT) m state_dict
    dev e :
  wf_tree m = true ->
  _emplace_module_state_dict torch_to m state_dict None dev = Err e ->
  replacement_error e \/
  exists p d, dev = Some d /\ torch_to p d = Err e.
Proof. apply installation_errors. Qed.

(** ** The checkpoints that follow an exception *)

Lemma load_state_dicts_ext (torch_to : TorchToT) state_dict_converter
    tensor_to_param_converter dev
    (torch_load torch_load' : string -> result (dict Tensor)) filepaths :
  (forall path, path ∈ filepaths -> torch_load' path = torch_load path) ->
  forall st,
    load_state_dicts torch_to state_dict_converter tensor_to_param_converter dev
        torch_load'
      filepaths st
    = load_state_dicts torch_to state_dict_converter tensor_to_param_converter dev
        torch_load
        filepaths st.
Proof.
  induction filepaths as [|path rest IH]; intros Hsame st; [done|].
  cbn [load_state_dicts]. rewrite (Hsame path) by left.
  destruct (torch_load path) as [sd|e]; [|done]. cbn [mbind result_bind].
  destruct (load_state_dict torch_to _ _ _ st sd) as [st1|e]; [|done]. cbn [mbind
      result_bind].
  apply IH. intros p Hp. apply Hsame. by right.
Qed.

(** X13. The checkpoints are read one by one as the loop reaches them: once
    an iteration has raised, the call ends with that exception whatever the
    paths that follow hold, readable or not. *)
Theorem checkpoints_after_an_exception_are_not_read (torch_to : TorchToT)
    (state_dict_converter : HFStateDictConverterT)
    (tensor_to_param_converter : option TensorToParameterConverterT)
    (dev : option Device) (torch_load torch_load' : string -> result (dict Tensor))
    m buckets before after e :
  (forall path, path ∈ before -> torch_load' path = torch_load path) ->
  load_state_dicts torch_to state_dict_converter tensor_to_param_converter dev torch_load
    before (initial_state m buckets) = Err e ->
  load_model_from_checkpoints torch_to state_dict_converter tensor_to_param_converter dev
    torch_load' m (before ++ after) buckets = Err e.
Proof.
  intros Hsame Hraise. unfold load_model_from_checkpoints.
  fold (initial_state m buckets).
  by rewrite load_state_dicts_app, (load_state_dicts_ext _ _ _ _ torch_load), Hraise.
Qed.

(** ** The exceptions of a load *)

Lemma sort_into_buckets_error items e :
  forall default bs, sort_into_buckets items default bs = Err e -> loader_error e.
Proof.
  induction items as [|[name param] items IH]; intros default bs; [done|].
  cbn [sort_into_buckets].
  destruct (_ =? 0) eqn:H0; [apply IH|]. destruct (_ =? 1) eqn:H1; [apply IH|].
  intros [= <-]. apply Nat.eqb_neq in H0, H1. cbn. lia.
Qed.

Lemma replacement_error_loader_error e : replacement_error e -> loader_error e.
Proof. by destruct e. Qed.

Section DefaultConverterErrors.

Variable torch_to : TorchToT.
Variable state_dict_converter : HFStateDictConverterT.
Variable dev : option Device.
Variable torch_load : string -> result (dict Tensor).

Local Abbreviation in_order :=
  (convert_and_load_in_order torch_to state_dict_converter None dev).
Local Abbreviation load_one :=
  (load_state_dict torch_to state_dict_converter None dev).
Local Abbreviation load_all :=
  (load_state_dicts torch_to state_dict_converter None dev torch_load).
Local Abbreviation load :=
  (load_model_from_checkpoints torch_to state_dict_converter None dev torch_load).

(** The state dict converter or [Parameter.to] raised [e]. *)
Local Abbreviation raised_by_a_callee e :=
  ((exists state_dict, state_dict_converter state_dict = Err e) \/
   (exists p d, dev = Some d /\ torch_to p d = Err e)).

Lemma in_order_error state_dicts e :
  forall m seen,
    wf_tree m = true -> in_order state_dicts m seen = Err e ->
    raised_by_a_callee e \/ replacement_error e.
Proof.
  induction state_dicts as [|sd sds IH]; intros m seen Hwf; [done|].
  cbn [convert_and_load_in_order].
  destruct (convert_and_load_state_dict torch_to _ _ _ m sd seen)
    as [[m1 seen1]|e1] eqn:Hsd.
  - cbn [mbind result_bind]. apply IH.
    apply convert_and_load_ok in Hsd
      as (converted & _ & _ & [[_ ->]|[_ Hinstall]]); [done|].
    apply emplace_default_returned in Hinstall; [|done].
    by eapply install_tree_wf.
  - intros [= <-]. clear IH. unfold convert_and_load_state_dict in Hsd.
    destruct (state_dict_converter sd) as [converted|e2] eqn:Hconv.
    2:{ injection Hsd as <-. left. left. by exists sd. }
    cbn [mbind result_bind] in Hsd.
    destruct (length converted =? 0); [done|].
    destruct (_emplace_module_state_dict torch_to _ _ _ _) as [m2|e2] eqn:Hinstall;
      [done|].
    injection Hsd as <-.
    destruct (installation_errors _ _ _ _ _ Hwf Hinstall) as [He|He];
      [by right | left; by right].
Qed.

Lemma load_state_dict_error st state_dict e :
  wf_tree (model st) = true -> load_one st state_dict = Err e ->
  raised_by_a_callee e \/ loader_error e.
Proof.
  intros Hwf. rewrite load_state_dict_in_order.
  destruct (sort_into_buckets _ _ _) as [[default buckets]|e1] eqn:Hsort.
  2:{ intros [= <-]. right. by eapply sort_into_buckets_error. }
  cbn [mbind result_bind].
  destruct (in_order _ _ _) as [[m seen]|e1] eqn:Hin; [done|].
  intros [= <-]. destruct (in_order_error _ _ _ _ Hwf Hin) as [He|He]; [by left|].
  right. by apply replacement_error_loader_error.
Qed.

Lemma load_state_dicts_error filepaths e :
  forall st,
    wf_tree (model st) = true ->
    load_all filepaths st = Err e ->
    (exists path, path ∈ filepaths /\ torch_load path = Err e) \/
    raised_by_a_callee e \/ loader_error e.
Proof.
  induction filepaths as [|path rest IH]; intros st Hwf; [done|].
  cbn [load_state_dicts].
  destruct (torch_load path) as [sd|e1] eqn:Hread.
  2:{ intros [= <-]. left. exists path. split; [left | done]. }
  cbn [mbind result_bind].
  destruct (load_one st sd) as [st1|e1] eqn:Hone.
  2:{ intros [= <-]. right. by eapply load_state_dict_error. }
  cbn [mbind result_bind]. intros H.
  apply load_state_dict_ok in Hone as (default & bs & m & seen & _ & Hin & ->).
  apply in_order_keeps_keys in Hin as [Hwf1 _]; [|done].
  destruct (IH (mkLoadState m seen _ _) Hwf1 H) as [(p & Hp & He)|He]; [|by right].
  left. exists p. split; [by right | done].
Qed.

(** X14. On a model with the invariants of [torch.nn.Module] and under the
    default tensor-to-parameter converter, a call that raises ends with
    the exception of a callee (of [torch.load] for one of its paths, of the
    state dict converter, of [Parameter.to] for the device) or with one of
    the exceptions of lines 154, 171, 174, 250, 304 and 308; the exception
    of line 154 carries a count above one and that of line 171 a set of
    keys that is not empty. *)
Theorem load_raises_only_its_own_exceptions m filepaths buckets e :
  wf_tree m = true ->
  load m filepaths buckets = Err e ->
  (exists path, path ∈ filepaths /\ torch_load path = Err e) \/
  (exists state_dict, state_dict_converter state_dict = Err e) \/
  (exists p d, dev = Some d /\ torch_to p d = Err e) \/
  loader_error e.
Proof.
  intros Hwf. unfold load_model_from_checkpoints.
  destruct (load_state_dicts torch_to _ _ _ _ _ _) as [st|e1] eqn:Hloop.
  2:{ intros [= <-]. eapply load_state_dicts_error in Hloop; [|done]. tauto. }
  cbn [mbind result_bind]. unfold check_loaded.
  destruct (size _ =? 0) eqn:Hsize; cbn [negb].
  - destruct (existsb _ _); [|done]. intros [= <-]. by do 3 right.
  - intros [= <-]. do 3 right. cbn. intros Hempty. rewrite Hempty in Hsize.
    by rewrite size_empty in Hsize.
Qed.

End DefaultConverterErrors.

(** ** The further properties at example values *)

(** The second of three paths cannot be read. *)
Lemma unreadable_checkpoint_ends_the_load_witness :
  load_state_dicts example_torch_to same_names None None example_torch_load
      ["model-00001.bin"]
    (initial_state example_model [])
  = Ok (mkLoadState
          (mkModule [] [] ∅
             [("linear",
               mkModule [("weight", Some (mkParam new_weight true)); ("bias", None)]
                 [] ∅ []);
              ("norm", batch_norm)])
          {["linear.weight"]} (DefaultParamBucket []) []) /\
  example_torch_load "missing.bin" = Err (ExternalError "No such file") /\
  load_model_from_checkpoints example_torch_to same_names None None example_torch_load
      example_model
    ["model-00001.bin"; "missing.bin"; "model-00002.bin"] []
  = Err (ExternalError "No such file").
Proof.
  assert (H1 : load_state_dicts example_torch_to same_names None None example_torch_load
                 ["model-00001.bin"] (initial_state example_model [])
               = Ok (mkLoadState
                       (mkModule [] [] ∅
                          [("linear",
                            mkModule [("weight", Some (mkParam new_weight true));
                                      ("bias", None)] [] ∅ []);
                           ("norm", batch_norm)])
                       {["linear.weight"]} (DefaultParamBucket []) []))
    by reflexivity.
  assert (H2 : example_torch_load "missing.bin" = Err (ExternalError "No such file"))
    by reflexivity.
  split_and!; [exact H1 | exact H2 |].
  exact (unreadable_checkpoint_ends_the_load example_torch_to same_names None None
      example_torch_load
           example_model [] ["model-00001.bin"] "missing.bin" ["model-00002.bin"]
           _ _ H1 H2).
Defined.

(** An iteration whose state dict holds keys for which [example_model] has no
    slot: the keys of the default bucket and of the attention bucket, which
    is ready, are seen; the key of the bucket that waits is not. *)
Lemma seen_keys_after_iteration_witness :
  sort_into_buckets
    [("embeddings.weight", example_tensor); ("attention.query.weight", example_tensor);
     ("attention.key.weight", example_tensor); ("mlp.up.weight", example_tensor)]
    (default_bucket (initial_state example_model [attention_bucket []; mlp_bucket []]))
    (deserialization_buckets
       (initial_state example_model [attention_bucket []; mlp_bucket []]))
  = Ok (DefaultParamBucket [("embeddings.weight", example_tensor)],
        [attention_bucket [("attention.query.weight", example_tensor);
                           ("attention.key.weight", example_tensor)];
         mlp_bucket [("mlp.up.weight", example_tensor)]]) /\
  load_state_dict example_torch_to same_names None None
    (initial_state example_model [attention_bucket []; mlp_bucket []])
    [("embeddings.weight", example_tensor); ("attention.query.weight", example_tensor);
     ("attention.key.weight", example_tensor); ("mlp.up.weight", example_tensor)]
  = Ok (mkLoadState example_model
          {["embeddings.weight"; "attention.query.weight"; "attention.key.weight"]}
          (DefaultParamBucket [])
          [attention_bucket []; mlp_bucket [("mlp.up.weight", example_tensor)]]) /\
  ({["embeddings.weight"; "attention.query.weight"; "attention.key.weight"]} : gset
      string)
  = ∅ ∪ converted_keys same_names
          [[("embeddings.weight", example_tensor)];
           [("attention.query.weight", example_tensor);
            ("attention.key.weight", example_tensor)]].
Proof.
  assert (Hsort : sort_into_buckets
                    [("embeddings.weight", example_tensor);
                     ("attention.query.weight", example_tensor);
                     ("attention.key.weight", example_tensor);
                     ("mlp.up.weight", example_tensor)]
                    (default_bucket
                       (initial_state example_model [attention_bucket []; mlp_bucket []]))
                    (deserialization_buckets
                       (initial_state example_model [attention_bucket []; mlp_bucket []]))
                  = Ok (DefaultParamBucket [("embeddings.weight", example_tensor)],
                        [attention_bucket [("attention.query.weight", example_tensor);
                                           ("attention.key.weight", example_tensor)];
                         mlp_bucket [("mlp.up.weight", example_tensor)]]))
    by reflexivity.
  assert (Hload : load_state_dict example_torch_to same_names None None
                    (initial_state example_model [attention_bucket []; mlp_bucket []])
                    [("embeddings.weight", example_tensor);
                     ("attention.query.weight", example_tensor);
                     ("attention.key.weight", example_tensor);
                     ("mlp.up.weight", example_tensor)]
                  = Ok (mkLoadState example_model
                          {["embeddings.weight"; "attention.query.weight";
                            "attention.key.weight"]}
                          (DefaultParamBucket [])
                          [attention_bucket [];
                           mlp_bucket [("mlp.up.weight", example_tensor)]]))
    by reflexivity.
  split_and!; [exact Hsort | exact Hload |].
  exact (proj1 (seen_keys_after_iteration example_torch_to same_names None None _ _ _ _
      _ Hsort Hload)).
Defined.

(** The two checkpoints of [example_model] hold no key of the attention
    bucket, which the call leaves empty. *)
Lemma returned_buckets_are_empty_witness :
  load_model_from_checkpoints example_torch_to same_names None None example_torch_load
      example_model
    ["model-00001.bin"; "model-00002.bin"] [attention_bucket []]
  = Ok (mkLoadState loaded_model {["linear.weight"; "norm.running_mean"]}
          (DefaultParamBucket []) [attention_bucket []]) /\
  deserialization_buckets
    (mkLoadState loaded_model {["linear.weight"; "norm.running_mean"]}
       (DefaultParamBucket []) [attention_bucket []])
  = bucket_clear <$> [attention_bucket []].
Proof.
  assert (H : load_model_from_checkpoints example_torch_to same_names None None
      example_torch_load
                example_model ["model-00001.bin"; "model-00002.bin"] [attention_bucket []]
              = Ok (mkLoadState loaded_model {["linear.weight"; "norm.running_mean"]}
                      (DefaultParamBucket []) [attention_bucket []]))
    by reflexivity.
  split; [exact H|].
  exact (proj1 (returned_buckets_are_empty example_torch_to same_names None None
      example_torch_load
                  example_model _ [attention_bucket []] _ H)).
Defined.

(** The bucket that expects the query only takes the query and the key of
    the checkpoint [attention.bin]. *)
Lemma overfull_bucket_fails_the_load_witness :
  load_state_dicts example_torch_to nothing_yet None None example_torch_load
      ["attention.bin"]
    (initial_state example_model [narrow_bucket []])
  = Ok (mkLoadState example_model ∅ (DefaultParamBucket [])
          [narrow_bucket [("attention.query.weight", example_tensor);
                          ("attention.key.weight", example_tensor)]]) /\
  Exists overfull
    [narrow_bucket [("attention.query.weight", example_tensor);
                    ("attention.key.weight", example_tensor)]] /\
  is_ok (load_model_from_checkpoints example_torch_to nothing_yet None None
      example_torch_load
           example_model (["attention.bin"] ++ ["model.bin"]) [narrow_bucket []])
  = false.
Proof.
  assert (H1 : load_state_dicts example_torch_to nothing_yet None None example_torch_load
                 ["attention.bin"] (initial_state example_model [narrow_bucket []])
               = Ok (mkLoadState example_model ∅ (DefaultParamBucket [])
                       [narrow_bucket [("attention.query.weight", example_tensor);
                                       ("attention.key.weight", example_tensor)]]))
    by reflexivity.
  assert (H2 : Exists overfull
                 [narrow_bucket [("attention.query.weight", example_tensor);
                                 ("attention.key.weight", example_tensor)]]).
  { apply Exists_cons_hd. unfold overfull, narrow_bucket. cbn [length].
    rewrite size_singleton. lia. }
  split_and!; [exact H1 | exact H2 |].
  exact (overfull_bucket_fails_the_load example_torch_to nothing_yet None None
      example_torch_load
           example_model [narrow_bucket []] ["attention.bin"] ["model.bin"] _ H1 H2).
Defined.

(** The key of the attention layer is in the attention bucket after the
    pairs of [attention.bin] are sorted. *)
Lemma sorted_pairs_are_stored_witness :
  NoDup (dict_keys [("embeddings.weight", example_tensor);
                    ("attention.query.weight", example_tensor);
                    ("attention.key.weight", example_tensor);
                    ("mlp.up.weight", example_tensor)]) /\
  num_matching [attention_bucket []; mlp_bucket []] "attention.key.weight" <> 0 /\
  stored "attention.key.weight" example_tensor
    [attention_bucket [("attention.query.weight", example_tensor);
                       ("attention.key.weight", example_tensor)];
     mlp_bucket [("mlp.up.weight", example_tensor)]].
Proof.
  assert (Hsort : sort_into_buckets
                    [("embeddings.weight", example_tensor);
                     ("attention.query.weight", example_tensor);
                     ("attention.key.weight", example_tensor);
                     ("mlp.up.weight", example_tensor)]
                    (DefaultParamBucket []) [attention_bucket []; mlp_bucket []]
                  = Ok (DefaultParamBucket [("embeddings.weight", example_tensor)],
                        [attention_bucket [("attention.query.weight", example_tensor);
                                           ("attention.key.weight", example_tensor)];
                         mlp_bucket [("mlp.up.weight", example_tensor)]]))
    by reflexivity.
  assert (Hnd : NoDup (dict_keys [("embeddings.weight", example_tensor);
                                  ("attention.query.weight", example_tensor);
                                  ("attention.key.weight", example_tensor);
                                  ("mlp.up.weight", example_tensor)])).
  { apply (bool_decide_unpack _). reflexivity. }
  assert (Hin : ("attention.key.weight", example_tensor)
                ∈ [("embeddings.weight", example_tensor);
                   ("attention.query.weight", example_tensor);
                   ("attention.key.weight", example_tensor);
                   ("mlp.up.weight", example_tensor)]).
  { apply list_elem_of_further, list_elem_of_further, list_elem_of_here. }
  assert (Hnum : num_matching [attention_bucket []; mlp_bucket []]
                   "attention.key.weight" <> 0).
  { intros Hzero. discriminate Hzero. }
  split_and!; [exact Hnd | exact Hnum |].
  exact (proj2 (sorted_pairs_are_stored _ _ _ _ _ _ _ Hsort Hnd Hin) Hnum).
Defined.

(** The name [weight] of [clashing_module] and a state dict with a key
    under the prefix of the module. *)
Lemma name_of_parameter_and_buffer_raises_witness :
  "weight" ∈ dict_keys (_parameters clashing_module) /\
  "weight" ∈ dict_keys (_buffers clashing_module) /\
  exists clash,
    apply [("norm.running_mean", new_mean)] (default_tensor_to_parameter_converter
        example_torch_to) None
      (mkModuleIterator clashing_module "norm")
    = Err (KeyError_parameter_and_buffer clash "norm").
Proof.
  assert (H1 : "weight" ∈ dict_keys (_parameters clashing_module))
    by apply list_elem_of_here.
  assert (H2 : "weight" ∈ dict_keys (_buffers clashing_module))
    by apply list_elem_of_further, list_elem_of_here.
  split_and!; [exact H1 | exact H2 |].
  apply (proj1 (name_of_parameter_and_buffer_raises
                  [("norm.running_mean", new_mean)]
                  (default_tensor_to_parameter_converter example_torch_to) None
                      clashing_module "norm"
                  "weight" H1 H2)).
  exists "norm.running_mean". split; [apply list_elem_of_here | reflexivity].
Defined.

(** The module [scaled_norm] under the prefix [norm], a state dict with a
    key for each of its three tensors, and the device [cuda:0]: the weight is
    what [example_torch_to] returned, a copy on other storage; the buffer
    is the tensor of the state dict. *)
Lemma apply_installs_the_replacements_witness :
  wf_module scaled_norm = true /\
  apply [("norm.weight", new_weight); ("norm.running_mean", new_mean);
         ("norm.running_count", new_mean)]
    (default_tensor_to_parameter_converter example_torch_to) (Some (cuda 0))
    (mkModuleIterator scaled_norm "norm")
  = Ok (mkModule
          [("weight", Some (mkParam (mkTensor [4; 4] float32 (cuda 0) 103) false))]
          [("running_mean", Some new_mean); ("running_count", Some example_tensor)]
          {["running_count"]} []) /\
  (exists old_param,
     Some (mkParam example_tensor false) = Some old_param /\
     shape (data old_param) = shape new_weight /\
     tensor_dtype (data old_param) = tensor_dtype new_weight /\
     exists new_param,
       parameter_to example_torch_to (mkParam new_weight (requires_grad old_param))
         (Some (cuda 0)) = Ok new_param /\
       (Some (cuda 0) = None -> new_param = mkParam new_weight (requires_grad
           old_param)) /\
       dict_get "weight"
         [("weight", Some (mkParam (mkTensor [4; 4] float32 (cuda 0) 103) false))]
       = Some (Some new_param)) /\
  (exists old_buffer,
     Some example_tensor = Some old_buffer /\
     shape old_buffer = shape new_mean /\
     tensor_dtype old_buffer = tensor_dtype new_mean /\
     dict_get "running_mean"
       [("running_mean", Some new_mean); ("running_count", Some example_tensor)]
     = Some (Some new_mean)) /\
  dict_get "running_count"
    [("running_mean", Some new_mean); ("running_count", Some example_tensor)]
  = dict_get "running_count" (_buffers scaled_norm).
Proof.
  assert (H1 : wf_module scaled_norm = true) by reflexivity.
  assert (H2 : apply [("norm.weight", new_weight); ("norm.running_mean", new_mean);
                      ("norm.running_count", new_mean)]
                 (default_tensor_to_parameter_converter example_torch_to) (Some (cuda 0))
                 (mkModuleIterator scaled_norm "norm")
               = Ok (mkModule
                       [("weight",
                         Some (mkParam (mkTensor [4; 4] float32 (cuda 0) 103) false))]
                       [("running_mean", Some new_mean);
                        ("running_count", Some example_tensor)]
                       {["running_count"]} [])) by reflexivity.
  pose proof (apply_installs_the_replacements example_torch_to _ _ _ _ _ H1 H2)
    as (Hparameter & Hbuffer & _ & Hnon_persistent & _ & _).
  split_and!; [exact H1 | exact H2 | | |].
  - apply (Hparameter "weight" _ new_weight); [apply list_elem_of_here | reflexivity].
  - apply (Hbuffer "running_mean" _ new_mean);
      [apply list_elem_of_here | | reflexivity].
    apply (bool_decide_unpack _). reflexivity.
  - apply (Hnon_persistent "running_count"). reflexivity.
Defined.

(** The state dict of the two tensors of [example_model]. *)
Lemma installation_keeps_the_state_dict_keys_witness :
  wf_tree example_model = true /\
  _emplace_module_state_dict example_torch_to example_model
    [("linear.weight", new_weight); ("norm.running_mean", new_mean)] None None
  = Ok loaded_model /\
  state_dict_keys loaded_model = state_dict_keys example_model /\
  wf_tree loaded_model = true.
Proof.
  assert (H1 : wf_tree example_model = true) by reflexivity.
  assert (H2 : _emplace_module_state_dict example_torch_to example_model
                 [("linear.weight", new_weight); ("norm.running_mean", new_mean)]
                 None None = Ok loaded_model) by reflexivity.
  split_and!; [exact H1 | exact H2 | |];
    apply (installation_keeps_the_state_dict_keys _ _ _ _ _ H1 H2).
Defined.

(** The same state dict, installed in [loaded_model]. *)
Lemma installation_twice_is_installation_once_witness :
  wf_tree example_model = true /\
  _emplace_module_state_dict example_torch_to example_model
    [("linear.weight", new_weight); ("norm.running_mean", new_mean)] None None
  = Ok loaded_model /\
  _emplace_module_state_dict example_torch_to loaded_model
    [("linear.weight", new_weight); ("norm.running_mean", new_mean)] None None
  = Ok loaded_model.
Proof.
  assert (H1 : wf_tree example_model = true) by reflexivity.
  assert (H2 : _emplace_module_state_dict example_torch_to example_model
                 [("linear.weight", new_weight); ("norm.running_mean", new_mean)]
                 None None = Ok loaded_model) by reflexivity.
  split_and!; [exact H1 | exact H2 |].
  exact (installation_twice_is_installation_once _ _ _ _ H1 H2).
Defined.

(** The load of the two checkpoints of [example_model]. *)
Lemma loaded_model_keys_were_seen_witness :
  wf_tree example_model = true /\
  load_model_from_checkpoints example_torch_to same_names None None example_torch_load
      example_model
    ["model-00001.bin"; "model-00002.bin"] []
  = Ok (mkLoadState loaded_model {["linear.weight"; "norm.running_mean"]}
          (DefaultParamBucket []) []) /\
  state_dict_keys loaded_model = state_dict_keys example_model /\
  (forall key, key ∈ state_dict_keys loaded_model ->
     key ∈ ({["linear.weight"; "norm.running_mean"]} : gset string)).
Proof.
  assert (H1 : wf_tree example_model = true) by reflexivity.
  assert (H2 : load_model_from_checkpoints example_torch_to same_names None None
      example_torch_load
                 example_model ["model-00001.bin"; "model-00002.bin"] []
               = Ok (mkLoadState loaded_model {["linear.weight"; "norm.running_mean"]}
                       (DefaultParamBucket []) [])) by reflexivity.
  split_and!; [exact H1 | exact H2 | |];
    apply (loaded_model_keys_were_seen example_torch_to same_names None
        example_torch_load _ _ _ _ H1 H2).
Defined.

(** A tensor that fits the weight, for a GPU that is not there: the
    exception is the one of [Parameter.to]. *)
Lemma installation_raises_only_replacement_errors_witness :
  wf_tree example_model = true /\
  _emplace_module_state_dict example_torch_to example_model
    [("linear.weight", new_weight)] None (Some (cuda 1))
  = Err (ExternalError "CUDA error: invalid device ordinal") /\
  (replacement_error (ExternalError "CUDA error: invalid device ordinal") \/
   exists p d,
     Some (cuda 1) = Some d /\
     example_torch_to p d = Err (ExternalError "CUDA error: invalid device ordinal")).
Proof.
  assert (H1 : wf_tree example_model = true) by reflexivity.
  assert (H2 : _emplace_module_state_dict example_torch_to example_model
                 [("linear.weight", new_weight)] None (Some (cuda 1))
               = Err (ExternalError "CUDA error: invalid device ordinal"))
    by reflexivity.
  split_and!; [exact H1 | exact H2 |].
  exact (installation_raises_only_replacement_errors _ _ _ _ _ H1 H2).
Defined.

(** The checkpoint [wide.bin] is rejected; the checkpoint after it cannot
    be read under [other_torch_load], and no exception tells. *)
Lemma checkpoints_after_an_exception_are_not_read_witness :
  (forall path, path ∈ ["wide.bin"] -> other_torch_load path = example_torch_load path) /\
  other_torch_load "model.bin" = Err (ExternalError "Permission denied") /\
  load_state_dicts example_torch_to same_names None None example_torch_load ["wide.bin"]
    (initial_state example_model [])
  = Err (ValueError_size "norm.running_mean" [4; 4] [4; 5]) /\
  load_model_from_checkpoints example_torch_to same_names None None other_torch_load
      example_model
    (["wide.bin"] ++ ["model.bin"]) []
  = Err (ValueError_size "norm.running_mean" [4; 4] [4; 5]).
Proof.
  assert (H1 : forall path, path ∈ ["wide.bin"] ->
                 other_torch_load path = example_torch_load path).
  { intros path Hpath. apply list_elem_of_singleton in Hpath. by rewrite Hpath. }
  assert (H2 : load_state_dicts example_torch_to same_names None None example_torch_load
      ["wide.bin"]
                 (initial_state example_model [])
               = Err (ValueError_size "norm.running_mean" [4; 4] [4; 5]))
    by reflexivity.
  split_and!; [exact H1 | reflexivity | exact H2 |].
  exact (checkpoints_after_an_exception_are_not_read example_torch_to same_names None None
           example_torch_load other_torch_load example_model [] ["wide.bin"]
           ["model.bin"] _ H1 H2).
Defined.

(** The load of the checkpoint [wide.bin], which holds a tensor of another
    shape for the buffer [running_mean]. *)
Lemma load_raises_only_its_own_exceptions_witness :
  wf_tree example_model = true /\
  load_model_from_checkpoints example_torch_to same_names None None example_torch_load
    example_model ["wide.bin"] []
  = Err (ValueError_size "norm.running_mean" [4; 4] [4; 5]) /\
  ((exists path, path ∈ ["wide.bin"] /\
      example_torch_load path = Err (ValueError_size "norm.running_mean" [4; 4] [4; 5]))
          \/
   (exists state_dict,
      same_names state_dict = Err (ValueError_size "norm.running_mean" [4; 4] [4; 5])) \/
   (exists p d,
      None = Some d /\
      example_torch_to p d = Err (ValueError_size "norm.running_mean" [4; 4] [4; 5])) \/
   loader_error (ValueError_size "norm.running_mean" [4; 4] [4; 5])).
Proof.
  assert (H1 : wf_tree example_model = true) by reflexivity.
  assert (H2 : load_model_from_checkpoints example_torch_to same_names None None
                 example_torch_load example_model ["wide.bin"] []
               = Err (ValueError_size "norm.running_mean" [4; 4] [4; 5]))
    by reflexivity.
  split_and!; [exact H1 | exact H2 |].
  exact (load_raises_only_its_own_exceptions example_torch_to same_names None
           example_torch_load _ _ _ _ H1 H2).
Defined.
